(** * go-logicboxes: the tag-driven encoders, the merge-previous step and
    the response decoders of the contact, customer and pricing packages,
    embedded shallowly in Rocq.

    Go values are modelled as follows.
    - A struct value inspected through [reflect] is a [record]: the list of
      its fields in declaration order, each with its struct tags
      ([field]) and its current value ([value]).
    - [url.Values] (a [map[string][]string]) is an association list from
      key to the list of values added under it ([values]).
    - [error] is an inductive of the error kinds the code creates.
    - [validator.New().Struct] (go-playground, outside this repository) is
      a parameter [validate : record -> option error] of the sections that
      use it; [validator_Struct] models it (the rules in declaration order,
      [required] and [omitempty] as the library has them, the other rules
      through [go_rule_ok]) and the concrete runs use that model.
    - A call that may panic ends in an [outcome]: [Returned] or
      [Panicked]. *)

From Stdlib Require Import String Ascii List ZArith Lia Bool Permutation.
From Stdlib Require Import DecimalString DecimalNat.
Import ListNotations.

Open Scope string_scope.
Set Warnings "-register-all".
Set Warnings "-notation-overridden".


(** ** Errors and results *)

Inductive error : Type :=
| ErrNew (msg : string)              (* errors.New *)
| ErrJSONSyntax                      (* a json.SyntaxError (message and offset not modelled) *)
| ErrJSONType (value kind : string)  (* a json.UnmarshalTypeError: the JSON value's kind and
                                        the reflect.Kind of the Go value it was meant for *)
| ErrValidation (msg : string)       (* validator.ValidationErrors, by its Error() text *)
| ErrStrconv (func num err : string). (* a strconv.NumError{Func, Num, Err} *)

Inductive result (A : Type) : Type :=
| Ok (a : A)
| Err (e : error).
Arguments Ok {A} a.
Arguments Err {A} e.

Definition bind {A B} (m : result A) (k : A -> result B) : result B :=
  match m with
  | Ok a => k a
  | Err e => Err e
  end.

Notation "x <- m ;; k" := (bind m (fun x => k))
  (at level 61, m at next level, right associativity).

(** How a call ends: it returns, or a goroutine panics, which stops the
    program. *)
Inductive outcome (A : Type) : Type :=
| Returned (a : A)
| Panicked.
Arguments Returned {A} a.
Arguments Panicked {A}.

(** ** The [strings] package on byte strings *)

Fixpoint has_prefix (pre s : string) : bool :=
  match pre, s with
  | EmptyString, _ => true
  | String a pre', String b s' => Ascii.eqb a b && has_prefix pre' s'
  | String _ _, EmptyString => false
  end.

(** [strings.HasSuffix]. *)
Definition has_suffix (s suf : string) : bool :=
  let n := String.length s in
  let m := String.length suf in
  Nat.leb m n && String.eqb (substring (n - m) m s) suf.

(** [strings.TrimSuffix]. *)
Definition trim_suffix (s suf : string) : string :=
  if has_suffix s suf
  then substring 0 (String.length s - String.length suf) s
  else s.

(** [unicode.ToLower] on a byte: the ASCII letters are mapped, other bytes
    are kept (the code applies it to ASCII field names and messages). *)
Definition lower_ascii (c : ascii) : ascii :=
  let n := nat_of_ascii c in
  if (Nat.leb 65 n && Nat.leb n 90)%bool then ascii_of_nat (n + 32) else c.

(** [strings.ToLower]. *)
Fixpoint to_lower (s : string) : string :=
  match s with
  | EmptyString => EmptyString
  | String c s' => String (lower_ascii c) (to_lower s')
  end.

(** [strconv.Itoa] on the non-negative indices the code prints. *)
Definition itoa (n : nat) : string :=
  NilEmpty.string_of_uint (Nat.to_uint n).

(** [strconv.FormatBool]. *)
Definition format_bool (b : bool) : string := if b then "true" else "false".

(** ** [url.Values] *)

Definition values := list (string * list string).

(** [url.Values.Add]: append [v] to the values of [k]. *)
Fixpoint values_add (k v : string) (vs : values) : values :=
  match vs with
  | [] => [(k, [v])]
  | (k', l) :: vs' =>
      if String.eqb k k' then (k', (l ++ [v])%list) :: vs'
      else (k', l) :: values_add k v vs'
  end.

(** The slice stored under a key ([vs[k]]), [None] when the key is absent. *)
Fixpoint values_lookup (k : string) (vs : values) : option (list string) :=
  match vs with
  | [] => None
  | (k', l) :: vs' => if String.eqb k k' then Some l else values_lookup k vs'
  end.

(** ** Struct values seen through [reflect] *)

(** A struct field and the tags the code reads ([Tag.Get] yields the empty string for
    an absent tag). *)
Record field : Type := mkField {
  f_name : string;       (* the Go field name *)
  f_json : string;       (* the [json] tag *)
  f_query : string;      (* the [query] tag *)
  f_validate : string    (* the [validate] tag *)
}.

(** A field value, by its [reflect.Kind]: strings (and named string types
    such as [Type]), booleans, slices of string-kinded elements ([None] is
    the nil slice) and any other kind, kept opaque with [0] as its zero. *)
Inductive value : Type :=
| VString (s : string)
| VBool (b : bool)
| VSlice (elems : option (list string))
| VOther (o : Z).

(** [reflect.Value.IsZero]. *)
Definition is_zero (v : value) : bool :=
  match v with
  | VString s => String.eqb s EmptyString
  | VBool b => negb b
  | VSlice None => true
  | VSlice (Some _) => false
  | VOther o => Z.eqb o 0
  end.

Definition is_string_kind (v : value) : bool :=
  match v with VString _ => true | _ => false end.

Definition record := list (field * value).

(** A tag the encoders skip outright. *)
Definition untagged (tag : string) : bool :=
  String.eqb tag EmptyString || String.eqb tag "-".

(** ** The contact package's encoders (contact/type.go) *)

(** One [Add(key, value)] call. *)
Definition add_op (r : values) (kv : string * string) : values := values_add (fst kv) (snd kv) r.

Section ContactEncoders.

Variable validate : record -> option error.

(** The field walk of the [Detail] method [URLValues]: fields without a query tag,
    with the tag ["-"] or of a kind other than string are skipped; a zero
    field aborts the walk unless its tag ends in [",optional"]. *)
Fixpoint contact_detail_walk (c : record) (ret : values)
  : option values * option error :=
  match c with
  | [] => (Some ret, None)
  | (f, v) :: c' =>
      let tag := f_query f in
      if untagged tag || negb (is_string_kind v) then contact_detail_walk c' ret
      else if is_zero v then
        if negb (has_suffix tag ",optional")
        then (None, Some (ErrNew (to_lower (f_name f) ++ " must not empty")))
        else contact_detail_walk c' ret
      else
        match v with
        | VString s =>
            contact_detail_walk c' (values_add (trim_suffix tag ",optional") s ret)
        | _ => contact_detail_walk c' ret
        end
  end.

(** [func (c *Detail) URLValues() (ptr-to-url.Values, error)]. *)
Definition contact_Detail_URLValues (c : record) : option values * option error :=
  match validate c with
  | Some e => (None, Some e)
  | None => contact_detail_walk c []
  end.

(** The fields of [contact.Criteria] whose type is a named string type
    ([Type] is a [contact.Type]): [vField.Interface().(string)] panics on
    them. *)
Definition criteria_named_string (f : field) : bool := String.eqb (f_name f) "Type".

(** A field goroutine of the [Criteria] method [URLValues] that returns
    at once. *)
Definition criteria_skipped (fv : field * value) : bool :=
  let (f, v) := fv in
  untagged (f_query f) || (is_zero v && has_suffix (f_query f) ",optional").

(** A field goroutine that panics. *)
Definition criteria_panics (fv : field * value) : bool :=
  negb (criteria_skipped fv) && is_string_kind (snd fv) && criteria_named_string (fst fv).

(** The [urlValues.Add] calls of a field goroutine that does not panic:
    one for a string or a bool, one per element for a slice (each by a
    goroutine of its own). *)
Definition criteria_adds (fv : field * value) : list (string * string) :=
  if criteria_skipped fv then []
  else
    let (f, v) := fv in
    let key := trim_suffix (f_query f) ",optional" in
    match v with
    | VString s => [(key, s)]
    | VBool b => [(key, format_bool b)]
    | VSlice elems => map (fun s => (key, s)) (match elems with Some l => l | None => [] end)
    | VOther _ => []
    end.

(** [func (c *Criteria) URLValues() (url.Values, error)]. The field
    goroutines and the element goroutines they start take the mutex in
    any order, so the [Add] calls are made in some order [ops] of all of
    them; a panic in any goroutine stops the program. *)
Inductive contact_Criteria_URLValues (c : record)
  : outcome (option values * option error) -> Prop :=
| criteria_invalid (e : error) :
    validate c = Some e -> contact_Criteria_URLValues c (Returned (None, Some e))
| criteria_panic :
    validate c = None -> existsb criteria_panics c = true ->
    contact_Criteria_URLValues c Panicked
| criteria_run (ops : list (string * string)) :
    validate c = None -> existsb criteria_panics c = false ->
    Permutation ops (flat_map criteria_adds c) ->
    contact_Criteria_URLValues c (Returned (Some (fold_left add_op ops []), None)).

End ContactEncoders.

(** The fields of [contact.Detail] with their [json], [query] and
    [validate] tags, in declaration order. *)
Definition contact_Detail_fields : list field := [
  mkField "ID" "entityid,omitempty" "-" EmptyString;
  mkField "Type" "type,omitempty" "type" "required";
  mkField "CustomerID" "customerid,omitempty" "customer-id" "required,number";
  mkField "StatusSystem" "currentstatus,omitempty" "-" EmptyString;
  mkField "StatusRegistry" "contactstatus,omitempty" "-" EmptyString;
  mkField "ParentKey" "parentkey,omitempty" "-" EmptyString;
  mkField "Name" "name,omitempty" "name" "required,max=255";
  mkField "Email" "emailaddr,omitempty" "email" "required,email";
  mkField "Company" "company,omitempty" "company" "required,max=255";
  mkField "Address" "address1,omitempty" "address-line-1" "required,max=64";
  mkField "AddressLine2" "address2,omitempty" "address-line-2,optional" "-";
  mkField "AddressLine3" "address3,omitempty" "address-line-3,optional" "-";
  mkField "City" "city,omitempty" "city" "required,max=64";
  mkField "State" "state,omitempty" "state,optional" "omitempty,max=64";
  mkField "CountryCode" "country,omitempty" "country" "required,iso3166_1_alpha2";
  mkField "Zipcode" "zip,omitempty" "zipcode" "required,max=16";
  mkField "PhoneCountryCode" "telnocc,omitempty" "phone-cc" "required,min=1,max=3";
  mkField "Phone" "telno,omitempty" "phone" "required,min=4,max=12";
  mkField "FaxCountryCode" "faxnocc,omitempty" "fax-cc,optional" "omitempty,min=1,max=3";
  mkField "Fax" "faxno,omitempty" "fax,optional" "omitempty,min=4,max=12";
  mkField "ClassName" "classname,omitempty" "-" EmptyString;
  mkField "ClassKey" "classkey,omitempty" "-" EmptyString;
  mkField "EntityActionID" "eaqid,omitempty" "-" EmptyString;
  mkField "ActionCompleted" "actioncompleted,omitempty" "-" EmptyString;
  mkField "ContactID" "contactid,omitempty" "-" EmptyString;
  mkField "EntityTypeID" "entitytypeid,omitempty" "-" EmptyString;
  mkField "Description" "description,omitempty" "-" EmptyString;
  mkField "TimeCreation" "creationdt,omitempty" "-" "-";
  mkField "TimeCreationRegistry" "timestamp,omitempty" "-" "-";
  mkField "IsDesignatedAgent" "designated-agent,omitempty" "-" "-";
  mkField "WhoisValidity" "whoisValidity,omitempty" "-" "-"
].

(** The kinds of [contact.Detail]'s fields: the last four are struct types
    of the core package, [ActionCompleted] is a [core.JSONUint16]. *)
Definition contact_Detail_string_field (f : field) : bool :=
  negb (existsb (String.eqb (f_name f))
          ["ActionCompleted"; "TimeCreation"; "TimeCreationRegistry";
           "IsDesignatedAgent"; "WhoisValidity"]).

(** The zero [contact.Detail]. *)
Definition contact_Detail_zero : record :=
  map (fun f => (f, if contact_Detail_string_field f then VString EmptyString else VOther 0))
      contact_Detail_fields.

(** The fields of [contact.Criteria]. *)
Definition contact_Criteria_fields : list field := [
  mkField "CustomerID" EmptyString "customer-id" "required,number";
  mkField "ContactIDs" EmptyString "contact-id,optional" "omitempty,dive,number";
  mkField "Statuses" EmptyString "status,optional" "omitempty";
  mkField "Name" EmptyString "name,optional" "omitempty";
  mkField "Email" EmptyString "email,optional" "omitempty,email";
  mkField "Company" EmptyString "company,optional" "omitempty";
  mkField "Type" EmptyString "type,optional" "omitempty";
  mkField "IsIncludeInvalid" EmptyString "include-invalid,optional" "omitempty"
].

(** A field the walk of [Detail.URLValues] refuses: tagged, of string kind,
    empty, and without the [",optional"] marker. *)
Definition required_zero (fv : field * value) : bool :=
  let (f, v) := fv in
  negb (untagged (f_query f)) && is_string_kind v && is_zero v
  && negb (has_suffix (f_query f) ",optional").

(** A record of the struct whose fields are [fs]. *)
Definition of_struct (fs : list field) (c : record) : Prop := map fst c = fs.

(** ** The customer package's encoder and merge (customer/types.go) *)

(** The fields of [customer.Detail]. *)
Definition customer_Detail_fields : list field := [
  mkField "ID" "customerid,omitempty" "-" "-";
  mkField "Username" "username,omitempty" "username" "omitempty,email";
  mkField "ResellerID" "resellerid,omitempty" "-" "-";
  mkField "ParentID" "parentid,omitempty" "-" "-";
  mkField "Name" "name,omitempty" "name" "omitempty";
  mkField "Company" "company,omitempty" "company" "omitempty";
  mkField "Email" "useremail,omitempty" "-" "-";
  mkField "PhoneCountryCode" "telnocc,omitempty" "phone-cc" "omitempty,len=2,number";
  mkField "Phone" "telno,omitempty" "phone" "omitempty,number";
  mkField "AltPhoneCountryCode" "-" "alt-phone-cc,omitempty" "omitempty,len=2,number";
  mkField "AltPhone" "-" "alt-phone,omitempty" "omitempty,number";
  mkField "MobileCountryCode" "mobilenocc,omitempty" "mobile-cc,omitempty" "omitempty,len=2,number";
  mkField "Mobile" "mobileno,omitempty" "mobile,omitempty" "omitempty,number";
  mkField "FaxCountryCode" "-" "faxnocc,omitempty" "omitempty,len=2";
  mkField "Fax" "-" "faxno,omitempty" "omitempty,number";
  mkField "Address" "address1,omitempty" "address-line-1" "omitempty";
  mkField "AddressLine2" "address2,omitempty" "address-line-2,omitempty" "omitempty";
  mkField "AddressLine3" "address3,omitempty" "address-line-3,omitempty" "omitempty";
  mkField "City" "city,omitempty" "city" "omitempty";
  mkField "StateID" "stateid,omitempty" "-" "-";
  mkField "State" "state,omitempty" "state" "omitempty";
  mkField "OtherState" "-" "other-state,omitempty" "omitempty";
  mkField "CountryCode" "country,omitempty" "country" "omitempty,iso3166_1_alpha2";
  mkField "Zipcode" "zip,omitempty" "zipcode" "omitempty";
  mkField "LanguagePreference" "langpref,omitempty" "lang-pref" "omitempty";
  mkField "VatEurope" "-" "vat-id,omitempty" "omitempty";
  mkField "VatRussia" "-" "russia-vat-id,omitempty" "omitempty";
  mkField "GstIndia" "-" "indian-gst-id,omitempty" "omitempty";
  mkField "GstAustralia" "-" "australia-gst-id,omitempty" "omitempty";
  mkField "GstNewZealand" "-" "newzealand-gst-id,omitempty" "omitempty";
  mkField "GstSingapore" "-" "singapore-gst-id,omitempty" "omitempty";
  mkField "Pin" "pin,omitempty" "-" "-";
  mkField "TimeCreation" "creationdt,omitempty" "-" "-";
  mkField "Status" "customerstatus,omitempty" "-" "-";
  mkField "SalesContactID" "salescontactid,omitempty" "-" "-";
  mkField "WebsiteCount" "websitecount,omitempty" "-" "-";
  mkField "TotalReceipts" "totalreceipts,omitempty" "-" "-";
  mkField "Is2FA" "twofactorauth_enabled,omitempty" "-" "-";
  mkField "Is2FASms" "twofactorsmsauth_enabled,omitempty" "-" "-";
  mkField "Is2FAGoogle" "twofactorgoogleauth_enabled,omitempty" "-" "-";
  mkField "IsDominicanTaxConfgired" "isDominicanTaxConfiguredByParent,omitempty" "-" "-"
].

Section CustomerEncoders.

Variable validate : record -> option error.

(** One field goroutine of [func (c Detail) URLValues()]: only tagged
    string fields are sent, an empty one is dropped when its tag ends in
    ["omitempty"] and sent empty otherwise. *)
Definition customer_detail_field (ret : values) (fv : field * value) : values :=
  let (f, v) := fv in
  let tag := f_query f in
  match v with
  | VString s =>
      if negb (untagged tag) then
        if has_suffix tag "omitempty" && is_zero v then ret
        else values_add (trim_suffix tag ",omitempty") s ret
      else ret
  | _ => ret
  end.

(** [func (c Detail) URLValues() (url.Values, error)]; on a validation
    failure it returns an empty [url.Values{}] with the error. *)
Definition customer_Detail_URLValues (c : record) : values * option error :=
  match validate c with
  | Some e => ([], Some e)
  | None => (fold_left customer_detail_field c [], None)
  end.

(** The field walk of [mergePrevious]: [vFieldPrev] is the field of [prev]
    at the same index. *)
Fixpoint merge_walk (c prev : record) : record :=
  match c, prev with
  | (f, v) :: c', (_, pv) :: prev' =>
      let tag := f_query f in
      let v' :=
        if untagged tag then v
        else if is_zero v then
          if has_suffix tag "omitempty" then v
          else match v, pv with
               | VString _, VString ps => VString ps
               | _, _ => v
               end
        else v in
      (f, v') :: merge_walk c' prev'
  | _, _ => c
  end.

(** [func (c *Detail) mergePrevious(prev *Detail) error]: the receiver is
    updated in place, so the model returns the receiver after the call
    together with the error. *)
Definition customer_mergePrevious (c prev : record) : record * option error :=
  match validate c with
  | Some e => (c, Some e)
  | None => (merge_walk c prev, None)
  end.

End CustomerEncoders.

(** ** The attribute list encoder (core [entityAttributes], pricing/type.go) *)

(** The goroutines the [range] loop starts: the [index]-th entry visited
    is handed the index [index], counted from [i]. *)
Fixpoint attr_goroutines (i : nat) (ord : list (string * string))
  : list (nat * (string * string)) :=
  match ord with
  | [] => []
  | kv :: ord' => (i, kv) :: attr_goroutines (S i) ord'
  end.

Definition attr_name_key (i : nat) : string := "attr-name" ++ itoa i.
Definition attr_value_key (i : nat) : string := "attr-value" ++ itoa i.

(** The body of one goroutine, run under the mutex. *)
Definition attr_goroutine (ret : values) (g : nat * (string * string)) : values :=
  let '(i, (k, v)) := g in
  values_add (attr_value_key i) v (values_add (attr_name_key i) k ret).

(** [func (e *entityAttributes) URLValues() url.Values]: the map [data] is
    visited in some order [ord] (Go's map order is unspecified) and the
    goroutines take the mutex in some order [sched]. *)
Inductive entityAttributes_URLValues (data : list (string * string)) : values -> Prop :=
| attr_run (ord : list (string * string)) (sched : list (nat * (string * string))) :
    Permutation ord data ->
    Permutation sched (attr_goroutines 1 ord) ->
    entityAttributes_URLValues data (fold_left attr_goroutine sched []).

(** ** [encoding/json] *)

(** A JSON value; object members keep their order and duplicates. *)
Inductive json : Type :=
| JNull
| JBool (b : bool)
| JNumber (lit : string)
| JString (s : string)
| JArray (elems : list json)
| JObject (members : list (string * json)).

Definition is_ws (c : ascii) : bool :=
  let n := nat_of_ascii c in
  Nat.eqb n 32 || Nat.eqb n 9 || Nat.eqb n 10 || Nat.eqb n 13.

Fixpoint skip_ws (s : string) : string :=
  match s with
  | String c s' => if is_ws c then skip_ws s' else s
  | EmptyString => s
  end.

Definition is_digit (c : ascii) : bool :=
  let n := nat_of_ascii c in Nat.leb 48 n && Nat.leb n 57.

Definition hex_val (c : ascii) : option nat :=
  let n := nat_of_ascii c in
  if Nat.leb 48 n && Nat.leb n 57 then Some (n - 48)
  else if Nat.leb 97 n && Nat.leb n 102 then Some (n - 87)
  else if Nat.leb 65 n && Nat.leb n 70 then Some (n - 55)
  else None.

(** The UTF-8 bytes of a code unit of a [\u] escape (surrogate halves are
    not paired up in this model). *)
Definition utf8_of (cp : nat) : string :=
  if Nat.ltb cp 128 then String (ascii_of_nat cp) EmptyString
  else if Nat.ltb cp 2048 then
    String (ascii_of_nat (192 + cp / 64))
      (String (ascii_of_nat (128 + cp mod 64)) EmptyString)
  else
    String (ascii_of_nat (224 + cp / 4096))
      (String (ascii_of_nat (128 + (cp / 64) mod 64))
        (String (ascii_of_nat (128 + cp mod 64)) EmptyString)).

Definition char_of (n : nat) : string := String (ascii_of_nat n) EmptyString.

(** The characters of a string literal after its opening quote, up to and
    without the closing quote; returns the decoded text and the rest. *)
Fixpoint lex_string (s : string) : option (string * string) :=
  match s with
  | EmptyString => None
  | String c s' =>
      let n := nat_of_ascii c in
      if Nat.eqb n 34 then Some (EmptyString, s')
      else if Nat.ltb n 32 then None
      else if Nat.eqb n 92 then
        match s' with
        | String e s'' =>
            let esc :=
              match nat_of_ascii e with
              | 34 => Some (char_of 34) | 92 => Some (char_of 92)
              | 47 => Some (char_of 47) | 98 => Some (char_of 8)
              | 102 => Some (char_of 12) | 110 => Some (char_of 10)
              | 114 => Some (char_of 13) | 116 => Some (char_of 9)
              | _ => None
              end in
            match esc with
            | Some t =>
                match lex_string s'' with
                | Some (r, rest) => Some (t ++ r, rest)
                | None => None
                end
            | None =>
                match nat_of_ascii e, s'' with
                | 117, String h1 (String h2 (String h3 (String h4 s5))) =>
                    match hex_val h1, hex_val h2, hex_val h3, hex_val h4 with
                    | Some a, Some b, Some c3, Some d =>
                        match lex_string s5 with
                        | Some (r, rest) =>
                            Some (utf8_of (((a * 16 + b) * 16 + c3) * 16 + d) ++ r, rest)
                        | None => None
                        end
                    | _, _, _, _ => None
                    end
                | _, _ => None
                end
            end
        | EmptyString => None
        end
      else
        match lex_string s' with
        | Some (r, rest) => Some (String c r, rest)
        | None => None
        end
  end.

(** A non-empty run of digits. *)
Fixpoint lex_digits (s : string) : string * string :=
  match s with
  | String c s' =>
      if is_digit c then let (d, rest) := lex_digits s' in (String c d, rest)
      else (EmptyString, s)
  | EmptyString => (EmptyString, EmptyString)
  end.

Definition lex_digits1 (s : string) : option (string * string) :=
  match lex_digits s with
  | (EmptyString, _) => None
  | r => Some r
  end.

(** A number: [-? (0 | [1-9][0-9]* ) (. [0-9]+)? ([eE] [+-]? [0-9]+)?]. *)
Definition lex_number (s : string) : option (string * string) :=
  let (sign, s1) :=
    match s with String "-" s' => ("-", s') | _ => (EmptyString, s) end in
  let int_part :=
    match s1 with
    | String "0" s' => Some ("0", s')
    | _ => lex_digits1 s1
    end in
  match int_part with
  | None => None
  | Some (ip, s2) =>
      let frac :=
        match s2 with
        | String "." s' =>
            match lex_digits1 s' with
            | Some (d, s3) => Some ("." ++ d, s3)
            | None => None
            end
        | _ => Some (EmptyString, s2)
        end in
      match frac with
      | None => None
      | Some (fp, s3) =>
          let exp :=
            match s3 with
            | String e s' =>
                if Ascii.eqb e "e" || Ascii.eqb e "E" then
                  let (es, s4) :=
                    match s' with
                    | String "+" s'' => ("+", s'')
                    | String "-" s'' => ("-", s'')
                    | _ => (EmptyString, s')
                    end in
                  match lex_digits1 s4 with
                  | Some (d, s5) => Some (String e (es ++ d), s5)
                  | None => None
                  end
                else Some (EmptyString, s3)
            | EmptyString => Some (EmptyString, s3)
            end in
          match exp with
          | None => None
          | Some (ep, s4) => Some (sign ++ ip ++ fp ++ ep, s4)
          end
      end
  end.

(** The value at the start of [s] (after white space) and the rest of the
    input; [fuel] bounds the nesting. *)
Fixpoint parse_value (fuel : nat) (s : string) : option (json * string) :=
  match fuel with
  | O => None
  | S fuel' =>
      let s := skip_ws s in
      match s with
      | String "{" s' =>
          match skip_ws s' with
          | String "}" rest => Some (JObject [], rest)
          | _ =>
              match parse_members fuel' s' with
              | Some (ms, rest) => Some (JObject ms, rest)
              | None => None
              end
          end
      | String "[" s' =>
          match skip_ws s' with
          | String "]" rest => Some (JArray [], rest)
          | _ =>
              match parse_elems fuel' s' with
              | Some (es, rest) => Some (JArray es, rest)
              | None => None
              end
          end
      | String "034" s' =>
          match lex_string s' with
          | Some (t, rest) => Some (JString t, rest)
          | None => None
          end
      | String "t" (String "r" (String "u" (String "e" rest))) => Some (JBool true, rest)
      | String "f" (String "a" (String "l" (String "s" (String "e" rest)))) =>
          Some (JBool false, rest)
      | String "n" (String "u" (String "l" (String "l" rest))) => Some (JNull, rest)
      | _ =>
          match lex_number s with
          | Some (lit, rest) => Some (JNumber lit, rest)
          | None => None
          end
      end
  end
(** The members of an object after its [{], up to and with its [}]. *)
with parse_members (fuel : nat) (s : string)
  : option (list (string * json) * string) :=
  match fuel with
  | O => None
  | S fuel' =>
      match skip_ws s with
      | String "034" s1 =>
          match lex_string s1 with
          | Some (k, s2) =>
              match skip_ws s2 with
              | String ":" s3 =>
                  match parse_value fuel' s3 with
                  | Some (v, s4) =>
                      match skip_ws s4 with
                      | String "," s5 =>
                          match parse_members fuel' s5 with
                          | Some (ms, rest) => Some ((k, v) :: ms, rest)
                          | None => None
                          end
                      | String "}" rest => Some ([(k, v)], rest)
                      | _ => None
                      end
                  | None => None
                  end
              | _ => None
              end
          | None => None
          end
      | _ => None
      end
  end
(** The elements of an array after its [[], up to and with its []]. *)
with parse_elems (fuel : nat) (s : string) : option (list json * string) :=
  match fuel with
  | O => None
  | S fuel' =>
      match parse_value fuel' s with
      | Some (v, s1) =>
          match skip_ws s1 with
          | String "," s2 =>
              match parse_elems fuel' s2 with
              | Some (es, rest) => Some (v :: es, rest)
              | None => None
              end
          | String "]" rest => Some ([v], rest)
          | _ => None
          end
      | None => None
      end
  end.

Definition syntax_error : error := ErrJSONSyntax.

(** The syntax check of [json.Unmarshal]: one value and nothing after it
    but white space. *)
Definition json_parse (s : string) : result json :=
  match parse_value (S (String.length s)) s with
  | Some (j, rest) =>
      match skip_ws rest with
      | EmptyString => Ok j
      | _ => Err syntax_error
      end
  | None => Err syntax_error
  end.

(** The [Value] of a [json.UnmarshalTypeError]: the kind of a JSON value. *)
Definition json_kind (j : json) : string :=
  match j with
  | JNull => "null"
  | JBool _ => "bool"
  | JNumber _ => "number"
  | JString _ => "string"
  | JArray _ => "array"
  | JObject _ => "object"
  end.

(** The raw text of each member of a top-level object, as
    [json.Unmarshal] hands it to a [json.Unmarshaler] such as
    [core.JSONBytes]. *)
Fixpoint raw_members (fuel : nat) (s : string) : option (list (string * string)) :=
  match fuel with
  | O => None
  | S fuel' =>
      match skip_ws s with
      | String "034" s1 =>
          match lex_string s1 with
          | Some (k, s2) =>
              match skip_ws s2 with
              | String ":" s3 =>
                  let s3' := skip_ws s3 in
                  match parse_value fuel' s3' with
                  | Some (_, s4) =>
                      let raw := substring 0 (String.length s3' - String.length s4) s3' in
                      match skip_ws s4 with
                      | String "," s5 =>
                          match raw_members fuel' s5 with
                          | Some ms => Some ((k, raw) :: ms)
                          | None => None
                          end
                      | String "}" _ => Some [(k, raw)]
                      | _ => None
                      end
                  | None => None
                  end
              | _ => None
              end
          | None => None
          end
      | _ => None
      end
  end.

(** A Go map filled from object members: a later duplicate key replaces
    the value of an earlier one. *)
Fixpoint map_insert {A} (k : string) (a : A) (m : list (string * A)) : list (string * A) :=
  match m with
  | [] => [(k, a)]
  | (k', a') :: m' => if String.eqb k k' then (k, a) :: m' else (k', a') :: map_insert k a m'
  end.

Definition go_map_of {A} (l : list (string * A)) : list (string * A) :=
  fold_left (fun m '(k, a) => map_insert k a m) l [].

(** Modelled from the spec: [core.JSONBytes] (core package, not in this
    source tree), the raw text of one member of the generic string-keyed
    map the classified decoders parse first (section 4.4).
    [json.Unmarshal(body, &m)] for [m : map[string]core.JSONBytes]:
    [null] leaves the map empty, an object fills it, anything else is an
    error. *)
Definition unmarshal_raw_map (s : string) : result (list (string * string)) :=
  match json_parse s with
  | Err e => Err e
  | Ok JNull => Ok []
  | Ok (JObject []) => Ok []
  | Ok (JObject _) =>
      match skip_ws s with
      | String "{" s' =>
          match raw_members (S (String.length s)) s' with
          | Some ms => Ok (go_map_of ms)
          | None => Err syntax_error
          end
      | _ => Err syntax_error
      end
  | Ok j => Err (ErrJSONType (json_kind j) "map")
  end.

(** *** Decoding into a struct *)

Fixpoint before_comma (s : string) : string :=
  match s with
  | String "," _ => EmptyString
  | String c s' => String c (before_comma s')
  | EmptyString => EmptyString
  end.

(** The key of a field in JSON: the [json] tag's name, the Go name when the
    tag gives none, and no key for the tag ["-"]. *)
Definition json_key (f : field) : option string :=
  let t := f_json f in
  if String.eqb t "-" then None
  else
    let n := before_comma t in
    Some (if String.eqb n EmptyString then f_name f else n).

Fixpoint find_index {A} (p : A -> bool) (l : list A) : option nat :=
  match l with
  | [] => None
  | a :: l' =>
      if p a then Some 0
      else match find_index p l' with Some i => Some (S i) | None => None end
  end.

Definition key_is (k : string) (fv : field * value) : bool :=
  match json_key (fst fv) with Some n => String.eqb n k | None => false end.

Definition key_folds (k : string) (fv : field * value) : bool :=
  match json_key (fst fv) with
  | Some n => String.eqb (to_lower n) (to_lower k)
  | None => false
  end.

(** The field an object key selects: an exact match first, otherwise the
    first case-insensitive one. *)
Definition find_field (k : string) (c : record) : option nat :=
  match find_index (key_is k) c with
  | Some i => Some i
  | None => find_index (key_folds k) c
  end.

Fixpoint update_nth {A} (i : nat) (a : A) (l : list A) : list A :=
  match i, l with
  | _, [] => []
  | O, _ :: l' => a :: l'
  | S i', b :: l' => b :: update_nth i' a l'
  end.

Definition type_error (j : json) (kind : string) : error := ErrJSONType (json_kind j) kind.

(** The first of two saved errors. *)
Definition first_error (e1 e2 : option error) : option error :=
  match e1 with Some _ => e1 | None => e2 end.

(** The elements of a JSON array decoded into a [[]string]: a [null]
    element leaves the zero string, an element of another kind leaves it
    too and its type error is saved (the first one is kept). *)
Fixpoint json_strings (es : list json) : list string * option error :=
  match es with
  | [] => ([], None)
  | e :: es' =>
      let (l, err) := json_strings es' in
      match e with
      | JString s => (s :: l, err)
      | JNull => (EmptyString :: l, err)
      | _ => (EmptyString :: l, Some (type_error e "string"))
      end
  end.

(** [json.Unmarshal] goes on decoding after a type error, which it saves
    and returns at the end (the first one); other errors, such as those
    of an [UnmarshalJSON] method, stop it at once. The decoders below
    return the decoded value with the saved error, or the error that
    stopped them; [saved] is the result of the [json.Unmarshal] call. *)
Definition saved {A} (r : result (A * option error)) : result A :=
  match r with
  | Err e => Err e
  | Ok (_, Some e) => Err e
  | Ok (a, None) => Ok a
  end.

Section Decoders.

(** The [UnmarshalJSON] methods of the core package's field types
    ([JSONTime], [JSONUint16], [JSONBool], ...), not in this source tree. *)
Variable decode_other : field -> json -> result value.

(** One field: a mismatched kind leaves the field as it was and saves a
    type error. *)
Definition decode_field (f : field) (v : value) (j : json) : result (value * option error) :=
  match v, j with
  | VOther _, _ => v' <- decode_other f j ;; Ok (v', None)
  | VSlice _, JNull => Ok (VSlice None, None)
  | _, JNull => Ok (v, None)
  | VString _, JString s => Ok (VString s, None)
  | VBool _, JBool b => Ok (VBool b, None)
  | VSlice _, JArray es => let (l, err) := json_strings es in Ok (VSlice (Some l), err)
  | VString _, _ => Ok (v, Some (type_error j "string"))
  | VBool _, _ => Ok (v, Some (type_error j "bool"))
  | VSlice _, _ => Ok (v, Some (type_error j "slice"))
  end.

(** The members of an object, in order, into the struct [c]. *)
Fixpoint decode_members (ms : list (string * json)) (c : record)
  : result (record * option error) :=
  match ms with
  | [] => Ok (c, None)
  | (k, j) :: ms' =>
      match find_field k c with
      | None => decode_members ms' c
      | Some i =>
          match nth_error c i with
          | Some (f, v) =>
              p <- decode_field f v j ;;
              let (v', err) := p in
              q <- decode_members ms' (update_nth i (f, v') c) ;;
              let (c', err') := q in
              Ok (c', first_error err err')
          | None => decode_members ms' c
          end
      end
  end.

(** A parsed value into the struct [c]. *)
Definition decode_struct (c : record) (j : json) : result (record * option error) :=
  match j with
  | JNull => Ok (c, None)
  | JObject ms => decode_members ms c
  | _ => Ok (c, Some (type_error j "struct"))
  end.

(** [json.Unmarshal] of a parsed value into the struct [c]. *)
Definition unmarshal_struct (c : record) (j : json) : result record :=
  saved (decode_struct c j).

(** The elements of an array into a nil slice of structs whose zero
    value is [z]. *)
Fixpoint decode_elems (z : record) (es : list json) : result (list record * option error) :=
  match es with
  | [] => Ok ([], None)
  | e :: es' =>
      p <- decode_struct z e ;;
      q <- decode_elems z es' ;;
      Ok (fst p :: fst q, first_error (snd p) (snd q))
  end.

(** [json.Unmarshal] of a parsed value into a nil slice of structs. *)
Definition unmarshal_slice (z : record) (j : json) : result (list record) :=
  saved (match j with
         | JNull => Ok ([], None)
         | JArray es => decode_elems z es
         | _ => Ok ([], Some (type_error j "slice"))
         end).

(** [json.Unmarshal(bytes, &x)] for a struct [x] holding [c]. *)
Definition unmarshal_text (c : record) (s : string) : result record :=
  j <- json_parse s ;; unmarshal_struct c j.

End Decoders.

(** *** [strconv.Atoi] and [strconv.ParseBool] *)

Fixpoint digits_value (d : string) (acc : Z) : Z :=
  match d with
  | EmptyString => acc
  | String c d' => digits_value d' (acc * 10 + Z.of_nat (nat_of_ascii c - 48))
  end.

Definition atoi (s : string) : result Z :=
  let syntax := Err (ErrStrconv "Atoi" s "invalid syntax") in
  let '(neg, s') :=
    match s with
    | String "-" t => (true, t)
    | String "+" t => (false, t)
    | _ => (false, s)
    end in
  match lex_digits s' with
  | (EmptyString, _) => syntax
  | (d, EmptyString) =>
      let n := (if neg then - digits_value d 0 else digits_value d 0)%Z in
      if (Z.leb (- 2 ^ 63) n && Z.leb n (2 ^ 63 - 1))%Z then Ok n
      else Err (ErrStrconv "Atoi" s "value out of range")
  | _ => syntax
  end.

Definition parse_bool (s : string) : result bool :=
  if existsb (String.eqb s) ["1"; "t"; "T"; "TRUE"; "true"; "True"] then Ok true
  else if existsb (String.eqb s) ["0"; "f"; "F"; "FALSE"; "false"; "False"] then Ok false
  else Err (ErrStrconv "ParseBool" s "invalid syntax").

(** ** go-playground's [validator.New().Struct] (outside this repository)

    The fields are checked in declaration order; a field whose [validate]
    tag is empty or ["-"] is skipped. The rules of a tag, separated by
    commas, are applied in order until one fails: [omitempty] stops the
    checks of a zero field, [required] fails on a zero field, and every
    other rule ([name] or [name=param]) is a check [rule_ok name param
    value]. Each failing field gives one line
    ["Key: '<Struct>.<Field>' Error:Field validation for '<Field>' failed on the '<rule>' tag"],
    and [ValidationErrors.Error()] joins the lines with newlines. *)

(** [strings.Split(s, string(sep))]. *)
Fixpoint split_on (sep : ascii) (s : string) : list string :=
  match s with
  | EmptyString => [EmptyString]
  | String c s' =>
      if Ascii.eqb c sep then EmptyString :: split_on sep s'
      else match split_on sep s' with
           | w :: ws => String c w :: ws
           | [] => [String c EmptyString]
           end
  end.

(** The name and the parameter of a rule [name=param]. *)
Definition rule_name (r : string) : string :=
  match split_on "=" r with n :: _ => n | [] => r end.

Fixpoint after_eq (r : string) : string :=
  match r with
  | EmptyString => EmptyString
  | String c r' => if Ascii.eqb c "=" then r' else after_eq r'
  end.

Definition rule_param (r : string) : string := after_eq r.

(** [hasValue]: the field is not its zero value. *)
Definition has_value (v : value) : bool := negb (is_zero v).

Definition field_report (struct_name : string) (f : field) (rule : string) : string :=
  "Key: '" ++ struct_name ++ "." ++ f_name f ++ "' Error:Field validation for '"
  ++ f_name f ++ "' failed on the '" ++ rule ++ "' tag".

Definition newline : string := String (ascii_of_nat 10) EmptyString.

Section Validator.

Variable rule_ok : string -> string -> value -> bool.

(** The rules of one field: the name of the rule that fails, if any. *)
Fixpoint field_check (rules : list string) (v : value) : option string :=
  match rules with
  | [] => None
  | r :: rs =>
      let n := rule_name r in
      if String.eqb n "omitempty" then
        if has_value v then field_check rs v else None
      else if String.eqb n "required" then
        if has_value v then field_check rs v else Some "required"
      else if rule_ok n (rule_param r) v then field_check rs v
      else Some n
  end.

Definition field_reports (struct_name : string) (fv : field * value) : list string :=
  let (f, v) := fv in
  if untagged (f_validate f) then []
  else match field_check (split_on "," (f_validate f)) v with
       | Some rule => [field_report struct_name f rule]
       | None => []
       end.

(** [validator.New().Struct(x)] for a struct [x] of type [struct_name]
    whose fields are [c]. *)
Definition validator_Struct (struct_name : string) (c : record) : option error :=
  match flat_map (field_reports struct_name) c with
  | [] => None
  | l => Some (ErrValidation (String.concat newline l))
  end.

End Validator.

(** The validator with the [required] and [omitempty] rules only, every
    other check passing. *)
Definition validate_required (struct_name : string) (c : record) : option error :=
  validator_Struct (fun _ _ _ => true) struct_name c.

(** *** The checks of the rules [contact.Detail] uses *)

(** [utf8.RuneCountInString]: a byte that does not start a valid UTF-8
    sequence counts as one rune. *)
Definition in_range (lo hi : nat) (c : ascii) : bool :=
  let n := nat_of_ascii c in Nat.leb lo n && Nat.leb n hi.

Definition utf8_seq_len (s : string) : nat :=
  match s with
  | String c0 s1 =>
      let n := nat_of_ascii c0 in
      if Nat.ltb n 128 then 1
      else
        let cont (lo hi : nat) (t : string) (k : nat) :=
          match t with String c1 _ => if in_range lo hi c1 then k else 1 | _ => 1 end in
        let second (lo hi : nat) (len : nat) :=
          match s1 with
          | String c1 s2 =>
              if negb (in_range lo hi c1) then 1
              else if Nat.eqb len 2 then 2
              else match s2 with
                   | String c2 s3 =>
                       if negb (in_range 128 191 c2) then 1
                       else if Nat.eqb len 3 then 3
                       else cont 128 191 s3 4
                   | _ => 1
                   end
          | _ => 1
          end in
        if Nat.leb 194 n && Nat.leb n 223 then second 128 191 2
        else if Nat.eqb n 224 then second 160 191 3
        else if Nat.eqb n 237 then second 128 159 3
        else if Nat.leb 225 n && Nat.leb n 239 then second 128 191 3
        else if Nat.eqb n 240 then second 144 191 4
        else if Nat.leb 241 n && Nat.leb n 243 then second 128 191 4
        else if Nat.eqb n 244 then second 128 143 4
        else 1
  | EmptyString => 0
  end.

Fixpoint rune_count_fuel (fuel : nat) (s : string) : nat :=
  match fuel with
  | O => 0
  | S fuel' =>
      match s with
      | EmptyString => 0
      | String _ _ =>
          let k := utf8_seq_len s in
          S (rune_count_fuel fuel' (substring k (String.length s) s))
      end
  end.

Definition rune_count (s : string) : nat := rune_count_fuel (String.length s) s.

(** Regular expressions on bytes, matched by derivatives. *)
Inductive regex : Type :=
| RVoid
| REps
| RChar (p : ascii -> bool)
| RSeq (r1 r2 : regex)
| RAlt (r1 r2 : regex)
| RStar (r : regex).

Fixpoint nullable (r : regex) : bool :=
  match r with
  | RVoid | RChar _ => false
  | REps | RStar _ => true
  | RSeq r1 r2 => nullable r1 && nullable r2
  | RAlt r1 r2 => nullable r1 || nullable r2
  end.

Definition rseq (r1 r2 : regex) : regex :=
  match r1 with RVoid => RVoid | REps => r2 | _ => RSeq r1 r2 end.

Definition ralt (r1 r2 : regex) : regex :=
  match r1, r2 with RVoid, _ => r2 | _, RVoid => r1 | _, _ => RAlt r1 r2 end.

Fixpoint deriv (c : ascii) (r : regex) : regex :=
  match r with
  | RVoid | REps => RVoid
  | RChar p => if p c then REps else RVoid
  | RSeq r1 r2 =>
      if nullable r1 then ralt (rseq (deriv c r1) r2) (deriv c r2)
      else rseq (deriv c r1) r2
  | RAlt r1 r2 => ralt (deriv c r1) (deriv c r2)
  | RStar r1 => rseq (deriv c r1) (RStar r1)
  end.

(** The whole string matches ([^...$]). *)
Fixpoint re_matches (r : regex) (s : string) : bool :=
  match s with
  | EmptyString => nullable r
  | String c s' => re_matches (deriv c r) s'
  end.

Definition rplus (r : regex) : regex := RSeq r (RStar r).
Definition ropt (r : regex) : regex := RAlt REps r.

Definition is_alpha (c : ascii) : bool := in_range 65 90 c || in_range 97 122 c.
Definition is_alnum (c : ascii) : bool := is_alpha c || is_digit c.
Definition is_one_of (chars : string) (c : ascii) : bool :=
  existsb (Ascii.eqb c) (list_ascii_of_string chars).

(** go-playground's [numberRegexString], [^[0-9]+$]. *)
Definition is_number (s : string) : bool := re_matches (rplus (RChar is_digit)) s.

(** go-playground's [emailRegexString] on ASCII text, without its second
    form of local part (a quoted string) and without its ranges of
    non-ASCII code points: a dot-atom local part, then domain labels
    ending in a dot (letters and digits at both ends, [-], [.] and [~]
    inside), a last label starting and ending with a letter, and an
    optional final dot. Every string it accepts, the library accepts. *)
Definition email_atext (c : ascii) : bool :=
  is_alnum c || is_one_of "!#$%&'*+-/=?^_`{|}~" c.

Definition email_label_inner (c : ascii) : bool := is_alnum c || is_one_of "-.~" c.

Definition email_regex : regex :=
  let dot := RChar (Ascii.eqb ".") in
  let local := RSeq (rplus (RChar email_atext))
                    (RStar (RSeq dot (rplus (RChar email_atext)))) in
  let label := RAlt (RChar is_alnum)
                    (RSeq (RChar is_alnum) (RSeq (RStar (RChar email_label_inner)) (RChar is_alnum))) in
  let last := RAlt (RChar is_alpha)
                   (RSeq (RChar is_alpha) (RSeq (RStar (RChar email_label_inner)) (RChar is_alpha))) in
  RSeq local (RSeq (RChar (Ascii.eqb "@")) (RSeq (rplus (RSeq label dot)) (RSeq last (ropt dot)))).

Definition is_email (s : string) : bool := re_matches email_regex s.

(** The ISO 3166-1 alpha-2 codes of go-playground's [iso3166_1_alpha2]. *)
Definition iso3166_1_alpha2 : list string :=
  split_on " " ("AF AX AL DZ AS AD AO AI AQ AG AR AM AW AU AT AZ BS BH BD BB BY BE BZ BJ BM "
    ++ "BT BO BQ BA BW BV BR IO BN BG BF BI KH CM CA CV KY CF TD CL CN CX CC CO KM CG CD "
    ++ "CK CR CI HR CU CW CY CZ DK DJ DM DO EC EG SV GQ ER EE ET FK FO FJ FI FR GF PF TF "
    ++ "GA GM GE DE GH GI GR GL GD GP GU GT GG GN GW GY HT HM VA HN HK HU IS IN ID IR IQ "
    ++ "IE IM IL IT JM JP JE JO KZ KE KI KP KR KW KG LA LV LB LS LR LY LI LT LU MO MK MG "
    ++ "MW MY MV ML MT MH MQ MR MU YT MX FM MD MC MN ME MS MA MZ MM NA NR NP NL NC NZ NI "
    ++ "NE NG NU NF MP NO OM PK PW PS PA PG PY PE PH PN PL PT PR QA RE RO RU RW BL SH KN "
    ++ "LC MF PM VC WS SM ST SA SN RS SC SL SG SX SK SI SB SO ZA GS SS ES LK SD SR SJ SZ "
    ++ "SE CH SY TW TJ TZ TH TL TG TK TO TT TN TR TM TC TV UG UA AE GB US UM UY UZ VU VE "
    ++ "VN VG VI WF EH YE ZM ZW").

(** The checks of the rules in the [validate] tags of [contact.Detail],
    all on string fields: [number], [email], [iso3166_1_alpha2], and the
    rune counts [min=n] and [max=n]. Other rules and kinds are not used
    there and are not modelled (they fail). *)
Definition go_rule_ok (name param : string) (v : value) : bool :=
  match v with
  | VString s =>
      if String.eqb name "number" then is_number s
      else if String.eqb name "email" then is_email s
      else if String.eqb name "iso3166_1_alpha2" then existsb (String.eqb s) iso3166_1_alpha2
      else if String.eqb name "min" then Z.leb (digits_value param 0) (Z.of_nat (rune_count s))
      else if String.eqb name "max" then Z.leb (Z.of_nat (rune_count s)) (digits_value param 0)
      else false
  | _ => false
  end.

(** *** [strings.NewReplacer(old1, new1, ...).Replace] *)

(** At each position the first pair, in argument order, whose old string
    starts there is replaced; otherwise one byte is copied. *)
Fixpoint replace_fuel (fuel : nat) (pairs : list (string * string)) (s : string) : string :=
  match fuel with
  | O => s
  | S fuel' =>
      match s with
      | EmptyString => EmptyString
      | String c s' =>
          match find (fun p => has_prefix (fst p) s) pairs with
          | Some (old, new) =>
              new ++ replace_fuel fuel'
                        pairs (substring (String.length old) (String.length s) s)
          | None => String c (replace_fuel fuel' pairs s')
          end
      end
  end.

Definition replace (pairs : list (string * string)) (s : string) : string :=
  replace_fuel (String.length s) pairs s.

(** ** Response handling *)

Definition StatusOK : Z := 200.

(** Modelled from the spec: [core.JSONStatusResponse] (core package, not
    in this source tree), the error envelope [{status, message}] of
    section 6. *)
Definition JSONStatusResponse_zero : record := [
  (mkField "Status" "status" EmptyString EmptyString, VString EmptyString);
  (mkField "Message" "message" EmptyString EmptyString, VString EmptyString)
].

(** The string held by the field called [name]. *)
Definition field_string (name : string) (c : record) : string :=
  match find (fun fv => String.eqb (f_name (fst fv)) name) c with
  | Some (_, VString s) => s
  | _ => EmptyString
  end.

(** Modelled from the spec: the core package's error values. *)
Definition ErrRcOperationFailed : error := ErrNew "operation failed".

(** A string with every ['] replaced by a double quote, to write JSON
    bodies. *)
Fixpoint dq (s : string) : string :=
  match s with
  | EmptyString => EmptyString
  | String c s' => String (if Ascii.eqb c "'" then "034" else c) (dq s')
  end.

Record SearchResult : Type := mkSearchResult {
  RequestedLimit : Z;
  RequestedOffset : Z;
  TotalMatched : Z;
  Records : list record     (* [Contacts] or [Customers] *)
}.

Section Responses.

Variable decode_other : field -> json -> result value.

(** The Go map [range] order: a reordering of the entries (see the
    theorems, which hold for every permutation). *)
Variable iter : list (string * string) -> list (string * string).

(** The non-success branch shared by the handlers:
    [errResponse := core.JSONStatusResponse{}; json.Unmarshal(...)] and
    [errors.New(strings.ToLower(errResponse.Message))]. *)
Definition error_envelope (body : string) : error :=
  match unmarshal_text decode_other JSONStatusResponse_zero body with
  | Err e => e
  | Ok env => ErrNew (to_lower (field_string "Message" env))
  end.

(** The [range buffer] loop of the contact [Search]. *)
Fixpoint contact_search_loop (entries : list (string * string))
    (bufs : list record) (num : Z) : result (list record * Z) :=
  match entries with
  | [] => Ok (bufs, num)
  | (k, raw) :: es =>
      if String.eqb k "recsindb" then
        contact_search_loop es bufs (match atoi raw with Ok n => n | Err _ => 0%Z end)
      else if String.eqb k "result" then
        match (j <- json_parse raw ;; unmarshal_slice decode_other contact_Detail_zero j) with
        | Err e => Err e
        | Ok l => contact_search_loop es l num
        end
      else contact_search_loop es bufs num
  end.

(** The contact [Search] after [io.ReadAll(resp.Body)] (part_000 and
    part_001 alike). *)
Definition contact_Search_response (limit offset status : Z) (body : string)
  : result SearchResult :=
  if negb (Z.eqb status StatusOK) then Err (error_envelope body)
  else
    let strResp := replace [("entity.", EmptyString); ("contact.", EmptyString)] body in
    buffer <- unmarshal_raw_map strResp ;;
    res <- contact_search_loop (iter buffer) [] 0 ;;
    let (dataBuffers, numMatched) := res in
    Ok (mkSearchResult limit offset numMatched dataBuffers).

(** The contact [Details] after [io.ReadAll(resp.Body)]. *)
Definition contact_Details_response (status : Z) (body : string) : result record :=
  if negb (Z.eqb status StatusOK) then Err (error_envelope body)
  else unmarshal_text decode_other contact_Detail_zero body.

(** [json.Unmarshal(bytes, &contacts)] into a map that already holds
    [m]: the members of an object are added to it; [null] sets the map
    to nil. *)
Definition unmarshal_raw_map_into (m : list (string * string)) (s : string)
  : result (list (string * string)) :=
  j <- json_parse s ;;
  match j with
  | JNull => Ok []
  | _ =>
      fresh <- unmarshal_raw_map s ;;
      Ok (fold_left (fun acc '(k, a) => map_insert k a acc) fresh m)
  end.

Fixpoint default_fill (elems : list (string * string)) (contacts : list (string * string))
  : result (list (string * string)) :=
  match elems with
  | [] => Ok contacts
  | (_, elem) :: es =>
      contacts' <- unmarshal_raw_map_into contacts elem ;;
      default_fill es contacts'
  end.

(** The goroutines of the contact [Default], run under the mutex in map
    order: records that fail to decode are skipped. *)
Fixpoint default_collect (entries : list (string * string))
    (acc : list (string * record)) : list (string * record) :=
  match entries with
  | [] => acc
  | (key, val) :: es =>
      if existsb (String.eqb key) ["registrant"; "type"; "tech"; "billing"; "admin"]
      then default_collect es acc
      else
        match unmarshal_text decode_other contact_Detail_zero val with
        | Err _ => default_collect es acc
        | Ok ctc => default_collect es (map_insert (trim_suffix key "ContactDetails") ctc acc)
        end
  end.

(** The contact [Default] after [io.ReadAll(resp.Body)]. *)
Definition contact_Default_response (status : Z) (body : string)
  : result (list (string * record)) :=
  if negb (Z.eqb status StatusOK) then Err (error_envelope body)
  else
    let strResp := replace [("contact.", EmptyString); ("entity.", EmptyString)] body in
    exoSkeleton <- unmarshal_raw_map strResp ;;
    match exoSkeleton with
    | [] => Err (ErrNew "failed while extract exoskeleton")
    | _ =>
        contacts <- default_fill (iter exoSkeleton) [] ;;
        Ok (default_collect (iter contacts) [])
    end.

(** Modelled from the spec: [core.RgxNumber] (core package, not in this
    source tree), the numeric-identifier pattern of section 4.4, taken as
    [^[0-9]+$]. *)
Definition rgx_number (s : string) : bool :=
  match lex_digits s with
  | (EmptyString, _) => false
  | (_, EmptyString) => true
  | _ => false
  end.

(** The customer zero [Detail]. *)
Definition customer_Detail_string_field (f : field) : bool :=
  negb (existsb (String.eqb (f_name f))
          ["TimeCreation"; "WebsiteCount"; "TotalReceipts"; "Is2FA";
           "Is2FASms"; "Is2FAGoogle"; "IsDominicanTaxConfgired"]).

Definition customer_Detail_zero : record :=
  map (fun f => (f, if customer_Detail_string_field f then VString EmptyString else VOther 0))
      customer_Detail_fields.

(** The [range buffer] loop of the customer [Search]; [dataBuffer] is
    declared once before the loop, so each record is decoded over the
    previous one. *)
Fixpoint customer_search_loop (entries : list (string * string)) (dataBuffer : record)
    (bufs : list record) (num : Z) : result (list record * Z) :=
  match entries with
  | [] => Ok (bufs, num)
  | (k, raw) :: es =>
      if rgx_number k then
        match unmarshal_text decode_other dataBuffer raw with
        | Err e => Err e
        | Ok d => customer_search_loop es d (bufs ++ [d])%list num
        end
      else if String.eqb k "recsindb" then
        customer_search_loop es dataBuffer bufs
          (match atoi raw with Ok n => n | Err _ => 0%Z end)
      else customer_search_loop es dataBuffer bufs num
  end.

(** The customer [Search] after [io.ReadAll(resp.Body)]. *)
Definition customer_Search_response (limit offset status : Z) (body : string)
  : result SearchResult :=
  if negb (Z.eqb status StatusOK) then Err (error_envelope body)
  else
    let strResp := replace [("customer.", EmptyString)] body in
    buffer <- unmarshal_raw_map strResp ;;
    res <- customer_search_loop (iter buffer) customer_Detail_zero [] 0 ;;
    let (dataBuffers, numMatched) := res in
    Ok (mkSearchResult limit offset numMatched dataBuffers).

End Responses.

(** ** The customer [Modify] *)

Section Modify.

Variable validate : record -> option error.
Variable decode_other : field -> json -> result value.

(** [func (c *customer) Modify(customerIDOrEmail string, modification Detail) error].
    [details] is what [c.Details(customerIDOrEmail)] returned and [call]
    answers [c.core.CallAPI(POST, "customers", "modify", data)] with the
    status code and the body. The model returns the error together with
    the parameter sets sent to the API. *)
Definition customer_Modify (details : result record) (modification : record)
    (call : values -> result (Z * string)) : option error * list values :=
  match details with
  | Err _ => (None, [])
  | Ok customerBefore =>
      let (merged, merr) := customer_mergePrevious validate modification customerBefore in
      match merr with
      | Some _ => (None, [])
      | None =>
          let (data, uerr) := customer_Detail_URLValues validate merged in
          match uerr with
          | Some _ => (None, [])
          | None =>
              let data := values_add "customer-id" (field_string "ID" customerBefore) data in
              match call data with
              | Err e => (Some e, [data])
              | Ok (status, body) =>
                  if negb (Z.eqb status StatusOK)
                  then (Some (error_envelope decode_other body), [data])
                  else
                    match parse_bool body with
                    | Err e => (Some e, [data])
                    | Ok false => (Some ErrRcOperationFailed, [data])
                    | Ok true => (None, [data])
                    end
              end
          end
      end
  end.

End Modify.

(** ** The core [entityAttributes] map (pricing/type.go) *)

(** [e.data], a Go [map[string]string], as its entries (distinct keys);
    [m[k]] is [map_lookup]. *)
Fixpoint map_lookup {A} (k : string) (m : list (string * A)) : option A :=
  match m with
  | [] => None
  | (k', a) :: m' => if String.eqb k k' then Some a else map_lookup k m'
  end.

(** [NewEntityAttributes()]: an empty map. *)
Definition NewEntityAttributes : list (string * string) := [].

(** [func (e *entityAttributes) Add(key, val string)]: [e.data[key] = val]. *)
Definition entityAttributes_Add (key val : string) (data : list (string * string))
  : list (string * string) :=
  map_insert key val data.

(** [func (e *entityAttributes) Get(key string) string]: [e.data[key]], the
    zero string for an absent key. *)
Definition entityAttributes_Get (key : string) (data : list (string * string)) : string :=
  match map_lookup key data with
  | Some v => v
  | None => EmptyString
  end.

(** [func (e *entityAttributes) Del(key string)]: [delete(e.data, key)]. *)
Definition entityAttributes_Del (key : string) (data : list (string * string))
  : list (string * string) :=
  filter (fun kv => negb (String.eqb (fst kv) key)) data.

(** [func (e *entityAttributes) CopyTo(dest *url.Values)]. The pointer
    [dest] is [None] when nil, [Some None] when it points to a nil map and
    [Some (Some d)] when it points to the map [d]; the outcome holds the
    pointer after the call. A nil [dest] is left alone. [Add] on a nil map
    panics, so a pointer to a nil map makes the first goroutine panic
    unless the attribute map is empty. Otherwise the goroutines of
    [URLValues] add into [*dest]. *)
Inductive entityAttributes_CopyTo (data : list (string * string))
  : option (option values) -> outcome (option (option values)) -> Prop :=
| copy_nil : entityAttributes_CopyTo data None (Returned None)
| copy_nil_map_empty :
    data = [] -> entityAttributes_CopyTo data (Some None) (Returned (Some None))
| copy_nil_map :
    data <> [] -> entityAttributes_CopyTo data (Some None) Panicked
| copy_run (dest : values) (ord : list (string * string))
    (sched : list (nat * (string * string))) :
    Permutation ord data ->
    Permutation sched (attr_goroutines 1 ord) ->
    entityAttributes_CopyTo data (Some (Some dest))
      (Returned (Some (Some (fold_left attr_goroutine sched dest)))).

(** ** [url.Values.Encode] and [url.QueryEscape] *)

Definition is_lower (c : ascii) : bool :=
  let n := nat_of_ascii c in Nat.leb 97 n && Nat.leb n 122.

Definition is_upper (c : ascii) : bool :=
  let n := nat_of_ascii c in Nat.leb 65 n && Nat.leb n 90.

(** The bytes [shouldEscape] leaves alone in a query component. *)
Definition query_unreserved (c : ascii) : bool :=
  is_lower c || is_upper c || is_digit c ||
  existsb (Ascii.eqb c) ["-"; "_"; "."; "~"]%char.

(** The upper-case hex digit of [n < 16]. *)
Definition hex_upper (n : nat) : ascii :=
  ascii_of_nat (if Nat.ltb n 10 then 48 + n else 55 + n).

(** [url.QueryEscape]: a space becomes ['+'], another reserved byte [%XX]. *)
Fixpoint query_escape (s : string) : string :=
  match s with
  | EmptyString => EmptyString
  | String c s' =>
      let n := nat_of_ascii c in
      (if query_unreserved c then String c EmptyString
       else if Nat.eqb n 32 then "+"
       else String "%" (String (hex_upper (n / 16)) (String (hex_upper (n mod 16)) EmptyString)))
      ++ query_escape s'
  end.

(** [slices.Sorted(maps.Keys(v))]: the entries sorted by key, byte-wise. *)
Fixpoint insert_by_key (kv : string * list string) (l : values) : values :=
  match l with
  | [] => [kv]
  | kv' :: l' => if String.leb (fst kv) (fst kv') then kv :: l else kv' :: insert_by_key kv l'
  end.

(** [func (v Values) Encode() string]: ["k=v"] pairs, keys sorted, joined
    by ['&']. *)
Definition values_encode (v : values) : string :=
  String.concat "&"
    (flat_map (fun kv => map (fun x => query_escape (fst kv) ++ "=" ++ query_escape x) (snd kv))
              (fold_right insert_by_key [] v)).

(** [strings.TrimRight(s, "/")]. *)
Fixpoint trim_right_slash (s : string) : string :=
  match s with
  | EmptyString => EmptyString
  | String c s' =>
      let r := trim_right_slash s' in
      if String.eqb r EmptyString && Ascii.eqb c "/" then EmptyString else String c r
  end.

(** ** The customer [loginToken] (customer/types.go) *)

Record loginToken : Type := mkLoginToken {
  token : string;
  baseURL : string
}.

Definition loginToken_String (t : loginToken) : string := token t.

Definition loginToken_URLFullPath (t : loginToken) : string :=
  let data := values_add "userLoginId" (loginToken_String t) (values_add "role" "customer" []) in
  "servlet/AutoLoginServlet?" ++ values_encode data.

Definition loginToken_LoginURL (t : loginToken) : string :=
  trim_right_slash (baseURL t) ++ loginToken_URLFullPath t.

(** ** The customer [SignUpForm] and its password rule *)

Fixpoint string_existsb (p : ascii -> bool) (s : string) : bool :=
  match s with
  | EmptyString => false
  | String c s' => p c || string_existsb p s'
  end.

(** The class [[\~\*!@\$#%\_\+.\?:,\{\}]]. *)
Definition is_password_symbol (c : ascii) : bool :=
  existsb (Ascii.eqb c)
    ["~"; "*"; "!"; "@"; "$"; "#"; "%"; "_"; "+"; "."; "?"; ":"; ","; "{"; "}"]%char.

(** [matchPasswordWithPattern]; [len] counts bytes. *)
Definition matchPasswordWithPattern (password : string) (withRangeOfLength : bool) : bool :=
  if withRangeOfLength &&
     (Nat.ltb (String.length password) 9 || Nat.ltb 16 (String.length password))
  then false
  else string_existsb is_lower password && string_existsb is_upper password &&
       string_existsb is_password_symbol password.

(** The fields of [SignUpForm] with their [query] and [validate] tags. *)
Definition SignUpForm_fields : list field := [
  mkField "Username" EmptyString "username" "required,email";
  mkField "Password" EmptyString "passwd" "required,min=9,max=16,rcpassword";
  mkField "Name" EmptyString "name" "required";
  mkField "Company" EmptyString "company" "required";
  mkField "Address" EmptyString "address-line-1" "required";
  mkField "AddressLine2" EmptyString "address-line-2,omitempty" "omitempty";
  mkField "AddressLine3" EmptyString "address-line-3,omitempty" "omitempty";
  mkField "City" EmptyString "city" "required";
  mkField "State" EmptyString "state" "required";
  mkField "OtherState" EmptyString "other-state,omitempty" "omitempty";
  mkField "Country" EmptyString "country" "required,iso3166_1_alpha2";
  mkField "Zipcode" EmptyString "zipcode" "required";
  mkField "LanguageCode" EmptyString "lang-pref" "required";
  mkField "PhoneCountryCode" EmptyString "phone-cc" "required,len=2";
  mkField "Phone" EmptyString "phone" "required,number";
  mkField "AltPhoneCountryCode" EmptyString "alt-phone-cc,omitempty" "omitempty,len=2";
  mkField "AltPhone" EmptyString "alt-phone,omitempty" "omitempty,number";
  mkField "FaxCountryCode" EmptyString "fax-cc,omitempty" "omitempty,len=2";
  mkField "Fax" EmptyString "fax,omitempty" "omitempty,number";
  mkField "MobileCountryCode" EmptyString "mobile-cc,omitempty" "omitempty,len=2";
  mkField "Mobile" EmptyString "mobile,omitempty" "omitempty,number";
  mkField "VatID" EmptyString "vat-id,omitempty" "omitempty";
  mkField "SmsConcent" EmptyString "sms-consent,omitempty" "omitempty";
  mkField "EmailMarketingConcent" EmptyString "email-marketing-consent,omitempty" "omitempty";
  mkField "AcceptPolicy" EmptyString "accept-policy,omitempty" "omitempty";
  mkField "CustomerID" EmptyString EmptyString "-"
].

(** One field goroutine of [func (r SignUpForm) URLValues()]. *)
Definition signup_field (urlValues : values) (fv : field * value) : values :=
  let (f, v) := fv in
  let fieldTag := f_query f in
  if negb (String.eqb fieldTag EmptyString) then
    if has_suffix fieldTag "omitempty" && is_zero v then urlValues
    else
      let queryField := trim_suffix fieldTag ",omitempty" in
      match v with
      | VString s => values_add queryField s urlValues
      | VBool b => values_add queryField (format_bool b) urlValues
      | _ => urlValues
      end
  else urlValues.

(** [func (r SignUpForm) URLValues() (url.Values, error)]: [validate] is the
    validator with [rcpassword] registered (registration cannot fail for
    a non-empty tag and a non-nil function); the goroutines take the mutex
    in some order [sched]. *)
Inductive SignUpForm_URLValues (validate : record -> option error) (r : record)
  : values * option error -> Prop :=
| signup_invalid (e : error) :
    validate r = Some e -> SignUpForm_URLValues validate r ([], Some e)
| signup_run (sched : record) :
    validate r = None -> Permutation sched r ->
    SignUpForm_URLValues validate r (fold_left signup_field sched [], None).

(** ** The API calls of the customer and contact packages *)

(** One [c.core.CallAPI(method, path, funcName, data)]. *)
Record request : Type := mkRequest {
  req_method : string;
  req_path : string;
  req_func : string;
  req_data : values
}.

Definition MethodGet : string := "GET".
Definition MethodPost : string := "POST".

(** [field = value] on the field called [name] (the others are kept). *)
Definition set_field (name : string) (v : value) (c : record) : record :=
  map (fun fv => if String.eqb (f_name (fst fv)) name then (fst fv, v) else fv) c.

(** [contact.Action], decoded by the contact [Delete]. *)
Definition Action_zero : record := [
  (mkField "ID" "eaqid,omitempty" EmptyString EmptyString, VString EmptyString);
  (mkField "EntityID" "entityid,omitempty" EmptyString EmptyString, VString EmptyString);
  (mkField "Type" "actiontype,omitempty" EmptyString EmptyString, VString EmptyString);
  (mkField "Description" "actiontypedesc,omitempty" EmptyString EmptyString, VString EmptyString);
  (mkField "Status" "actionstatus,omitempty" EmptyString EmptyString, VString EmptyString);
  (mkField "StatusDescription" "actionstatusdesc,omitempty" EmptyString EmptyString, VString EmptyString)
].

Section Calls.

Variable validate : record -> option error.
Variable decode_other : field -> json -> result value.
Variable iter : list (string * string) -> list (string * string).

(** [c.core.CallAPI] followed by [io.ReadAll(resp.Body)]: the status code
    and the body, or the error of either. *)
Variable call : request -> result (Z * string).

(** [core.RgxEmail] and [core.ErrRcInvalidCredential] (core package, not in
    this source tree), left abstract. *)
Variable rgx_email : string -> bool.
Variable ErrRcInvalidCredential : error.

(** The tail of the operations that answer a boolean: the call, the error
    envelope off 200, then [strconv.ParseBool] and
    [core.ErrRcOperationFailed] on [false]. *)
Definition call_bool (r : request) : option error :=
  match call r with
  | Err e => Some e
  | Ok (status, body) =>
      if negb (Z.eqb status StatusOK) then Some (error_envelope decode_other body)
      else match parse_bool body with
           | Err e => Some e
           | Ok false => Some ErrRcOperationFailed
           | Ok true => None
           end
  end.

(** The tail of the operations that answer a string or a decoded record:
    the call and the error envelope off 200. *)
Definition call_body (r : request) : result string :=
  match call r with
  | Err e => Err e
  | Ok (status, body) =>
      if negb (Z.eqb status StatusOK) then Err (error_envelope decode_other body)
      else Ok body
  end.


(** Each operation returns its results together with the requests it sent. *)

(** [func (c *customer) Suspension(toggle bool, customerID, reason string) error]. *)
Definition customer_Suspension (toggle : bool) (customerID reason : string)
  : option error * list request :=
  if negb (rgx_number customerID) then (Some ErrRcInvalidCredential, [])
  else
    let funcName := if toggle then "suspend" else "unsuspend" in
    let data := values_add "reason" reason (values_add "customer-id" customerID []) in
    let r := mkRequest MethodPost "customers" funcName data in
    (call_bool r, [r]).


(** [func (c *customer) Delete(customerID string) error]. *)
Definition customer_Delete (customerID : string) : option error * list request :=
  if negb (rgx_number customerID) then (Some ErrRcInvalidCredential, [])
  else
    let r := mkRequest MethodPost "customers" "delete" [("customer-id", [customerID])] in
    (call_bool r, [r]).

(** [func (c *customer) ChangePassword(customerID, newPassword string) error]. *)
Definition customer_ChangePassword (customerID newPassword : string)
  : option error * list request :=
  if negb (matchPasswordWithPattern newPassword true)
  then (Some (ErrNew "invalid password format"), [])
  else
    let data := values_add "new-passwd" newPassword (values_add "customer-id" customerID []) in
    let r := mkRequest MethodPost "customers/v2" "change-password" data in
    (call_bool r, [r]).

(** [func (c *customer) GenerateOTP(customerID string) error]. *)
Definition customer_GenerateOTP (customerID : string) : option error * list request :=
  if negb (rgx_number customerID) then (Some ErrRcInvalidCredential, [])
  else
    let r := mkRequest MethodGet "customers/authenticate" "generate-otp"
               [("customerid", [customerID])] in
    (call_bool r, [r]).

(** [func (c *customer) VerifyOTP(customerID, otp string, authType core.AuthType) (bool, error)];
    [strconv.ParseBool] answers [false] with its error. *)
Definition customer_VerifyOTP (customerID otp authType : string)
  : (bool * option error) * list request :=
  if negb (rgx_number customerID) then ((false, Some ErrRcInvalidCredential), [])
  else
    let data := values_add "type" authType
                  (values_add "otp" otp (values_add "customerid" customerID [])) in
    let r := mkRequest MethodPost "customers/authenticate" "verify-otp" data in
    match call_body r with
    | Err e => ((false, Some e), [r])
    | Ok body =>
        match parse_bool body with
        | Ok b => ((b, None), [r])
        | Err e => ((false, Some e), [r])
        end
    end.

(** [func (c *customer) GenerateToken(username, password, ip string) (string, error)]. *)
Definition customer_GenerateToken (username password ip : string)
  : (string * option error) * list request :=
  if negb (matchPasswordWithPattern password true)
  then ((EmptyString, Some (ErrNew "invalid format on password")), [])
  else if negb (rgx_email username)
  then ((EmptyString, Some (ErrNew "invalid format on email")), [])
  else
    let data := values_add "ip" ip
                  (values_add "passwd" password (values_add "username" username [])) in
    let r := mkRequest MethodGet "customers" "generate-token" data in
    match call_body r with
    | Err e => ((EmptyString, Some e), [r])
    | Ok body => ((body, None), [r])
    end.

(** [^https?://.*$]: [.] matches every byte but a newline. *)
Definition rgx_http_url (s : string) : bool :=
  (has_prefix "http://" s || has_prefix "https://" s) &&
  negb (string_existsb (fun c => Nat.eqb (nat_of_ascii c) 10) s).

(** [func (c *customer) GenerateLoginToken(customerID, ip, dashboardBaseURL string) (LoginToken, error)];
    [isProduction] is [c.core.IsProduction()]. *)
Definition customer_GenerateLoginToken (isProduction : bool) (customerID ip dashboardBaseURL : string)
  : result loginToken * list request :=
  if negb (rgx_number customerID) then (Err (ErrNew "invalid format on customerid"), [])
  else
    let base :=
      if isProduction then
        if rgx_http_url dashboardBaseURL then Ok dashboardBaseURL
        else Err (ErrNew "dashboard's baseurl is required in production mode")
      else Ok "http://demo.myorderbox.com" in
    match base with
    | Err e => (Err e, [])
    | Ok b =>
        let data := values_add "ip" ip (values_add "customer-id" customerID []) in
        let r := mkRequest MethodGet "customers" "generate-login-token" data in
        match call_body r with
        | Err e => (Err e, [r])
        | Ok body => (Ok (mkLoginToken body b), [r])
        end
    end.

(** [func (c *customer) Details(customerIDOrEmail string) (ptr-to-Detail, error)]. *)
Definition customer_Details (customerIDOrEmail : string) : result record * list request :=
  let sel :=
    if rgx_email customerIDOrEmail then Some ("details", "username")
    else if rgx_number customerIDOrEmail then Some ("details-by-id", "customer-id")
    else None in
  match sel with
  | None => (Err ErrRcInvalidCredential, [])
  | Some (funcName, query) =>
      let r := mkRequest MethodGet "customers" funcName (values_add query customerIDOrEmail []) in
      match call_body r with
      | Err e => (Err e, [r])
      | Ok body => (unmarshal_text decode_other customer_Detail_zero body, [r])
      end
  end.

(** [func (c *customer) SignUp(regForm *SignUpForm) error]: [encoded] is what
    [regForm.URLValues()] returned; the form after the call is returned
    with the error. *)
Definition customer_SignUp (regForm : record) (encoded : values * option error)
  : (option error * record) * list request :=
  match snd encoded with
  | Some e => ((Some e, regForm), [])
  | None =>
      let r := mkRequest MethodPost "customers/v2" "signup" (fst encoded) in
      match call_body r with
      | Err e => ((Some e, regForm), [r])
      | Ok body => ((None, set_field "CustomerID" (VString body) regForm), [r])
      end
  end.

(** [func (c *contact) Delete(ctx, contactID string) (ptr-to-Action, error)]. *)
Definition contact_Delete (contactID : string) : result record * list request :=
  if negb (rgx_number contactID) then (Err ErrRcInvalidCredential, [])
  else
    let r := mkRequest MethodPost "contacts" "delete" [("contact-id", [contactID])] in
    match call_body r with
    | Err e => (Err e, [r])
    | Ok body => (unmarshal_text decode_other Action_zero body, [r])
    end.

(** [func (c *contact) Details(ctx, contactID string) (ptr-to-Detail, error)]. *)
Definition contact_Details (contactID : string) : result record * list request :=
  if negb (rgx_number contactID) then (Err ErrRcInvalidCredential, [])
  else
    let r := mkRequest MethodGet "contacts" "details" (values_add "contact-id" contactID []) in
    match call r with
    | Err e => (Err e, [r])
    | Ok (status, body) => (contact_Details_response decode_other status body, [r])
    end.

(** The [for _, t := range types] loop adding ["type"]. *)
Definition add_types (types : list string) (data : values) : values :=
  fold_left (fun acc t => values_add "type" t acc) types data.

(** [func (c *contact) SetDefault(ctx, customerID, regContactID, adminContactID,
    techContactID, billContactID string, types []Type) error]. *)
Definition contact_SetDefault (customerID regContactID adminContactID techContactID billContactID : string)
    (types : list string) : option error * list request :=
  match types with
  | [] => (Some (ErrNew "contact types must not empty"), [])
  | _ =>
      if negb (rgx_number customerID) || negb (rgx_number regContactID) ||
         negb (rgx_number adminContactID) || negb (rgx_number techContactID) ||
         negb (rgx_number billContactID)
      then (Some ErrRcInvalidCredential, [])
      else
        let data :=
          values_add "billing-contact-id" billContactID
            (values_add "tech-contact-id" techContactID
              (values_add "admin-contact-id" adminContactID
                (values_add "reg-contact-id" regContactID
                  (values_add "customer-id" customerID [])))) in
        let r := mkRequest MethodPost "contacts" "modDefault" (add_types types data) in
        match call_body r with
        | Err e => (Some e, [r])
        | Ok _ => (None, [r])
        end
  end.

(** [func (c *contact) Default(ctx, customerID string, types []Type) (map[string]Detail, error)]. *)
Definition contact_Default (customerID : string) (types : list string)
  : result (list (string * record)) * list request :=
  match types with
  | [] => (Err (ErrNew "contact types must not empty"), [])
  | _ =>
      if negb (rgx_number customerID) then (Err ErrRcInvalidCredential, [])
      else
        let r := mkRequest MethodPost "contacts" "default"
                   (add_types types (values_add "customer-id" customerID [])) in
        match call r with
        | Err e => (Err e, [r])
        | Ok (status, body) => (contact_Default_response decode_other iter status body, [r])
        end
  end.

(** The contact [Search] from its [data.Add] calls on: [strconv.FormatUint]
    is [itoa] on these naturals. *)
Definition contact_search_call (data : values) (offset limit : nat)
  : result SearchResult * list request :=
  let data := values_add "page-no" (itoa offset)
                (values_add "no-of-records" (itoa limit) data) in
  let r := mkRequest MethodGet "contacts" "search" data in
  match call r with
  | Err e => (Err e, [r])
  | Ok (status, body) =>
      (contact_Search_response decode_other iter (Z.of_nat limit) (Z.of_nat offset)
         status body, [r])
  end.

(** [func (c *contact) Search(ctx, criteria Criteria, offset, limit uint16) (ptr-to-SearchResult, error)]. *)
Inductive contact_Search (criteria : record) (offset limit : nat)
  : outcome (result SearchResult * list request) -> Prop :=
| search_bounds :
    offset = 0 \/ limit = 0 ->
    contact_Search criteria offset limit
      (Returned (Err (ErrNew "offset or limit must greater than zero"), []))
| search_invalid (e : error) :
    offset <> 0 -> limit <> 0 -> validate criteria = Some e ->
    contact_Search criteria offset limit (Returned (Err e, []))
| search_panic :
    offset <> 0 -> limit <> 0 -> validate criteria = None ->
    contact_Criteria_URLValues validate criteria Panicked ->
    contact_Search criteria offset limit Panicked
| search_encode_error (odata : option values) (e : error) :
    offset <> 0 -> limit <> 0 -> validate criteria = None ->
    contact_Criteria_URLValues validate criteria (Returned (odata, Some e)) ->
    contact_Search criteria offset limit (Returned (Err e, []))
| search_run (data : values) :
    offset <> 0 -> limit <> 0 -> validate criteria = None ->
    contact_Criteria_URLValues validate criteria (Returned (Some data, None)) ->
    contact_Search criteria offset limit (Returned (contact_search_call data offset limit)).

(** [func (c *contact) AddExtraDetails(ctx, contactID string, attributes
    core.EntityAttributes, domainKeys []core.DomainKey) error]: [None] is
    a nil [attributes]; the ["product-key"] goroutines take the mutex in
    some order [ord] of the keys. *)
Inductive contact_AddExtraDetails (contactID : string)
    (attributes : option (list (string * string))) (domainKeys : list string)
  : option error -> list request -> Prop :=
| extra_invalid :
    rgx_number contactID = false ->
    contact_AddExtraDetails contactID attributes domainKeys (Some ErrRcInvalidCredential) []
| extra_empty :
    rgx_number contactID = true -> (attributes = None \/ domainKeys = []) ->
    contact_AddExtraDetails contactID attributes domainKeys
      (Some (ErrNew "attributes and domain keys cannot be nil or empty")) []
| extra_run (attrs : list (string * string)) (data : values) (ord : list string) :
    rgx_number contactID = true -> attributes = Some attrs -> domainKeys <> [] ->
    entityAttributes_CopyTo attrs (Some (Some (values_add "contact-id" contactID [])))
      (Returned (Some (Some data))) ->
    Permutation ord domainKeys ->
    contact_AddExtraDetails contactID attributes domainKeys
      (call_bool (mkRequest MethodPost "contacts" "set-details"
                    (fold_left (fun acc k => values_add "product-key" k acc) ord data)))
      [mkRequest MethodPost "contacts" "set-details"
         (fold_left (fun acc k => values_add "product-key" k acc) ord data)].

(** [func (c *contact) ValidateRegistrant(ctx, contactID string, eligibilities []Eligibility)
    (RegistrantValidation, error)] up to its call: the early error, or
    the request it sends (the ["eligibility-criteria"] goroutines take
    the mutex in some order [ord]). *)
Inductive contact_ValidateRegistrant_request (contactID : string) (eligibilities : list string)
  : result request -> Prop :=
| registrant_invalid :
    rgx_number contactID = false ->
    contact_ValidateRegistrant_request contactID eligibilities (Err ErrRcInvalidCredential)
| registrant_empty :
    rgx_number contactID = true -> eligibilities = [] ->
    contact_ValidateRegistrant_request contactID eligibilities
      (Err (ErrNew "eligibilities must not empty"))
| registrant_run (ord : list string) :
    rgx_number contactID = true -> eligibilities <> [] -> Permutation ord eligibilities ->
    contact_ValidateRegistrant_request contactID eligibilities
      (Ok (mkRequest MethodGet "contacts" "validate-registrant"
             (fold_left (fun acc e => values_add "eligibility-criteria" e acc) ord
                (values_add "contact-id" contactID [])))).

(** The end of the contact [Add]: on 200 [details.ID] is the raw body. *)
Definition contact_add_finish (details : record) (r : request) : option error * record :=
  match call_body r with
  | Err e => (Some e, details)
  | Ok body => (None, set_field "ID" (VString body) details)
  end.

(** [func (c *contact) Add(ctx, details *Detail, attributes core.EntityAttributes) error]:
    [None] is a nil pointer or interface; the [Detail] after the call is
    returned with the error and the requests. *)
Inductive contact_Add (details : option record) (attributes : option (list (string * string)))
  : option error -> option record -> list request -> Prop :=
| add_nil :
    details = None -> contact_Add details attributes (Some (ErrNew "detail must not nil")) None []
| add_invalid (d : record) (e : error) (odata : option values) :
    details = Some d -> contact_Detail_URLValues validate d = (odata, Some e) ->
    contact_Add details attributes (Some e) (Some d) []
| add_run (d : record) (data data' : values) :
    details = Some d -> contact_Detail_URLValues validate d = (Some data, None) ->
    match attributes with
    | None => data' = data
    | Some attrs => entityAttributes_CopyTo attrs (Some (Some data)) (Returned (Some (Some data')))
    end ->
    contact_Add details attributes
      (fst (contact_add_finish d (mkRequest MethodPost "contacts" "add" data')))
      (Some (snd (contact_add_finish d (mkRequest MethodPost "contacts" "add" data'))))
      [mkRequest MethodPost "contacts" "add" data'].

End Calls.

(** * Properties *)

(** ** The parameter encoder of [contact.Detail] *)

(** Every tagged, non-optional query field of [contact.Detail] has a
    [validate] tag whose first rule is [required]. *)
Definition validate_starts_required (f : field) : bool :=
  negb (untagged (f_validate f)) &&
  match split_on "," (f_validate f) with
  | r :: _ => String.eqb (rule_name r) "required"
  | [] => false
  end.

Lemma contact_Detail_required_tags :
  forallb (fun f => untagged (f_query f) || has_suffix (f_query f) ",optional"
                    || validate_starts_required f) contact_Detail_fields = true.
Proof. vm_compute; reflexivity. Qed.

Lemma field_reports_required rule_ok sn f v :
  validate_starts_required f = true -> is_zero v = true ->
  field_reports rule_ok sn (f, v) = [field_report sn f "required"].
Proof.
  unfold validate_starts_required, field_reports; intros H Hz.
  apply andb_true_iff in H as [Hu H]; apply negb_true_iff in Hu; rewrite Hu.
  destruct (split_on "," (f_validate f)) as [| r rs]; [discriminate|].
  apply String.eqb_eq in H; cbn [field_check]; rewrite H; unfold has_value; rewrite Hz.
  reflexivity.
Qed.

(** C1: for every [contact.Detail] in which a tagged, non-optional field
    of string kind is empty, the contact [Detail.URLValues] returns no
    parameter set and the validator's error, one of whose lines reports
    that field on the [required] rule. This holds whatever the checks of
    the other rules, because each such field of [contact.Detail] is
    tagged [required] first. *)
Theorem contact_Detail_URLValues_missing_field rule_ok c f v :
  of_struct contact_Detail_fields c -> In (f, v) c -> required_zero (f, v) = true ->
  exists reports,
    contact_Detail_URLValues (validator_Struct rule_ok "Detail") c
      = (None, Some (ErrValidation (String.concat newline reports))) /\
    In (field_report "Detail" f "required") reports.
Proof.
  intros Hc Hin Hz.
  assert (Hf : In f contact_Detail_fields)
    by (unfold of_struct in Hc; rewrite <- Hc; exact (in_map fst c (f, v) Hin)).
  pose proof contact_Detail_required_tags as Hall.
  rewrite forallb_forall in Hall; specialize (Hall f Hf).
  unfold required_zero in Hz.
  apply andb_true_iff in Hz as [Hz Hopt]; apply andb_true_iff in Hz as [Hz Hzero];
    apply andb_true_iff in Hz as [Ht _].
  apply negb_true_iff in Ht, Hopt; rewrite Ht, Hopt in Hall; cbn [orb] in Hall.
  assert (Hr : In (field_report "Detail" f "required")
                 (flat_map (field_reports rule_ok "Detail") c)).
  { apply in_flat_map; exists (f, v); split; [exact Hin|].
    rewrite (field_reports_required rule_ok "Detail" f v Hall Hzero); left; reflexivity. }
  unfold contact_Detail_URLValues, validator_Struct.
  destruct (flat_map (field_reports rule_ok "Detail") c) as [| l0 l] eqn:E;
    [contradiction|].
  exists (l0 :: l); split; [reflexivity | exact Hr].
Qed.

Lemma contact_Detail_URLValues_missing_field_witness :
  exists reports,
    contact_Detail_URLValues (validator_Struct go_rule_ok "Detail") contact_Detail_zero
      = (None, Some (ErrValidation (String.concat newline reports))) /\
    In (field_report "Detail" (mkField "Type" "type,omitempty" "type" "required") "required")
       reports.
Proof.
  apply (contact_Detail_URLValues_missing_field go_rule_ok contact_Detail_zero
           (mkField "Type" "type,omitempty" "type" "required") (VString EmptyString)).
  - reflexivity.
  - right; left; reflexivity.
  - reflexivity.
Defined.

(** ** Encoding an all-zero record of optional fields *)

Lemma attr_goroutines_nil i : attr_goroutines i [] = [].
Proof. reflexivity. Qed.

Lemma entityAttributes_URLValues_empty ret :
  entityAttributes_URLValues [] ret -> ret = [].
Proof.
  intros [ord sched Hord Hsched].
  apply Permutation_sym, Permutation_nil in Hord; subst ord.
  rewrite attr_goroutines_nil in Hsched.
  apply Permutation_sym, Permutation_nil in Hsched; subst sched; reflexivity.
Qed.

(** A field the [Criteria] encoder sends even when it is zero. *)
Definition tagged_required (f : field) : bool :=
  negb (untagged (f_query f) || has_suffix (f_query f) ",optional").

Lemma of_struct_in fs (c : record) f : of_struct fs c -> In f fs -> exists v, In (f, v) c.
Proof.
  unfold of_struct; intros <- Hf; apply in_map_iff in Hf as [[f' v] [Hf Hin]].
  cbn in Hf; subst f'; exists v; exact Hin.
Qed.

(** C9: of the encoders the claim names, only the attribute encoder
    takes values whose tagged fields are all optional: an attribute map
    has no tagged field, its all-zero value is the empty map, and
    [entityAttributes.URLValues] encodes it as the empty set. Every
    [contact.Criteria] has the tagged field [CustomerID] without the
    [",optional"] marker, so no record [Criteria.URLValues] takes meets
    the premise. *)
Theorem all_optional_zero_encodes_empty :
  entityAttributes_URLValues [] [] /\
  (forall ret, entityAttributes_URLValues [] ret -> ret = []) /\
  (forall c, of_struct contact_Criteria_fields c ->
     exists f v, In (f, v) c /\ tagged_required f = true /\ f_name f = "CustomerID").
Proof.
  split; [| split; [exact entityAttributes_URLValues_empty |]].
  - exact (attr_run [] [] [] (Permutation_refl _) (Permutation_refl _)).
  - intros c Hc.
    destruct (of_struct_in _ c (mkField "CustomerID" EmptyString "customer-id" "required,number")
                Hc (or_introl eq_refl)) as [v Hv].
    exists (mkField "CustomerID" EmptyString "customer-id" "required,number"), v.
    split; [exact Hv | split; reflexivity].
Qed.

(** ** The attribute list encoder *)

Lemma values_lookup_add K k v vs :
  values_lookup K (values_add k v vs) =
  if String.eqb k K
  then Some ((match values_lookup K vs with Some l => l | None => [] end) ++ [v])%list
  else values_lookup K vs.
Proof.
  induction vs as [| [k' l] vs IH]; cbn [values_add values_lookup].
  - rewrite String.eqb_sym; destruct (String.eqb k K); reflexivity.
  - destruct (String.eqb_spec k k') as [->|Hk];
      destruct (String.eqb_spec K k') as [->|HK]; cbn [values_lookup].
    + rewrite String.eqb_refl; reflexivity.
    + rewrite (proj2 (String.eqb_neq k' K)) by congruence.
      apply (proj2 (String.eqb_neq K k')) in HK; rewrite HK; reflexivity.
    + rewrite String.eqb_refl, (proj2 (String.eqb_neq k k')) by congruence; reflexivity.
    + apply (proj2 (String.eqb_neq K k')) in HK; rewrite HK; exact IH.
Qed.

(** The values a list of [Add] calls puts under the key [K], in order. *)
Definition vals_for (K : string) (ops : list (string * string)) : list string :=
  map snd (filter (fun kv => String.eqb (fst kv) K) ops).

Lemma values_lookup_adds K ops :
  values_lookup K (fold_left add_op ops []) =
  match vals_for K ops with [] => None | l => Some l end.
Proof.
  induction ops as [| op ops IH] using rev_ind; [reflexivity|].
  rewrite fold_left_app; cbn [fold_left]; unfold add_op at 1.
  rewrite values_lookup_add, IH; unfold vals_for; rewrite filter_app, map_app.
  cbn [filter]; destruct (String.eqb (fst op) K); cbn [map].
  - destruct (map snd (filter (fun kv => String.eqb (fst kv) K) ops)) as [| a l];
      reflexivity.
  - rewrite app_nil_r; reflexivity.
Qed.

(** The two [Add] calls of each goroutine. *)
Definition attr_ops (g : nat * (string * string)) : list (string * string) :=
  let '(i, (k, v)) := g in [(attr_name_key i, k); (attr_value_key i, v)].

Lemma attr_goroutines_ops sched acc :
  fold_left attr_goroutine sched acc = fold_left add_op (flat_map attr_ops sched) acc.
Proof.
  revert acc; induction sched as [| [i [k v]] sched IH]; intros acc; [reflexivity|].
  cbn [fold_left flat_map]; rewrite IH; reflexivity.
Qed.

Lemma Permutation_filter_bool {A} (p : A -> bool) l l' :
  Permutation l l' -> Permutation (filter p l) (filter p l').
Proof.
  induction 1; cbn [filter].
  - constructor.
  - destruct (p x); auto.
  - destruct (p x), (p y); auto using perm_swap, Permutation_refl.
  - eauto using Permutation_trans.
Qed.

Lemma string_app_inv_l p x y : p ++ x = p ++ y -> x = y.
Proof. induction p as [| a p IH]; cbn; [auto | intros H; injection H; auto]. Qed.

Lemma itoa_inj a b : itoa a = itoa b -> a = b.
Proof.
  unfold itoa; intros H.
  assert (Hu : Nat.to_uint a = Nat.to_uint b).
  { pose proof (NilEmpty.usu (Nat.to_uint a)) as Ha.
    pose proof (NilEmpty.usu (Nat.to_uint b)) as Hb.
    rewrite H in Ha; congruence. }
  rewrite <- (DecimalNat.Unsigned.of_to a), <- (DecimalNat.Unsigned.of_to b), Hu.
  reflexivity.
Qed.

Lemma attr_name_key_eqb a b : String.eqb (attr_name_key a) (attr_name_key b) = Nat.eqb a b.
Proof.
  destruct (String.eqb_spec (attr_name_key a) (attr_name_key b)) as [H|H];
    destruct (Nat.eqb_spec a b) as [->|Hn]; auto.
  all: exfalso; first [apply H; reflexivity
                      | apply Hn, itoa_inj, (string_app_inv_l "attr-name"), H].
Qed.

Lemma attr_value_key_eqb a b : String.eqb (attr_value_key a) (attr_value_key b) = Nat.eqb a b.
Proof.
  destruct (String.eqb_spec (attr_value_key a) (attr_value_key b)) as [H|H];
    destruct (Nat.eqb_spec a b) as [->|Hn]; auto.
  all: exfalso; first [apply H; reflexivity
                      | apply Hn, itoa_inj, (string_app_inv_l "attr-value"), H].
Qed.

Lemma attr_value_name_eqb a b : String.eqb (attr_value_key a) (attr_name_key b) = false.
Proof. apply String.eqb_neq; unfold attr_value_key, attr_name_key; cbn; discriminate. Qed.

Lemma attr_name_value_eqb a b : String.eqb (attr_name_key a) (attr_value_key b) = false.
Proof. apply String.eqb_neq; unfold attr_value_key, attr_name_key; cbn; discriminate. Qed.

Lemma vals_for_app K l1 l2 : vals_for K (l1 ++ l2) = (vals_for K l1 ++ vals_for K l2)%list.
Proof. unfold vals_for; rewrite filter_app, map_app; reflexivity. Qed.

Lemma vals_for_goroutines_cons K j kv ord :
  vals_for K (flat_map attr_ops (attr_goroutines j (kv :: ord))) =
  (vals_for K (attr_ops (j, kv)) ++ vals_for K (flat_map attr_ops (attr_goroutines (S j) ord)))%list.
Proof. cbn [attr_goroutines flat_map]; apply vals_for_app. Qed.

Lemma vals_for_goroutines_before j i ord :
  i < j ->
  vals_for (attr_name_key i) (flat_map attr_ops (attr_goroutines j ord)) = [] /\
  vals_for (attr_value_key i) (flat_map attr_ops (attr_goroutines j ord)) = [].
Proof.
  revert j; induction ord as [| [k v] ord IH]; intros j Hij; [split; reflexivity|].
  rewrite !vals_for_goroutines_cons.
  destruct (IH (S j) ltac:(lia)) as [-> ->].
  unfold vals_for, attr_ops; cbn [filter fst].
  rewrite attr_name_key_eqb, attr_value_name_eqb, attr_name_value_eqb, attr_value_key_eqb.
  replace (Nat.eqb j i) with false by (symmetry; apply Nat.eqb_neq; lia).
  split; reflexivity.
Qed.

Lemma vals_for_goroutines_at j i ord k v :
  j <= i -> nth_error ord (i - j) = Some (k, v) ->
  vals_for (attr_name_key i) (flat_map attr_ops (attr_goroutines j ord)) = [k] /\
  vals_for (attr_value_key i) (flat_map attr_ops (attr_goroutines j ord)) = [v].
Proof.
  revert j; induction ord as [| [k' v'] ord IH]; intros j Hij Hnth.
  - destruct (i - j); discriminate.
  - rewrite !vals_for_goroutines_cons.
    unfold attr_ops at 1 3; unfold vals_for at 1 3; cbn [filter fst].
    rewrite attr_name_key_eqb, attr_value_name_eqb, attr_name_value_eqb, attr_value_key_eqb.
    destruct (Nat.eqb_spec j i) as [<-|Hne].
    + rewrite Nat.sub_diag in Hnth; cbn in Hnth; injection Hnth as -> ->.
      destruct (vals_for_goroutines_before (S j) j ord ltac:(lia)) as [-> ->].
      split; reflexivity.
    + replace (i - j) with (S (i - S j)) in Hnth by lia; cbn in Hnth.
      destruct (IH (S j) ltac:(lia) Hnth) as [-> ->]; split; reflexivity.
Qed.

Lemma Permutation_singleton_eq {A} (a : A) l : Permutation l [a] -> l = [a].
Proof. intros H; apply Permutation_length_1_inv, Permutation_sym, H. Qed.

(** The goroutine started with index [i] for the [i]-th entry of the
    visiting order is the only one that adds under [attr-name{i}] and
    [attr-value{i}], whatever the mutex order. *)
Lemma attr_ret_at ord sched i k v :
  Permutation sched (attr_goroutines 1 ord) -> 1 <= i ->
  nth_error ord (i - 1) = Some (k, v) ->
  values_lookup (attr_name_key i) (fold_left attr_goroutine sched []) = Some [k] /\
  values_lookup (attr_value_key i) (fold_left attr_goroutine sched []) = Some [v].
Proof.
  intros Hsched Hi Hnth.
  destruct (vals_for_goroutines_at 1 i ord k v ltac:(lia) Hnth) as [Hn Hv].
  rewrite attr_goroutines_ops, !values_lookup_adds.
  assert (Hp : forall K, Permutation (vals_for K (flat_map attr_ops sched))
                                     (vals_for K (flat_map attr_ops (attr_goroutines 1 ord)))).
  { intros K; unfold vals_for; apply Permutation_map, Permutation_filter_bool,
      Permutation_flat_map, Hsched. }
  pose proof (Hp (attr_name_key i)) as Hpn; rewrite Hn in Hpn.
  pose proof (Hp (attr_value_key i)) as Hpv; rewrite Hv in Hpv.
  rewrite (Permutation_singleton_eq _ _ Hpn), (Permutation_singleton_eq _ _ Hpv).
  split; reflexivity.
Qed.

(** Claim C6: whatever order the map is visited in and the goroutines run
    in, for every index [i] from 1 to the number of entries, the parameter
    set holds exactly one value under [attr-name{i}] and one under
    [attr-value{i}], and they are the key and the value of one entry of
    the map; and every entry of the map is sent that way, under some
    index from 1 to the number of entries. *)
Theorem entityAttributes_URLValues_pairing data ret :
  entityAttributes_URLValues data ret ->
  (forall i, 1 <= i <= length data ->
   exists k v,
     In (k, v) data /\
     values_lookup (attr_name_key i) ret = Some [k] /\
     values_lookup (attr_value_key i) ret = Some [v]) /\
  (forall k v, In (k, v) data ->
   exists i,
     1 <= i <= length data /\
     values_lookup (attr_name_key i) ret = Some [k] /\
     values_lookup (attr_value_key i) ret = Some [v]).
Proof.
  intros [ord sched Hord Hsched]; split.
  - intros i Hi.
    rewrite <- (Permutation_length Hord) in Hi.
    destruct (nth_error ord (i - 1)) as [[k v]|] eqn:Hnth.
    2: { apply nth_error_None in Hnth; lia. }
    exists k, v; split.
    { apply (Permutation_in _ Hord), (nth_error_In _ _ Hnth). }
    apply (attr_ret_at ord sched i k v Hsched ltac:(lia) Hnth).
  - intros k v Hin.
    apply (Permutation_in _ (Permutation_sym Hord)), In_nth_error in Hin as [j Hj].
    exists (S j); split.
    + split; [lia|]. rewrite <- (Permutation_length Hord).
      apply nth_error_Some; congruence.
    + apply (attr_ret_at ord sched (S j) k v Hsched ltac:(lia)).
      replace (S j - 1) with j by lia; exact Hj.
Qed.

Definition attr_example : list (string * string) := [("a", "1"); ("b", "2")].

(** The goroutines of the map [{"a":"1","b":"2"}] taking the mutex in the
    reverse of their start order. *)
Definition attr_example_ret : values :=
  fold_left attr_goroutine (rev (attr_goroutines 1 attr_example)) [].

Lemma entityAttributes_URLValues_pairing_witness :
  entityAttributes_URLValues attr_example attr_example_ret /\
  (forall i, 1 <= i <= length attr_example ->
   exists k v,
     In (k, v) attr_example /\
     values_lookup (attr_name_key i) attr_example_ret = Some [k] /\
     values_lookup (attr_value_key i) attr_example_ret = Some [v]) /\
  (forall k v, In (k, v) attr_example ->
   exists i,
     1 <= i <= length attr_example /\
     values_lookup (attr_name_key i) attr_example_ret = Some [k] /\
     values_lookup (attr_value_key i) attr_example_ret = Some [v]).
Proof.
  assert (Hrun : entityAttributes_URLValues attr_example attr_example_ret).
  { exact (attr_run attr_example attr_example (rev (attr_goroutines 1 attr_example))
             (Permutation_refl _) (Permutation_sym (Permutation_rev _))). }
  split; [exact Hrun|].
  exact (entityAttributes_URLValues_pairing attr_example attr_example_ret Hrun).
Defined.

(** ** Merge-previous of [customer.Detail] *)

(** What the merge may do to one field: keep it, or, for an empty tagged
    string field, take the previous record's string. *)
Definition merge_frame (f : field) (v v' : value) (prev : record) (i : nat) : Prop :=
  (is_zero v = false -> v' = v) /\
  (untagged (f_query f) = true -> v' = v) /\
  (is_string_kind v = false -> v' = v) /\
  (v' = v \/ exists g pv, nth_error prev i = Some (g, pv) /\ v' = pv /\ is_string_kind pv = true).

Lemma merge_walk_length c prev : length (merge_walk c prev) = length c.
Proof.
  revert prev; induction c as [| [f v] c IH]; intros [| [g pv] prev]; cbn; auto.
Qed.

Lemma merge_walk_frame c prev i f v :
  nth_error c i = Some (f, v) ->
  exists v', nth_error (merge_walk c prev) i = Some (f, v') /\ merge_frame f v v' prev i.
Proof.
  unfold merge_frame.
  revert prev i; induction c as [| [f0 v0] c IH]; intros prev i Hi;
    [destruct i; discriminate|].
  destruct prev as [| [g pv] prev].
  - exists v; split; [exact Hi|]; repeat split; auto.
  - destruct i as [| i]; cbn in Hi |- *.
    + injection Hi as <- <-.
      destruct (untagged (f_query f0)) eqn:Eu.
      { exists v0; repeat split; auto. }
      destruct (is_zero v0) eqn:Ez.
      2: { exists v0; repeat split; auto. }
      destruct (has_suffix (f_query f0) "omitempty").
      { exists v0; repeat split; auto. }
      destruct v0 as [s | b | o | o]; cbn in Ez |- *;
        try (eexists; split; [reflexivity|]; repeat split; auto; discriminate).
      destruct pv as [ps | | |];
        try (eexists; split; [reflexivity|]; repeat split; auto; discriminate).
      exists (VString ps); split; [reflexivity|].
      repeat split; try discriminate.
      right; exists g, (VString ps); auto.
    + exact (IH prev i Hi).
Qed.

(** Claim C4: the merge of [prev] into [c] changes no field of [c] that is
    non-zero, untagged (query tag empty or ["-"]) or not of string kind;
    a field it changes takes the string of the same field of [prev]. *)
Theorem customer_mergePrevious_frame validate c prev i f v :
  nth_error c i = Some (f, v) ->
  let c' := fst (customer_mergePrevious validate c prev) in
  length c' = length c /\
  exists v', nth_error c' i = Some (f, v') /\ merge_frame f v v' prev i.
Proof.
  intros Hi; cbn zeta; unfold customer_mergePrevious.
  destruct (validate c); cbn [fst].
  - split; [reflexivity|]; exists v; split; [exact Hi|].
    unfold merge_frame; repeat split; auto.
  - split; [apply merge_walk_length | apply merge_walk_frame, Hi].
Qed.

(** A [customer.Detail] whose tagged fields all hold ["x"]. *)
Definition customer_Detail_filled : record :=
  map (fun fv => if untagged (f_query (fst fv)) then fv else (fst fv, VString "x"))
      customer_Detail_zero.

(** A modification that only sets the name. *)
Definition customer_modification : record :=
  update_nth 4 (nth 4 customer_Detail_fields (mkField EmptyString EmptyString EmptyString EmptyString),
                VString "New Name") customer_Detail_zero.

Lemma customer_mergePrevious_frame_witness :
  nth_error customer_modification 18 = Some (nth 18 customer_Detail_fields
                     (mkField EmptyString EmptyString EmptyString EmptyString), VString EmptyString) /\
  let c' := fst (customer_mergePrevious (validate_required "Detail")
                   customer_modification customer_Detail_filled) in
  length c' = length customer_modification /\
  exists v', nth_error c' 18 = Some (nth 18 customer_Detail_fields
                     (mkField EmptyString EmptyString EmptyString EmptyString), v') /\
    merge_frame (nth 18 customer_Detail_fields
                     (mkField EmptyString EmptyString EmptyString EmptyString))
      (VString EmptyString) v' customer_Detail_filled 18.
Proof.
  assert (H : nth_error customer_modification 18 = Some (nth 18 customer_Detail_fields
                     (mkField EmptyString EmptyString EmptyString EmptyString), VString EmptyString))
    by (vm_compute; reflexivity).
  split; [exact H|].
  exact (customer_mergePrevious_frame (validate_required "Detail") customer_modification
           customer_Detail_filled 18 _ _ H).
Defined.

Lemma merge_walk_all_set c prev :
  forallb (fun fv => untagged (f_query (fst fv)) || negb (is_zero (snd fv))) c = true ->
  merge_walk c prev = c.
Proof.
  revert prev; induction c as [| [f v] c IH]; intros prev H; [destruct prev; reflexivity|].
  cbn [forallb fst snd] in H; apply andb_true_iff in H as [H1 H2].
  destruct prev as [| [g pv] prev]; [reflexivity|].
  cbn [merge_walk]; rewrite (IH prev H2).
  destruct (untagged (f_query f)); [reflexivity|].
  cbn [orb] in H1; apply negb_true_iff in H1; rewrite H1; reflexivity.
Qed.

(** Claim C5: a modification that passes the validator and has every
    tagged field set to a non-zero value is returned unchanged by the
    merge, with no error, whatever the previous record. *)
Theorem customer_mergePrevious_all_set validate c prev :
  validate c = None ->
  forallb (fun fv => untagged (f_query (fst fv)) || negb (is_zero (snd fv))) c = true ->
  customer_mergePrevious validate c prev = (c, None).
Proof.
  intros Hv Hset; unfold customer_mergePrevious; rewrite Hv, (merge_walk_all_set c prev Hset).
  reflexivity.
Qed.

Lemma customer_mergePrevious_all_set_witness :
  validate_required "Detail" customer_Detail_filled = None /\
  forallb (fun fv => untagged (f_query (fst fv)) || negb (is_zero (snd fv)))
    customer_Detail_filled = true /\
  customer_mergePrevious (validate_required "Detail") customer_Detail_filled customer_modification
    = (customer_Detail_filled, None).
Proof.
  split; [vm_compute; reflexivity|]; split; [vm_compute; reflexivity|].
  apply customer_mergePrevious_all_set; vm_compute; reflexivity.
Defined.

(** ** The customer [Modify] *)

(** One of the three steps before the API call fails: fetching the
    current record, merging it into the modification, or encoding the
    merged modification. *)
Definition modify_preparation_fails (validate : record -> option error)
    (details : result record) (modification : record) : Prop :=
  match details with
  | Err _ => True
  | Ok before =>
      let (merged, merr) := customer_mergePrevious validate modification before in
      merr <> None \/ snd (customer_Detail_URLValues validate merged) <> None
  end.

(** Claim C10: when fetching the previous record, merging it or encoding
    the modification fails, [Modify] returns a nil error and sends no
    modify request. *)
Theorem customer_Modify_swallows_errors validate decode_other details modification call :
  modify_preparation_fails validate details modification ->
  customer_Modify validate decode_other details modification call = (None, []).
Proof.
  unfold modify_preparation_fails, customer_Modify.
  destruct details as [before | e]; [|reflexivity].
  destruct (customer_mergePrevious validate modification before) as [merged merr].
  intros [Hm | Hu]; destruct merr as [me|]; try reflexivity.
  - congruence.
  - destruct (customer_Detail_URLValues validate merged) as [data [ue|]]; cbn in Hu;
      [reflexivity | congruence].
Qed.

(** A modification whose [Username] is not an e-mail address is rejected
    by the validator; the API would have answered with success. *)
Definition customer_bad_username : record :=
  set_field "Username" (VString "not-an-email") customer_Detail_zero.

Lemma customer_Modify_swallows_errors_witness :
  modify_preparation_fails (validator_Struct go_rule_ok "Detail") (Ok customer_Detail_zero)
    customer_bad_username /\
  customer_Modify (validator_Struct go_rule_ok "Detail") (fun _ _ => Ok (VOther 0))
    (Ok customer_Detail_zero) customer_bad_username (fun _ => Ok (200%Z, "true"))
  = (None, []).
Proof.
  assert (H : modify_preparation_fails (validator_Struct go_rule_ok "Detail")
                (Ok customer_Detail_zero) customer_bad_username).
  { vm_compute; left; discriminate. }
  split; [exact H|].
  exact (customer_Modify_swallows_errors _ _ _ _ _ H).
Defined.

(** ** The search decoders *)

Fixpoint assoc {A} (k : string) (l : list (string * A)) : option A :=
  match l with
  | [] => None
  | (k', a) :: l' => if String.eqb k' k then Some a else assoc k l'
  end.

Lemma map_insert_keys {A} k (a : A) m x :
  In x (map fst (map_insert k a m)) -> x = k \/ In x (map fst m).
Proof.
  induction m as [| [k' a'] m IH]; cbn.
  - intros [H|[]]; auto.
  - destruct (String.eqb k k') eqn:E; cbn.
    + apply String.eqb_eq in E; subst; intros [H|H]; auto.
    + intros [H|H]; auto; destruct (IH H); auto.
Qed.

Lemma map_insert_nodup {A} k (a : A) m :
  NoDup (map fst m) -> NoDup (map fst (map_insert k a m)).
Proof.
  induction m as [| [k' a'] m IH]; cbn; intros H.
  - constructor; [intros []| constructor].
  - inversion H as [| x l Hn Hd]; subst.
    destruct (String.eqb_spec k k') as [->|Hk]; cbn; [constructor; auto|].
    constructor; auto.
    intros Hin; destruct (map_insert_keys k a m k' Hin); auto.
Qed.

Lemma go_map_of_nodup {A} (l : list (string * A)) : NoDup (map fst (go_map_of l)).
Proof.
  unfold go_map_of.
  assert (Hgen : forall m, NoDup (map fst m) ->
            NoDup (map fst (fold_left (fun m '(k, a) => map_insert k a m) l m))).
  { induction l as [| [k a] l IH]; intros m Hm; cbn; auto.
    apply IH, map_insert_nodup, Hm. }
  apply Hgen; constructor.
Qed.

Lemma unmarshal_raw_map_nodup s m : unmarshal_raw_map s = Ok m -> NoDup (map fst m).
Proof.
  unfold unmarshal_raw_map.
  destruct (json_parse s) as [j|e]; [|discriminate].
  destruct j as [| | | | | ms]; try discriminate.
  - intros H; injection H as <-; constructor.
  - destruct ms as [| m0 ms].
    + intros H; injection H as <-; constructor.
    + destruct (skip_ws s) as [| c s'] ; [discriminate|].
      destruct (Ascii.eqb c "{") eqn:Ec.
      * apply Ascii.eqb_eq in Ec; subst c.
        destruct (raw_members _ s'); [|discriminate].
        intros H; injection H as <-; apply go_map_of_nodup.
      * destruct c as [b0 b1 b2 b3 b4 b5 b6 b7];
          destruct b0, b1, b2, b3, b4, b5, b6, b7; try discriminate;
          cbn in Ec; discriminate.
Qed.

Lemma assoc_perm {A} k (l l' : list (string * A)) :
  NoDup (map fst l) -> Permutation l l' -> assoc k l = assoc k l'.
Proof.
  intros Hd Hp; induction Hp as [| [k0 a] l l' Hp IH | [k1 a1] [k2 a2] l | l l' l'' Hp1 IH1 Hp2 IH2];
    cbn in *.
  - reflexivity.
  - inversion Hd; subst; rewrite IH; auto.
  - inversion Hd as [| x y Hn1 Hd1]; subst; inversion Hd1 as [| x' y' Hn2 Hd2]; subst.
    destruct (String.eqb_spec k2 k), (String.eqb_spec k1 k); subst; auto.
    exfalso; apply Hn1; left; reflexivity.
  - rewrite IH1 by exact Hd; apply IH2.
    apply (Permutation_NoDup (Permutation_map fst Hp1)), Hd.
Qed.

Lemma assoc_notin {A} k (l : list (string * A)) : ~ In k (map fst l) -> assoc k l = None.
Proof.
  induction l as [| [k' a] l IH]; cbn; intros H; auto.
  destruct (String.eqb_spec k' k); [exfalso; auto|]; auto.
Qed.

(** The decoders' example instance of the core types' own decoders:
    [null] gives the zero value, anything else a non-zero one. *)
Definition example_decoder (f : field) (j : json) : result value :=
  match j with JNull => Ok (VOther 0) | _ => Ok (VOther 1) end.

(** The count of matches the [recsindb] loops keep. *)
Definition atoi_or_zero (raw : string) : Z :=
  match atoi raw with Ok n => n | Err _ => 0%Z end.

Lemma contact_search_loop_spec dec entries bufs num :
  NoDup (map fst entries) ->
  contact_search_loop dec entries bufs num =
  match (match assoc "result" entries with
         | Some raw => j <- json_parse raw ;; unmarshal_slice dec contact_Detail_zero j
         | None => Ok bufs
         end) with
  | Err e => Err e
  | Ok l => Ok (l, match assoc "recsindb" entries with
                   | Some raw => atoi_or_zero raw
                   | None => num
                   end)
  end.
Proof.
  revert bufs num; induction entries as [| [k raw] es IH]; intros bufs num Hd;
    cbn [contact_search_loop assoc]; auto.
  inversion Hd as [| x y Hn Hd']; subst.
  destruct (String.eqb k "recsindb") eqn:E1.
  - apply String.eqb_eq in E1; subst k.
    rewrite IH by exact Hd'.
    rewrite (assoc_notin "recsindb" es Hn); reflexivity.
  - destruct (String.eqb k "result") eqn:E2.
    + apply String.eqb_eq in E2; subst k.
      destruct (j <- json_parse raw ;; unmarshal_slice dec contact_Detail_zero j) as [l|e];
        [|reflexivity].
      rewrite IH by exact Hd'.
      rewrite (assoc_notin "result" es Hn); reflexivity.
    + apply IH, Hd'.
Qed.

Lemma customer_search_loop_spec dec entries :
  NoDup (map fst entries) ->
  (forall d k raw, In (k, raw) entries -> rgx_number k = true ->
     exists d', unmarshal_text dec d raw = Ok d') ->
  forall dataBuffer bufs num, exists bufs',
    customer_search_loop dec entries dataBuffer bufs num =
    Ok (bufs', match assoc "recsindb" entries with
               | Some raw => atoi_or_zero raw
               | None => num
               end).
Proof.
  induction entries as [| [k raw] es IH]; intros Hd Hdec dataBuffer bufs num; cbn.
  - eauto.
  - inversion Hd as [| x y Hn Hd']; subst.
    assert (Hdec' : forall d k raw, In (k, raw) es -> rgx_number k = true ->
              exists d', unmarshal_text dec d raw = Ok d')
      by (intros d k' raw' Hin; apply (Hdec d k' raw'); right; exact Hin).
    destruct (rgx_number k) eqn:Hr.
    + destruct (Hdec dataBuffer k raw (or_introl eq_refl) Hr) as [d' Hd''].
      rewrite Hd''.
      assert (Hk : String.eqb k "recsindb" = false).
      { destruct (String.eqb_spec k "recsindb") as [->|]; [discriminate | reflexivity]. }
      rewrite Hk; apply IH; assumption.
    + destruct (String.eqb_spec k "recsindb") as [->|Hk].
      * destruct (IH Hd' Hdec' dataBuffer bufs (atoi_or_zero raw)) as [bufs' H].
        exists bufs'; fold (atoi_or_zero raw); rewrite H, (assoc_notin "recsindb" es Hn); reflexivity.
      * apply IH; assumption.
Qed.

(** C3: for every status other than [StatusOK] each classified decoder
    (the contact [Search], [Details] and [Default], the customer [Search])
    returns an error and no payload, whatever the body: when the body
    decodes as the error envelope the error is [errors.New] of its
    message lower-cased; otherwise the envelope's decoding error itself. *)
Theorem decoders_error_envelope decode_other iter limit offset status body :
  status <> StatusOK ->
  (forall env, unmarshal_text decode_other JSONStatusResponse_zero body = Ok env ->
     let e := ErrNew (to_lower (field_string "Message" env)) in
     contact_Search_response decode_other iter limit offset status body = Err e /\
     customer_Search_response decode_other iter limit offset status body = Err e /\
     contact_Details_response decode_other status body = Err e /\
     contact_Default_response decode_other iter status body = Err e) /\
  (forall e, unmarshal_text decode_other JSONStatusResponse_zero body = Err e ->
     contact_Search_response decode_other iter limit offset status body = Err e /\
     customer_Search_response decode_other iter limit offset status body = Err e /\
     contact_Details_response decode_other status body = Err e /\
     contact_Default_response decode_other iter status body = Err e).
Proof.
  intros Hs.
  assert (Hneq : negb (Z.eqb status StatusOK) = true)
    by (apply negb_true_iff, Z.eqb_neq, Hs).
  unfold contact_Search_response, customer_Search_response,
    contact_Details_response, contact_Default_response, error_envelope.
  rewrite Hneq.
  split; [intros env H | intros e H]; rewrite H; repeat split.
Qed.

Lemma decoders_error_envelope_witness :
  (400 <> StatusOK)%Z /\
  unmarshal_text example_decoder JSONStatusResponse_zero
    (dq "{'status':'ERROR','message':'Invalid Customer-ID'}") =
    Ok [(mkField "Status" "status" EmptyString EmptyString, VString "ERROR");
        (mkField "Message" "message" EmptyString EmptyString, VString "Invalid Customer-ID")] /\
  customer_Search_response example_decoder (fun l => l) 10 0 400
    (dq "{'status':'ERROR','message':'Invalid Customer-ID'}") =
    Err (ErrNew "invalid customer-id").
Proof.
  assert (Hs : (400 <> StatusOK)%Z) by (unfold StatusOK; lia).
  assert (Henv : unmarshal_text example_decoder JSONStatusResponse_zero
    (dq "{'status':'ERROR','message':'Invalid Customer-ID'}") =
    Ok [(mkField "Status" "status" EmptyString EmptyString, VString "ERROR");
        (mkField "Message" "message" EmptyString EmptyString, VString "Invalid Customer-ID")])
    by (vm_compute; reflexivity).
  split; [exact Hs | split; [exact Henv |]].
  exact (proj1 (proj2 (proj1 (decoders_error_envelope example_decoder (fun l => l) 10 0 400
    (dq "{'status':'ERROR','message':'Invalid Customer-ID'}") Hs) _ Henv))).
Defined.

(** C8: an unparseable [recsindb] count does not fail a classified
    search: in the contact [Search], for every map order, when the
    [result] member (if any) decodes to [recs] the search succeeds with a
    match count of 0 and [recs]; in the customer [Search], when every
    numerically keyed record decodes, the search succeeds with a match
    count of 0. *)
Theorem search_count_defaults_to_zero decode_other iter limit offset :
  (forall l, Permutation (iter l) l) ->
  (forall body buffer raw recs,
     unmarshal_raw_map (replace [("entity.", EmptyString); ("contact.", EmptyString)] body)
       = Ok buffer ->
     assoc "recsindb" buffer = Some raw ->
     (exists e, atoi raw = Err e) ->
     match assoc "result" buffer with
     | Some r => j <- json_parse r ;; unmarshal_slice decode_other contact_Detail_zero j
     | None => Ok []
     end = Ok recs ->
     contact_Search_response decode_other iter limit offset StatusOK body
       = Ok (mkSearchResult limit offset 0 recs)) /\
  (forall body buffer raw,
     unmarshal_raw_map (replace [("customer.", EmptyString)] body) = Ok buffer ->
     assoc "recsindb" buffer = Some raw ->
     (exists e, atoi raw = Err e) ->
     (forall d k r, In (k, r) buffer -> rgx_number k = true ->
        exists d', unmarshal_text decode_other d r = Ok d') ->
     exists recs, customer_Search_response decode_other iter limit offset StatusOK body
       = Ok (mkSearchResult limit offset 0 recs)).
Proof.
  intros Hiter; split.
  - intros body buffer raw recs Hb Hraw [e He] Hrec.
    pose proof (unmarshal_raw_map_nodup _ _ Hb) as Hd.
    assert (Hp : Permutation buffer (iter buffer)) by (apply Permutation_sym, Hiter).
    assert (Hd' : NoDup (map fst (iter buffer)))
      by (apply (Permutation_NoDup (Permutation_map fst Hp)), Hd).
    unfold contact_Search_response; cbn [negb Z.eqb StatusOK Pos.eqb]; rewrite Hb; cbn [bind].
    rewrite (contact_search_loop_spec _ _ _ _ Hd').
    rewrite <- !(assoc_perm _ _ _ Hd Hp), Hraw, Hrec.
    unfold atoi_or_zero; rewrite He; reflexivity.
  - intros body buffer raw Hb Hraw [e He] Hdec.
    pose proof (unmarshal_raw_map_nodup _ _ Hb) as Hd.
    assert (Hp : Permutation buffer (iter buffer)) by (apply Permutation_sym, Hiter).
    assert (Hd' : NoDup (map fst (iter buffer)))
      by (apply (Permutation_NoDup (Permutation_map fst Hp)), Hd).
    assert (Hdec' : forall d k r, In (k, r) (iter buffer) -> rgx_number k = true ->
              exists d', unmarshal_text decode_other d r = Ok d')
      by (intros d k r Hin; apply Hdec; apply (Permutation_in _ (Permutation_sym Hp)), Hin).
    destruct (customer_search_loop_spec _ _ Hd' Hdec' customer_Detail_zero [] 0)
      as [bufs' Hl].
    exists bufs'.
    unfold customer_Search_response; cbn [negb Z.eqb StatusOK Pos.eqb]; rewrite Hb; cbn [bind].
    rewrite Hl, <- (assoc_perm _ _ _ Hd Hp), Hraw.
    unfold atoi_or_zero; rewrite He; reflexivity.
Qed.

Lemma search_count_defaults_to_zero_witness :
  contact_Search_response example_decoder (fun l => l) 10 1 StatusOK
    (dq "{'recsindb':'not-a-number','result':[]}") = Ok (mkSearchResult 10 1 0 []) /\
  exists recs, customer_Search_response example_decoder (fun l => l) 10 1 StatusOK
    (dq "{'recsindb':'not-a-number'}") = Ok (mkSearchResult 10 1 0 recs).
Proof.
  destruct (search_count_defaults_to_zero example_decoder (fun l => l) 10 1
              (fun l => Permutation_refl l)) as [Hc Hu].
  split.
  - apply (Hc _ [("recsindb", dq "'not-a-number'"); ("result", "[]")] (dq "'not-a-number'") []).
    + vm_compute; reflexivity.
    + vm_compute; reflexivity.
    + eexists; vm_compute; reflexivity.
    + vm_compute; reflexivity.
  - apply (Hu _ [("recsindb", dq "'not-a-number'")] (dq "'not-a-number'")).
    + vm_compute; reflexivity.
    + vm_compute; reflexivity.
    + eexists; vm_compute; reflexivity.
    + intros d k r [H|[]]; injection H as <- <-; discriminate.
Defined.

(** The contact [Detail] with [Name] ["A"] and [City] ["B"] and every
    other field zero. *)
Definition contact_name_city : record :=
  map (fun '(f, v) =>
         if String.eqb (f_name f) "Name" then (f, VString "A")
         else if String.eqb (f_name f) "City" then (f, VString "B")
         else (f, v))
      contact_Detail_zero.

(** C7: the raw text is what the success paths of the contact [Search]
    and [Default] strip: two bodies with the same text after the removal
    of ["entity."] and ["contact."] decode alike, for every map order; and
    a record nested under [result] whose keys are [contact.name] and
    [entity.city] decodes, through [Search], to [Name = "A"] and
    [City = "B"]. *)
Theorem contact_decoders_strip_prefixes decode_other iter :
  (forall l, Permutation (iter l) l) ->
  (forall limit offset body body',
     replace [("entity.", EmptyString); ("contact.", EmptyString)] body =
     replace [("entity.", EmptyString); ("contact.", EmptyString)] body' ->
     contact_Search_response decode_other iter limit offset StatusOK body =
     contact_Search_response decode_other iter limit offset StatusOK body') /\
  (forall body body',
     replace [("contact.", EmptyString); ("entity.", EmptyString)] body =
     replace [("contact.", EmptyString); ("entity.", EmptyString)] body' ->
     contact_Default_response decode_other iter StatusOK body =
     contact_Default_response decode_other iter StatusOK body') /\
  contact_Search_response decode_other iter 10 1 StatusOK
    (dq "{'recsindb':1,'result':[{'contact.name':'A','entity.city':'B'}]}")
  = Ok (mkSearchResult 10 1 1 [contact_name_city]) /\
  field_string "Name" contact_name_city = "A" /\
  field_string "City" contact_name_city = "B".
Proof.
  intros Hiter; split; [| split; [| split]].
  - intros limit offset body body' H.
    unfold contact_Search_response; cbn [negb Z.eqb StatusOK Pos.eqb]; rewrite H; reflexivity.
  - intros body body' H.
    unfold contact_Default_response; cbn [negb Z.eqb StatusOK Pos.eqb]; rewrite H; reflexivity.
  - set (buf := [("recsindb", "1");
                 ("result", dq "[{'name':'A','city':'B'}]")]).
    assert (Hb : unmarshal_raw_map
                   (replace [("entity.", EmptyString); ("contact.", EmptyString)]
                      (dq "{'recsindb':1,'result':[{'contact.name':'A','entity.city':'B'}]}"))
                 = Ok buf) by (vm_compute; reflexivity).
    pose proof (unmarshal_raw_map_nodup _ _ Hb) as Hd.
    assert (Hp : Permutation buf (iter buf)) by (apply Permutation_sym, Hiter).
    assert (Hd' : NoDup (map fst (iter buf)))
      by (apply (Permutation_NoDup (Permutation_map fst Hp)), Hd).
    unfold contact_Search_response; cbn [negb Z.eqb StatusOK Pos.eqb]; rewrite Hb; cbn [bind].
    rewrite (contact_search_loop_spec _ _ _ _ Hd').
    rewrite <- !(assoc_perm _ _ _ Hd Hp).
    vm_compute; reflexivity.
  - split; vm_compute; reflexivity.
Qed.

Lemma contact_decoders_strip_prefixes_witness :
  contact_Search_response example_decoder (fun l => l) 10 1 StatusOK
    (dq "{'recsindb':1,'result':[{'contact.name':'A','entity.city':'B'}]}")
  = Ok (mkSearchResult 10 1 1 [contact_name_city]).
Proof.
  exact (proj1 (proj2 (proj2 (contact_decoders_strip_prefixes example_decoder (fun l => l)
                                (fun l => Permutation_refl l))))).
Defined.

(** C7, counterexample: the flat body [{"contact.name":"A","entity.city":"B"}]
    decodes to no record with [Name = "A"] and [City = "B"]: the contact
    [Search] finds no [result] member and returns no records, the contact
    [Default] cannot decode the string members as maps and fails, and the
    contact [Details], which strips nothing, leaves [Name] and [City]
    empty. *)
Lemma contact_decoders_flat_body :
  contact_Search_response example_decoder (fun l => l) 10 1 StatusOK
    (dq "{'contact.name':'A','entity.city':'B'}") = Ok (mkSearchResult 10 1 0 []) /\
  (exists e, contact_Default_response example_decoder (fun l => l) StatusOK
    (dq "{'contact.name':'A','entity.city':'B'}") = Err e) /\
  (exists r, contact_Details_response example_decoder StatusOK
    (dq "{'contact.name':'A','entity.city':'B'}") = Ok r /\
    field_string "Name" r = EmptyString /\ field_string "City" r = EmptyString).
Proof.
  split; [vm_compute; reflexivity | split].
  - eexists; vm_compute; reflexivity.
  - exists contact_Detail_zero; vm_compute; repeat split.
Qed.

(** ** Encoding a contact [Detail] and decoding its echo *)

(** The key a tagged field is sent under. *)
Definition query_key (f : field) : string := trim_suffix (f_query f) ",optional".

Definition vstr (v : value) : string := match v with VString s => s | _ => EmptyString end.

(** The fields the [Detail] walk sends: tagged, string-kinded, non-zero. *)
Definition contact_sent (fv : field * value) : bool :=
  negb (untagged (f_query (fst fv))) && is_string_kind (snd fv) && negb (is_zero (snd fv)).

Definition sent_pairs (c : record) : list (string * string) :=
  map (fun fv => (query_key (fst fv), vstr (snd fv))) (filter contact_sent c).

(** The key/value pairs of a parameter set, key by key. *)
Definition flat_values (ps : values) : list (string * string) :=
  flat_map (fun kv => map (fun v => (fst kv, v)) (snd kv)) ps.

(** A server echo of a parameter set: an object with one string member
    per key and value, in order. *)
Definition echo (ps : values) : json :=
  JObject (map (fun kv => (fst kv, JString (snd kv))) (flat_values ps)).

(** A field whose query name is also its JSON name, up to case. *)
Definition own_match (f : field) : bool :=
  match json_key f with
  | Some n => String.eqb (to_lower n) (to_lower (query_key f))
  | None => false
  end.

(** What decoding the echo of [c] gives: the sent fields whose query name
    is their JSON name keep their value; every other field is zero. *)
Definition round_trip_expected (c : record) : record :=
  map (fun '(fv, zv) => if contact_sent fv && own_match (fst fv) then fv else zv)
      (combine c contact_Detail_zero).

Definition shape (r : record) : list (field * bool) :=
  map (fun fv => (fst fv, is_string_kind (snd fv))) r.

Definition set_string (i : nat) (s : string) (r : record) : record :=
  match nth_error r i with
  | Some (f, _) => update_nth i (f, VString s) r
  | None => r
  end.

Definition decode_step (z : record) (r : record) (ks : string * string) : record :=
  match find_field (fst ks) z with Some i => set_string i (snd ks) r | None => r end.

Definition step_idx (r : record) (ifv : nat * (field * value)) : record :=
  if contact_sent (snd ifv) && own_match (fst (snd ifv))
  then set_string (fst ifv) (vstr (snd (snd ifv))) r else r.

Fixpoint nodupb (l : list string) : bool :=
  match l with
  | [] => true
  | x :: l' => negb (existsb (String.eqb x) l') && nodupb l'
  end.

Lemma nodupb_NoDup l : nodupb l = true -> NoDup l.
Proof.
  induction l as [| x l IH]; cbn; intros H; [constructor|].
  apply andb_true_iff in H as [H1 H2].
  constructor; [| apply IH, H2].
  intros Hin; apply negb_true_iff in H1.
  assert (existsb (String.eqb x) l = true)
    by (apply existsb_exists; exists x; split; [exact Hin | apply String.eqb_refl]).
  congruence.
Qed.

Lemma contact_detail_walk_sent c acc ps :
  contact_detail_walk c acc = (Some ps, None) -> ps = fold_left add_op (sent_pairs c) acc.
Proof.
  unfold sent_pairs.
  revert acc; induction c as [| [f v] c IH]; intros acc H; cbn in H |- *.
  - injection H as <-; reflexivity.
  - unfold contact_sent; cbn [fst snd].
    destruct (untagged (f_query f)); cbn in H |- *; [apply IH, H|].
    destruct v as [s| | |]; cbn in H |- *; try (apply IH, H).
    destruct (String.eqb s EmptyString); cbn in H |- *.
    + destruct (negb (has_suffix (f_query f) ",optional")); [discriminate | apply IH, H].
    + apply IH, H.
Qed.

Lemma values_add_new k v vs : ~ In k (map fst vs) -> values_add k v vs = (vs ++ [(k, [v])])%list.
Proof.
  induction vs as [| [k' l] vs IH]; cbn; intros Hn; auto.
  destruct (String.eqb_spec k k') as [->|]; [exfalso; auto|].
  rewrite IH; auto.
Qed.

Lemma fold_add_op_flat l :
  NoDup (map fst l) ->
  map fst (fold_left add_op l []) = map fst l /\ flat_values (fold_left add_op l []) = l.
Proof.
  induction l as [| x l IH] using rev_ind; intros Hd; [split; reflexivity|].
  rewrite map_app in Hd; cbn in Hd.
  pose proof (NoDup_app_remove_r _ _ Hd) as Hd1.
  pose proof (NoDup_remove_2 _ _ _ Hd) as Hn; rewrite app_nil_r in Hn.
  destruct (IH Hd1) as [Hk Hf].
  rewrite fold_left_app; cbn.
  change (add_op (fold_left add_op l []) x)
    with (values_add (fst x) (snd x) (fold_left add_op l [])).
  rewrite values_add_new by (rewrite Hk; exact Hn).
  split.
  - rewrite !map_app, Hk; reflexivity.
  - unfold flat_values in *; rewrite flat_map_app, Hf; cbn.
    destruct x; reflexivity.
Qed.

Lemma sent_pairs_in c x :
  In x (map fst (sent_pairs c)) ->
  In x (map query_key (filter (fun f => negb (untagged (f_query f))) (map fst c))).
Proof.
  unfold sent_pairs; rewrite map_map; cbn.
  intros Hin; apply in_map_iff in Hin as [fv [<- Hfv]].
  apply filter_In in Hfv as [Hc Hs].
  apply in_map, filter_In; split; [apply in_map, Hc|].
  unfold contact_sent in Hs; apply andb_true_iff in Hs as [Hs _].
  apply andb_true_iff in Hs as [Hs _]; exact Hs.
Qed.

Lemma sent_pairs_nodup c :
  NoDup (map query_key (filter (fun f => negb (untagged (f_query f))) (map fst c))) ->
  NoDup (map fst (sent_pairs c)).
Proof.
  induction c as [| [f v] c IH]; cbn; intros Hd; [constructor|].
  unfold sent_pairs in *; cbn.
  destruct (negb (untagged (f_query f))) eqn:Ht; cbn in Hd.
  - inversion Hd as [| x y Hn Hd']; subst.
    destruct (contact_sent (f, v)) eqn:Es; cbn; [| apply IH, Hd'].
    constructor; [| apply IH, Hd'].
    intros Hin; apply Hn, (sent_pairs_in c), Hin.
  - assert (Es : contact_sent (f, v) = false)
      by (unfold contact_sent; cbn; rewrite Ht; reflexivity).
    rewrite Es; apply IH, Hd.
Qed.

Lemma find_index_fst (p : field * value -> bool)
  (Hp : forall f v v', p (f, v) = p (f, v')) r r' :
  map fst r = map fst r' -> find_index p r = find_index p r'.
Proof.
  revert r'; induction r as [| [f v] r IH]; intros [| [f' v'] r'] H; cbn in H;
    try discriminate; auto.
  injection H as -> H; cbn.
  rewrite (Hp f' v v'), (IH r' H); reflexivity.
Qed.

Lemma find_field_fst k r r' : map fst r = map fst r' -> find_field k r = find_field k r'.
Proof.
  intros H; unfold find_field.
  rewrite (find_index_fst (key_is k) (fun _ _ _ => eq_refl) r r' H),
          (find_index_fst (key_folds k) (fun _ _ _ => eq_refl) r r' H).
  reflexivity.
Qed.

Lemma shape_fst r z : shape r = shape z -> map fst r = map fst z.
Proof.
  intros H; apply (f_equal (map fst)) in H; unfold shape in H; rewrite !map_map in H.
  exact H.
Qed.

Lemma update_nth_shape i f v v' r :
  nth_error r i = Some (f, v) -> is_string_kind v = is_string_kind v' ->
  shape (update_nth i (f, v') r) = shape r.
Proof.
  revert i; induction r as [| fv r IH]; intros [| i] Hn Hk; cbn in *; try discriminate.
  - injection Hn as ->; cbn; rewrite Hk; reflexivity.
  - f_equal; apply IH; assumption.
Qed.

Lemma shape_nth r z i f v :
  shape r = shape z -> nth_error z i = Some (f, v) ->
  exists v', nth_error r i = Some (f, v') /\ is_string_kind v' = is_string_kind v.
Proof.
  revert z i; induction r as [| [f1 v1] r IH]; intros [| [f2 v2] z] [| i] Hs Hn;
    cbn in *; try discriminate.
  - injection Hn as -> ->; injection Hs as -> Hk _; eauto.
  - injection Hs as _ _ Hs; apply (IH z i Hs Hn).
Qed.

Lemma decode_members_strings dec z l r :
  shape r = shape z ->
  (forall k s i, In (k, s) l -> find_field k z = Some i ->
     exists f s0, nth_error z i = Some (f, VString s0)) ->
  decode_members dec (map (fun ks => (fst ks, JString (snd ks))) l) r =
  Ok (fold_left (decode_step z) l r, None).
Proof.
  revert r; induction l as [| [k s] l IH]; intros r Hs Hz; cbn; auto.
  assert (Hz' : forall k s i, In (k, s) l -> find_field k z = Some i ->
            exists f s0, nth_error z i = Some (f, VString s0))
    by (intros k' s' i' Hin; apply (Hz k' s' i'); right; exact Hin).
  rewrite (find_field_fst k r z (shape_fst r z Hs)).
  unfold decode_step at 2; cbn [fst snd].
  destruct (find_field k z) as [i|] eqn:Ef; [| apply IH; assumption].
  destruct (Hz k s i (or_introl eq_refl) Ef) as (f & s0 & Hn).
  destruct (shape_nth r z i f _ Hs Hn) as (v' & Hr & Hk).
  unfold set_string; rewrite Hr.
  destruct v' as [s1| | |]; try discriminate Hk; cbn.
  rewrite IH; [reflexivity | | exact Hz'].
  rewrite (update_nth_shape i f (VString s1) (VString s) r Hr eq_refl); exact Hs.
Qed.

Lemma sent_fold_indexed z c n r :
  (forall j fv, nth_error c j = Some fv -> contact_sent fv = true ->
     find_field (query_key (fst fv)) z = if own_match (fst fv) then Some (n + j) else None) ->
  fold_left (decode_step z) (sent_pairs c) r =
  fold_left step_idx (combine (seq n (length c)) c) r.
Proof.
  unfold sent_pairs.
  revert n r; induction c as [| fv c IH]; intros n r H; cbn; auto.
  assert (H' : forall j fv', nth_error c j = Some fv' -> contact_sent fv' = true ->
            find_field (query_key (fst fv')) z =
            if own_match (fst fv') then Some (S n + j) else None)
    by (intros j fv' Hn Hs; rewrite (H (S j) fv' Hn Hs); replace (n + S j) with (S n + j) by lia; reflexivity).
  unfold step_idx at 2; cbn [fst snd].
  destruct (contact_sent fv) eqn:Es; cbn.
  - unfold decode_step at 2; cbn [fst snd].
    rewrite (H 0 fv eq_refl Es), Nat.add_0_r.
    destruct (own_match (fst fv)); apply IH, H'.
  - apply IH, H'.
Qed.

Lemma update_nth_app {A} (pre l : list A) (a b : A) :
  update_nth (length pre) a (pre ++ b :: l) = (pre ++ a :: l)%list.
Proof. induction pre as [| x pre IH]; cbn; [reflexivity | rewrite IH; reflexivity]. Qed.

Lemma set_string_app pre f v z s :
  set_string (length pre) s (pre ++ (f, v) :: z)%list = (pre ++ (f, VString s) :: z)%list.
Proof.
  unfold set_string; rewrite nth_error_app2, Nat.sub_diag by lia; cbn.
  apply update_nth_app.
Qed.

Lemma step_idx_positional (c z pre : record) :
  length c = length z ->
  (forall fv zv, In (fv, zv) (combine c z) -> fst fv = fst zv) ->
  fold_left step_idx (combine (seq (length pre) (length c)) c) (pre ++ z)%list =
  (pre ++ map (fun '(fv, zv) => if contact_sent fv && own_match (fst fv) then fv else zv)
              (combine c z))%list.
Proof.
  revert z pre; induction c as [| fv c IH]; intros [| zv z] pre Hl Hf; cbn in Hl;
    try discriminate; cbn.
  - rewrite !app_nil_r; reflexivity.
  - injection Hl as Hl.
    assert (Hf' : forall fv zv, In (fv, zv) (combine c z) -> fst fv = fst zv)
      by (intros a b Hin; apply Hf; right; exact Hin).
    assert (Hlen : S (length pre) = length (pre ++ [fv])%list)
      by (rewrite length_app; cbn; lia).
    unfold step_idx at 2; cbn [fst snd].
    destruct (contact_sent fv && own_match (fst fv)) eqn:E.
    + destruct zv as [fz vz], fv as [f v].
      pose proof (Hf (f, v) (fz, vz) (or_introl eq_refl)) as Hff; cbn in Hff; subst fz.
      rewrite set_string_app.
      assert (Hv : VString (vstr v) = v).
      { apply andb_true_iff in E as [E _]; unfold contact_sent in E.
        apply andb_true_iff in E as [E _]; apply andb_true_iff in E as [_ E].
        destruct v; cbn in *; congruence. }
      cbn [snd]; rewrite Hv.
      replace (pre ++ (f, v) :: z)%list with ((pre ++ [(f, v)]) ++ z)%list
        by (rewrite <- app_assoc; reflexivity).
      rewrite Hlen, IH by assumption; rewrite <- app_assoc; reflexivity.
    + replace (pre ++ zv :: z)%list with ((pre ++ [zv]) ++ z)%list
        by (rewrite <- app_assoc; reflexivity).
      replace (S (length pre)) with (length (pre ++ [zv])%list)
        by (rewrite length_app; cbn; lia).
      rewrite IH by assumption; rewrite <- app_assoc; reflexivity.
Qed.

Lemma combine_fst (c z : record) fv zv :
  map fst c = map fst z -> In (fv, zv) (combine c z) -> fst fv = fst zv.
Proof.
  revert z; induction c as [| a c IH]; intros [| b z] H Hin; cbn in *; try contradiction;
    try discriminate.
  injection H as Hab H.
  destruct Hin as [Hin | Hin]; [injection Hin as <- <-; exact Hab | apply (IH z H Hin)].
Qed.

Definition contact_tagged (f : field) : bool := negb (untagged (f_query f)).

(** The query names of [contact.Detail] are distinct. *)
Lemma contact_Detail_query_keys_nodup :
  NoDup (map query_key (filter contact_tagged contact_Detail_fields)).
Proof. apply nodupb_NoDup; vm_compute; reflexivity. Qed.

(** The key of a tagged field of [contact.Detail] selects that field when
    it is its JSON name up to case, and no field otherwise; the tagged
    fields are all strings. *)
Lemma contact_Detail_query_key_selects j f :
  nth_error contact_Detail_fields j = Some f -> contact_tagged f = true ->
  find_field (query_key f) contact_Detail_zero = (if own_match f then Some j else None) /\
  contact_Detail_string_field f = true.
Proof.
  intros Hn.
  do 31 (destruct j as [| j];
         [cbn in Hn; injection Hn as <-; vm_compute;
          intros Ht; first [discriminate Ht | split; reflexivity] |]).
  destruct j; discriminate Hn.
Qed.

Lemma of_struct_nth fs (c : record) j fv :
  of_struct fs c -> nth_error c j = Some fv -> nth_error fs j = Some (fst fv).
Proof. unfold of_struct; intros <- Hn; rewrite nth_error_map, Hn; reflexivity. Qed.

Lemma contact_sent_tagged fv : contact_sent fv = true -> contact_tagged (fst fv) = true.
Proof.
  unfold contact_sent, contact_tagged; intros H.
  apply andb_true_iff in H as [H _]; apply andb_true_iff in H as [H _]; exact H.
Qed.

Lemma contact_Detail_zero_nth j f :
  nth_error contact_Detail_fields j = Some f -> contact_Detail_string_field f = true ->
  nth_error contact_Detail_zero j = Some (f, VString EmptyString).
Proof.
  intros Hn Hs; unfold contact_Detail_zero; rewrite nth_error_map, Hn; cbn.
  rewrite Hs; reflexivity.
Qed.

(** C2: encoding a contact [Detail] with the [Detail] method [URLValues]
    and decoding, with the contact [Details] decoder, a body that echoes
    the parameters as an object of string members gives back exactly the
    sent fields whose query name is also their JSON name ([Type], [Name],
    [Company], [City], [State], [CountryCode]); every other field, among
    them the sent [CustomerID], [Email], [Address], [AddressLine2],
    [AddressLine3], [Zipcode], [PhoneCountryCode], [Phone],
    [FaxCountryCode] and [Fax], comes back zero. *)
Theorem contact_Detail_round_trip validate decode_other c ps body :
  of_struct contact_Detail_fields c ->
  contact_Detail_URLValues validate c = (Some ps, None) ->
  json_parse body = Ok (echo ps) ->
  contact_Details_response decode_other StatusOK body = Ok (round_trip_expected c) /\
  map f_name (filter (fun f => contact_tagged f && own_match f) contact_Detail_fields)
  = ["Type"; "Name"; "Company"; "City"; "State"; "CountryCode"].
Proof.
  intros Hc HU Hb; split; [| vm_compute; reflexivity].
  unfold contact_Detail_URLValues in HU; destruct (validate c); [discriminate|].
  apply contact_detail_walk_sent in HU.
  assert (Hnd : NoDup (map fst (sent_pairs c))).
  { apply sent_pairs_nodup; unfold of_struct in Hc; rewrite Hc.
    apply contact_Detail_query_keys_nodup. }
  destruct (fold_add_op_flat _ Hnd) as [_ Hflat].
  unfold contact_Details_response, unmarshal_text; cbn [negb Z.eqb StatusOK Pos.eqb].
  rewrite Hb; cbn [bind]; unfold unmarshal_struct, decode_struct; cbn [echo].
  subst ps; rewrite Hflat.
  rewrite (decode_members_strings decode_other contact_Detail_zero (sent_pairs c)
             contact_Detail_zero eq_refl); cbn [saved].
  2: { intros k s i Hin Hf.
       unfold sent_pairs in Hin; apply in_map_iff in Hin as [fv [Hkv Hfv]].
       injection Hkv as <- _.
       apply filter_In in Hfv as [Hfv Hs].
       apply In_nth_error in Hfv as [j Hj].
       pose proof (of_struct_nth _ _ _ _ Hc Hj) as Hn.
       destruct (contact_Detail_query_key_selects j (fst fv) Hn (contact_sent_tagged fv Hs))
         as [Hsel Hstr].
       rewrite Hsel in Hf; destruct (own_match (fst fv)); [| discriminate].
       injection Hf as <-.
       exists (fst fv), EmptyString; apply contact_Detail_zero_nth; assumption. }
  f_equal.
  rewrite (sent_fold_indexed contact_Detail_zero c 0 contact_Detail_zero).
  2: { intros j fv Hj Hs.
       pose proof (of_struct_nth _ _ _ _ Hc Hj) as Hn.
       apply (contact_Detail_query_key_selects j (fst fv) Hn (contact_sent_tagged fv Hs)). }
  assert (Hfz : map fst c = map fst contact_Detail_zero).
  { unfold of_struct in Hc; rewrite Hc; unfold contact_Detail_zero; rewrite map_map.
    symmetry; apply map_id. }
  assert (Hl : length c = length contact_Detail_zero)
    by (rewrite <- (length_map fst c), Hfz, length_map; reflexivity).
  pose proof (step_idx_positional c contact_Detail_zero [] Hl
                (fun fv zv Hin => combine_fst c contact_Detail_zero fv zv Hfz Hin)) as H.
  cbn in H; exact H.
Qed.

(** A contact [Detail] with every field set that the validator accepts:
    a numeric customer identifier, an e-mail address, a country code, and
    phone and fax numbers within their lengths. *)
Definition contact_Detail_sample_strings : list (string * string) := [
  ("ID", "1001"); ("Type", "Contact"); ("CustomerID", "12");
  ("StatusSystem", "Active"); ("StatusRegistry", "Active"); ("ParentKey", "999");
  ("Name", "John"); ("Email", "john@example.com"); ("Company", "Acme");
  ("Address", "Main1"); ("AddressLine2", "Suite2"); ("AddressLine3", "Floor3");
  ("City", "Springfield"); ("State", "IL"); ("CountryCode", "US"); ("Zipcode", "62701");
  ("PhoneCountryCode", "1"); ("Phone", "5551234"); ("FaxCountryCode", "1");
  ("Fax", "5554321"); ("ClassName", "Contact"); ("ClassKey", "contact");
  ("EntityActionID", "7"); ("ContactID", "1001"); ("EntityTypeID", "3");
  ("Description", "Contact")
].

Definition sample_lookup (name : string) (l : list (string * string)) : string :=
  match find (fun p => String.eqb (fst p) name) l with
  | Some (_, s) => s
  | None => EmptyString
  end.

Definition contact_Detail_sample : record :=
  map (fun f => (f, if contact_Detail_string_field f
                    then VString (sample_lookup (f_name f) contact_Detail_sample_strings)
                    else VOther 1))
      contact_Detail_fields.

(** The server's echo of the sample's parameters. *)
Definition contact_Detail_sample_echo : string :=
  dq ("{'type':'Contact','customer-id':'12','name':'John','email':'john@example.com',"
      ++ "'company':'Acme','address-line-1':'Main1','address-line-2':'Suite2',"
      ++ "'address-line-3':'Floor3','city':'Springfield','state':'IL','country':'US',"
      ++ "'zipcode':'62701','phone-cc':'1','phone':'5551234','fax-cc':'1','fax':'5554321'}").

Definition contact_Detail_sample_params : values :=
  map (fun k => (query_key k, [sample_lookup (f_name k) contact_Detail_sample_strings]))
      (filter contact_tagged contact_Detail_fields).

Lemma contact_Detail_round_trip_witness :
  of_struct contact_Detail_fields contact_Detail_sample /\
  contact_Detail_URLValues (validator_Struct go_rule_ok "Detail") contact_Detail_sample
    = (Some contact_Detail_sample_params, None) /\
  json_parse contact_Detail_sample_echo = Ok (echo contact_Detail_sample_params) /\
  contact_Details_response example_decoder StatusOK contact_Detail_sample_echo
    = Ok (round_trip_expected contact_Detail_sample).
Proof.
  assert (H1 : of_struct contact_Detail_fields contact_Detail_sample)
    by (vm_compute; reflexivity).
  assert (H2 : contact_Detail_URLValues (validator_Struct go_rule_ok "Detail") contact_Detail_sample
                 = (Some contact_Detail_sample_params, None)) by (vm_compute; reflexivity).
  assert (H3 : json_parse contact_Detail_sample_echo = Ok (echo contact_Detail_sample_params))
    by (vm_compute; reflexivity).
  split; [exact H1 | split; [exact H2 | split; [exact H3 |]]].
  exact (proj1 (contact_Detail_round_trip (validator_Struct go_rule_ok "Detail") example_decoder
                  contact_Detail_sample contact_Detail_sample_params
                  contact_Detail_sample_echo H1 H2 H3)).
Defined.

(** C2, counterexample: the sample contact [Detail] has every field set
    and passes the validator, and [Detail.URLValues] encodes it; decoding
    the echo of its parameters gives an empty [Email] (the echo's key is
    [email], the JSON name is [emailaddr]). *)
Lemma contact_Detail_round_trip_loses_email :
  forallb (fun fv => negb (is_zero (snd fv))) contact_Detail_sample = true /\
  validator_Struct go_rule_ok "Detail" contact_Detail_sample = None /\
  contact_Detail_URLValues (validator_Struct go_rule_ok "Detail") contact_Detail_sample
    = (Some contact_Detail_sample_params, None) /\
  json_parse contact_Detail_sample_echo = Ok (echo contact_Detail_sample_params) /\
  exists r, contact_Details_response example_decoder StatusOK contact_Detail_sample_echo = Ok r /\
    field_string "Email" contact_Detail_sample = "john@example.com" /\
    field_string "Email" r = EmptyString.
Proof.
  split; [vm_compute; reflexivity|]; split; [vm_compute; reflexivity|].
  split; [vm_compute; reflexivity | split; [vm_compute; reflexivity |]].
  eexists; split; [vm_compute; reflexivity | split; vm_compute; reflexivity].
Qed.

(** ** The [entityAttributes] map *)

Lemma map_lookup_insert {A} k' k (a : A) m :
  map_lookup k' (map_insert k a m) = if String.eqb k' k then Some a else map_lookup k' m.
Proof.
  induction m as [| [k0 a0] m IH]; cbn [map_insert map_lookup].
  - destruct (String.eqb k' k); reflexivity.
  - destruct (String.eqb_spec k k0) as [->|Hne]; cbn [map_lookup].
    + destruct (String.eqb k' k0); reflexivity.
    + rewrite IH; destruct (String.eqb_spec k' k0) as [->|H0]; [|reflexivity].
      rewrite (proj2 (String.eqb_neq k0 k)) by congruence; reflexivity.
Qed.

Lemma map_lookup_delete k' k (m : list (string * string)) :
  map_lookup k' (filter (fun kv => negb (String.eqb (fst kv) k)) m) =
  if String.eqb k' k then None else map_lookup k' m.
Proof.
  induction m as [| [k0 a0] m IH]; cbn [filter map_lookup fst].
  - destruct (String.eqb k' k); reflexivity.
  - destruct (String.eqb_spec k0 k) as [->|Hne]; cbn [negb map_lookup]; rewrite IH.
    + destruct (String.eqb k' k); reflexivity.
    + destruct (String.eqb_spec k' k0) as [->|H0]; [|reflexivity].
      rewrite (proj2 (String.eqb_neq k0 k) Hne); reflexivity.
Qed.

Lemma map_insert_in {A} k (a : A) m : In (k, a) (map_insert k a m).
Proof.
  induction m as [| [k0 a0] m IH]; cbn [map_insert]; [left; reflexivity|].
  destruct (String.eqb k k0); [left; reflexivity | right; exact IH].
Qed.

(** [vs[K]]: the slice under [K], nil when the key is absent. *)
Definition values_get (K : string) (vs : values) : list string :=
  match values_lookup K vs with Some l => l | None => [] end.

Lemma values_lookup_adds_acc K ops acc :
  values_lookup K (fold_left add_op ops acc) =
  match vals_for K ops with
  | [] => values_lookup K acc
  | l => Some (values_get K acc ++ l)%list
  end.
Proof.
  induction ops as [| op ops IH] using rev_ind; [reflexivity|].
  rewrite fold_left_app; cbn [fold_left]; unfold add_op at 1.
  assert (E : vals_for K [op] = if String.eqb (fst op) K then [snd op] else [])
    by (unfold vals_for; cbn; destruct (String.eqb (fst op) K); reflexivity).
  rewrite values_lookup_add, IH, vals_for_app, E.
  destruct (String.eqb (fst op) K).
  - destruct (vals_for K ops) as [| a l]; cbn [app]; unfold values_get.
    + reflexivity.
    + rewrite <- app_assoc; reflexivity.
  - rewrite app_nil_r; reflexivity.
Qed.

Lemma values_lookup_adds_none K ops acc :
  vals_for K ops = [] -> values_lookup K (fold_left add_op ops acc) = values_lookup K acc.
Proof. intros H; rewrite values_lookup_adds_acc, H; reflexivity. Qed.

Lemma attr_sched_at ord sched acc i k v :
  Permutation sched (attr_goroutines 1 ord) -> 1 <= i -> nth_error ord (i - 1) = Some (k, v) ->
  values_lookup (attr_name_key i) (fold_left attr_goroutine sched acc)
    = Some (values_get (attr_name_key i) acc ++ [k])%list /\
  values_lookup (attr_value_key i) (fold_left attr_goroutine sched acc)
    = Some (values_get (attr_value_key i) acc ++ [v])%list.
Proof.
  intros Hs Hi Hnth.
  destruct (vals_for_goroutines_at 1 i ord k v Hi Hnth) as [Hn Hv].
  assert (Hp : forall K, Permutation (vals_for K (flat_map attr_ops sched))
                                     (vals_for K (flat_map attr_ops (attr_goroutines 1 ord)))).
  { intros K; unfold vals_for; apply Permutation_map, Permutation_filter_bool,
      Permutation_flat_map, Hs. }
  pose proof (Hp (attr_name_key i)) as Hpn; rewrite Hn in Hpn.
  pose proof (Hp (attr_value_key i)) as Hpv; rewrite Hv in Hpv.
  rewrite attr_goroutines_ops, !values_lookup_adds_acc.
  rewrite (Permutation_singleton_eq _ _ Hpn), (Permutation_singleton_eq _ _ Hpv).
  split; reflexivity.
Qed.

Lemma vals_for_attr_other K sched :
  (forall i, K <> attr_name_key i /\ K <> attr_value_key i) ->
  vals_for K (flat_map attr_ops sched) = [].
Proof.
  intros HK; induction sched as [| [i [k v]] sched IH]; [reflexivity|].
  cbn [flat_map]; rewrite vals_for_app, IH; unfold vals_for, attr_ops; cbn [filter fst].
  destruct (HK i) as [H1 H2].
  rewrite (proj2 (String.eqb_neq _ _) (not_eq_sym H1)),
          (proj2 (String.eqb_neq _ _) (not_eq_sym H2)).
  reflexivity.
Qed.

Lemma attr_goroutines_in j kv n ord : In (j, kv) (attr_goroutines n ord) -> In kv ord.
Proof.
  revert n; induction ord as [| kv' ord IH]; intros n; cbn; [tauto|].
  intros [E|H]; [injection E as _ ->; left; reflexivity | right; exact (IH _ H)].
Qed.

Lemma vals_for_name_in x i sched :
  In x (vals_for (attr_name_key i) (flat_map attr_ops sched)) ->
  exists j v, In (j, (x, v)) sched.
Proof.
  unfold vals_for; rewrite in_map_iff; intros [[K x'] [Hx Hf]].
  apply filter_In in Hf as [Hin HK]; apply in_flat_map in Hin as [[j [k v]] [Hs Hin]].
  cbv beta iota delta [attr_ops] in Hin; cbn [fst snd] in HK, Hx; subst x'.
  destruct Hin as [E|[E|[]]]; injection E as <- <-.
  - exists j, v; exact Hs.
  - rewrite attr_value_name_eqb in HK; discriminate.
Qed.

(** The index-[i] pair an attribute map sends: the [(i-1)]-th entry of the
    visiting order. *)
Lemma attr_index_entry (data ord : list (string * string)) i :
  Permutation ord data -> 1 <= i <= length data ->
  exists k v, In (k, v) data /\ nth_error ord (i - 1) = Some (k, v).
Proof.
  intros Hord Hi; rewrite <- (Permutation_length Hord) in Hi.
  destruct (nth_error ord (i - 1)) as [[k v]|] eqn:Hnth.
  - exists k, v; split; [apply (Permutation_in _ Hord), (nth_error_In _ _ Hnth) | reflexivity].
  - apply nth_error_None in Hnth; lia.
Qed.

(** [Get] after [Add]: the added value under its key, every other key
    unchanged. *)
Theorem entityAttributes_Get_after_Add k v k' data :
  entityAttributes_Get k' (entityAttributes_Add k v data) =
  if String.eqb k' k then v else entityAttributes_Get k' data.
Proof.
  unfold entityAttributes_Get, entityAttributes_Add; rewrite map_lookup_insert.
  destruct (String.eqb k' k); reflexivity.
Qed.

(** [Get] after [Del]: the empty string under the deleted key, every other
    key unchanged. *)
Theorem entityAttributes_Get_after_Del k k' data :
  entityAttributes_Get k' (entityAttributes_Del k data) =
  if String.eqb k' k then EmptyString else entityAttributes_Get k' data.
Proof.
  unfold entityAttributes_Get, entityAttributes_Del; rewrite map_lookup_delete.
  destruct (String.eqb k' k); reflexivity.
Qed.

(** An entry put with [Add] is sent by [URLValues] as one pair
    [attr-name{i}] / [attr-value{i}], whatever the map and goroutine
    orders. *)
Theorem entityAttributes_Add_then_URLValues k v data ret :
  entityAttributes_URLValues (entityAttributes_Add k v data) ret ->
  exists i, 1 <= i <= length (entityAttributes_Add k v data) /\
    values_lookup (attr_name_key i) ret = Some [k] /\
    values_lookup (attr_value_key i) ret = Some [v].
Proof.
  intros [ord sched Hord Hs].
  assert (Hin : In (k, v) ord)
    by (apply (Permutation_in _ (Permutation_sym Hord)), map_insert_in).
  destruct (In_nth_error _ _ Hin) as [n Hn].
  pose proof (nth_error_Some ord n) as Hlen; rewrite Hn in Hlen.
  exists (S n); split.
  { rewrite <- (Permutation_length Hord); split; [lia | apply Hlen; discriminate]. }
  replace n with (S n - 1) in Hn by lia.
  exact (attr_sched_at ord sched [] (S n) k v Hs ltac:(lia) Hn).
Qed.

(** A key removed with [Del] is never sent as an attribute name by
    [URLValues]. *)
Theorem entityAttributes_Del_then_URLValues k data ret :
  entityAttributes_URLValues (entityAttributes_Del k data) ret ->
  forall i l, values_lookup (attr_name_key i) ret = Some l -> ~ In k l.
Proof.
  intros [ord sched Hord Hs] i l Hl Hk.
  rewrite attr_goroutines_ops, values_lookup_adds in Hl.
  destruct (vals_for (attr_name_key i) (flat_map attr_ops sched)) as [| a l'] eqn:E;
    [discriminate|].
  injection Hl as <-; rewrite <- E in Hk.
  destruct (vals_for_name_in k i sched Hk) as [j [v Hj]].
  apply (Permutation_in _ Hs), attr_goroutines_in, (Permutation_in _ Hord) in Hj.
  unfold entityAttributes_Del in Hj; apply filter_In in Hj as [_ Hj]; cbn in Hj.
  rewrite String.eqb_refl in Hj; discriminate.
Qed.

(** [CopyTo] into a map: the other keys are kept, and each index from 1
    to the size of the attribute map gets the key and the value of one
    entry, every entry under some index. *)
Lemma copy_to_map data d d' :
  entityAttributes_CopyTo data (Some (Some d)) (Returned (Some (Some d'))) ->
  (forall K, (forall i, K <> attr_name_key i /\ K <> attr_value_key i) ->
             values_lookup K d' = values_lookup K d) /\
  (forall i, 1 <= i <= length data -> exists k v, In (k, v) data /\
     values_lookup (attr_name_key i) d' = Some (values_get (attr_name_key i) d ++ [k])%list /\
     values_lookup (attr_value_key i) d' = Some (values_get (attr_value_key i) d ++ [v])%list) /\
  (forall k v, In (k, v) data -> exists i, 1 <= i <= length data /\
     values_lookup (attr_name_key i) d' = Some (values_get (attr_name_key i) d ++ [k])%list /\
     values_lookup (attr_value_key i) d' = Some (values_get (attr_value_key i) d ++ [v])%list).
Proof.
  intros H; inversion H as [| | | d0 ord sched Hord Hs E1 E2]; subst.
  split; [| split].
  - intros K HK; rewrite attr_goroutines_ops.
    apply values_lookup_adds_none, vals_for_attr_other, HK.
  - intros i Hi; destruct (attr_index_entry data ord i Hord Hi) as [k [v [Hin Hnth]]].
    exists k, v; split; [exact Hin|].
    apply (attr_sched_at ord sched d i k v Hs ltac:(lia) Hnth).
  - intros k v Hin.
    apply (Permutation_in _ (Permutation_sym Hord)), In_nth_error in Hin as [j Hj].
    exists (S j); split.
    + split; [lia|]. rewrite <- (Permutation_length Hord).
      apply nth_error_Some; congruence.
    + apply (attr_sched_at ord sched d (S j) k v Hs ltac:(lia)).
      replace (S j - 1) with j by lia; exact Hj.
Qed.

(** [CopyTo] leaves a nil destination alone. Given a pointer to a nil
    map, it returns when the attribute map is empty and panics otherwise.
    Given a pointer to a map, it keeps every key but the attribute ones
    and appends to [attr-name{i}] and [attr-value{i}], for each index from
    1 to the size of the map, the key and the value of one entry; every
    entry is appended that way under some index. *)
Theorem entityAttributes_CopyTo_adds data dest out :
  entityAttributes_CopyTo data dest out ->
  match dest with
  | None => out = Returned None
  | Some None => (data = [] -> out = Returned (Some None)) /\ (data <> [] -> out = Panicked)
  | Some (Some d) =>
      exists d', out = Returned (Some (Some d')) /\
      (forall K, (forall i, K <> attr_name_key i /\ K <> attr_value_key i) ->
                 values_lookup K d' = values_lookup K d) /\
      (forall i, 1 <= i <= length data -> exists k v, In (k, v) data /\
         values_lookup (attr_name_key i) d' = Some (values_get (attr_name_key i) d ++ [k])%list /\
         values_lookup (attr_value_key i) d' = Some (values_get (attr_value_key i) d ++ [v])%list) /\
      (forall k v, In (k, v) data -> exists i, 1 <= i <= length data /\
         values_lookup (attr_name_key i) d' = Some (values_get (attr_name_key i) d ++ [k])%list /\
         values_lookup (attr_value_key i) d' = Some (values_get (attr_value_key i) d ++ [v])%list)
  end.
Proof.
  intros [| Hd | Hd | d ord sched Hord Hs].
  - reflexivity.
  - split; [reflexivity | contradiction].
  - split; [contradiction | reflexivity].
  - eexists; split; [reflexivity|].
    apply copy_to_map, copy_run with (ord := ord); assumption.
Qed.

(** ** The tag-driven encoders of the customer package, in any goroutine order *)

Lemma filter_all_false {A} (p : A -> bool) l : (forall x, In x l -> p x = false) -> filter p l = [].
Proof.
  induction l as [| x l IH]; cbn; intros H; [reflexivity|].
  rewrite (H x (or_introl eq_refl)); apply IH; intros y Hy; apply H; right; exact Hy.
Qed.

Lemma filter_all_true {A} (p : A -> bool) l : (forall x, In x l -> p x = true) -> filter p l = l.
Proof.
  induction l as [| x l IH]; cbn; intros H; [reflexivity|].
  rewrite (H x (or_introl eq_refl)), IH; [reflexivity|].
  intros y Hy; apply H; right; exact Hy.
Qed.

Lemma perm_short {A} (l l' : list A) : Permutation l l' -> length l' <= 1 -> l = l'.
Proof.
  destruct l' as [| a [| b l']]; cbn; intros Hp Hl.
  - apply Permutation_nil, Permutation_sym, Hp.
  - apply Permutation_singleton_eq, Hp.
  - lia.
Qed.

Section FieldOps.

(** A field goroutine seen as the [Add] calls it makes: all under the key
    [key f] of its field, and none unless the field is tagged ([tg]). *)
Variable key : field -> string.
Variable tg : field -> bool.
Variable op : field * value -> list (string * string).
Hypothesis op_key : forall fv kv, In kv (op fv) -> fst kv = key (fst fv).
Hypothesis op_tagged : forall fv, op fv <> [] -> tg (fst fv) = true.

Lemma vals_for_flat_absent K (r : record) :
  ~ In K (map key (filter tg (map fst r))) -> vals_for K (flat_map op r) = [].
Proof.
  induction r as [| fv r IH]; intros HK; [reflexivity|].
  cbn [flat_map]; rewrite vals_for_app.
  cbn [map filter] in HK.
  assert (H0 : vals_for K (op fv) = []).
  { unfold vals_for; rewrite filter_all_false; [reflexivity|].
    intros kv Hkv; apply String.eqb_neq; rewrite (op_key fv kv Hkv).
    assert (Htg : tg (fst fv) = true)
      by (apply op_tagged; intros E; rewrite E in Hkv; destruct Hkv).
    rewrite Htg in HK; intros E; apply HK; left; exact E. }
  rewrite H0, IH; [reflexivity|].
  destruct (tg (fst fv)); cbn [map In] in HK; tauto.
Qed.

Lemma vals_for_flat_single (r : record) f v :
  NoDup (map key (filter tg (map fst r))) ->
  In (f, v) r -> tg f = true ->
  vals_for (key f) (flat_map op r) = map snd (op (f, v)).
Proof.
  induction r as [| fv r IH]; intros Hnd Hin Hf; [destruct Hin|].
  cbn [flat_map]; rewrite vals_for_app.
  cbn [map filter] in Hnd.
  destruct Hin as [E|Hin]; [subst fv|].
  - cbn [fst] in Hnd; rewrite Hf in Hnd; cbn [map] in Hnd; apply NoDup_cons_iff in Hnd as [Hnot _].
    rewrite (vals_for_flat_absent (key f) r Hnot), app_nil_r.
    unfold vals_for; rewrite filter_all_true; [reflexivity|].
    intros kv Hkv; apply String.eqb_eq, (op_key (f, v) kv Hkv).
  - assert (Hnd' : NoDup (map key (filter tg (map fst r))))
      by (destruct (tg (fst fv)); [apply NoDup_cons_iff in Hnd as [_ Hnd]|]; exact Hnd).
    rewrite (IH Hnd' Hin Hf).
    assert (H0 : vals_for (key f) (op fv) = []).
    { unfold vals_for; rewrite filter_all_false; [reflexivity|].
      intros kv Hkv; apply String.eqb_neq; rewrite (op_key fv kv Hkv).
      assert (Htg : tg (fst fv) = true)
        by (apply op_tagged; intros E; rewrite E in Hkv; destruct Hkv).
      rewrite Htg in Hnd; cbn [map] in Hnd; apply NoDup_cons_iff in Hnd as [Hnot _].
      intros E; apply Hnot; rewrite E; apply in_map, filter_In; split; [|exact Hf].
      apply (in_map fst) in Hin; exact Hin. }
    rewrite H0; reflexivity.
Qed.

(** Where a key that is sent comes from. *)
Lemma vals_for_flat_origin K (r : record) :
  vals_for K (flat_map op r) <> [] ->
  exists fv, In fv r /\ op fv <> [] /\ K = key (fst fv).
Proof.
  intros H.
  destruct (vals_for K (flat_map op r)) as [| x l] eqn:E; [congruence|].
  assert (Hx : In x (vals_for K (flat_map op r))) by (rewrite E; left; reflexivity).
  unfold vals_for in Hx; apply in_map_iff in Hx as [kv [_ Hkv]].
  apply filter_In in Hkv as [Hkv HK]; apply String.eqb_eq in HK.
  apply in_flat_map in Hkv as [fv [Hfv Hkv]].
  exists fv; split; [exact Hfv | split].
  - intros E'; rewrite E' in Hkv; destruct Hkv.
  - rewrite <- HK; apply op_key, Hkv.
Qed.

(** The parameter sets of every goroutine order [sched] of [r]: a key holds
    the one value of its field when the tagged keys are distinct. *)
Lemma fold_ops_lookup (step : values -> field * value -> values) (r sched : record) f v :
  (forall acc fv, step acc fv = fold_left add_op (op fv) acc) ->
  (forall fv, length (op fv) <= 1) ->
  NoDup (map key (filter tg (map fst r))) ->
  Permutation sched r -> In (f, v) r -> tg f = true ->
  values_lookup (key f) (fold_left step sched []) =
  match map snd (op (f, v)) with [] => None | l => Some l end.
Proof.
  intros Hstep Hlen Hnd Hp Hin Hf.
  assert (Hfold : forall s acc, fold_left step s acc = fold_left add_op (flat_map op s) acc).
  { induction s as [| fv s IH]; intros acc; [reflexivity|].
    cbn [fold_left flat_map]; rewrite IH, fold_left_app, Hstep; reflexivity. }
  rewrite Hfold, values_lookup_adds.
  assert (Hperm : Permutation (vals_for (key f) (flat_map op sched)) (map snd (op (f, v)))).
  { rewrite <- (vals_for_flat_single r f v Hnd Hin Hf).
    unfold vals_for; apply Permutation_map, Permutation_filter_bool, Permutation_flat_map, Hp. }
  rewrite (perm_short _ _ Hperm); [reflexivity|].
  rewrite length_map; apply Hlen.
Qed.

Lemma fold_ops_origin (step : values -> field * value -> values) (r sched : record) K l :
  (forall acc fv, step acc fv = fold_left add_op (op fv) acc) ->
  Permutation sched r ->
  values_lookup K (fold_left step sched []) = Some l ->
  exists fv, In fv r /\ op fv <> [] /\ K = key (fst fv).
Proof.
  intros Hstep Hp H.
  assert (Hfold : forall s acc, fold_left step s acc = fold_left add_op (flat_map op s) acc).
  { induction s as [| fv s IH]; intros acc; [reflexivity|].
    cbn [fold_left flat_map]; rewrite IH, fold_left_app, Hstep; reflexivity. }
  rewrite Hfold, values_lookup_adds in H.
  destruct (vals_for_flat_origin K sched) as [fv [Hin Hfv]].
  { intros E; rewrite E in H; discriminate. }
  exists fv; split; [apply (Permutation_in _ Hp), Hin | exact Hfv].
Qed.

End FieldOps.

(** The [Add] calls of a [SignUpForm] field goroutine. *)
Definition signup_key (f : field) : string := trim_suffix (f_query f) ",omitempty".
Definition signup_tagged (f : field) : bool := negb (String.eqb (f_query f) EmptyString).

Definition signup_op (fv : field * value) : list (string * string) :=
  let (f, v) := fv in
  if signup_tagged f then
    if has_suffix (f_query f) "omitempty" && is_zero v then []
    else match v with
         | VString s => [(signup_key f, s)]
         | VBool b => [(signup_key f, format_bool b)]
         | _ => []
         end
  else [].

(** The text a [SignUpForm] field is sent as, by its kind. *)
Definition signup_sent (v : value) : option string :=
  match v with
  | VString s => Some s
  | VBool b => Some (format_bool b)
  | _ => None
  end.

Lemma signup_op_key fv kv : In kv (signup_op fv) -> fst kv = signup_key (fst fv).
Proof.
  destruct fv as [f v]; unfold signup_op; cbn [fst].
  destruct (signup_tagged f); [|intros []].
  destruct (_ && _); [intros []|].
  destruct v; cbn; intros H; try destruct H as [<-|[]]; try destruct H; reflexivity.
Qed.

Lemma signup_op_tagged fv : signup_op fv <> [] -> signup_tagged (fst fv) = true.
Proof.
  destruct fv as [f v]; unfold signup_op; cbn [fst].
  destruct (signup_tagged f); [reflexivity | intros H; exfalso; apply H; reflexivity].
Qed.

Lemma signup_op_step acc fv : signup_field acc fv = fold_left add_op (signup_op fv) acc.
Proof.
  destruct fv as [f v]; unfold signup_field, signup_op, signup_tagged, signup_key.
  destruct (negb _); [|reflexivity].
  destruct (_ && _); [reflexivity|]; destruct v; reflexivity.
Qed.

Lemma signup_op_length fv : length (signup_op fv) <= 1.
Proof.
  destruct fv as [f v]; unfold signup_op.
  destruct (signup_tagged f); [|cbn; lia].
  destruct (_ && _); [cbn; lia|]; destruct v; cbn; lia.
Qed.

Lemma SignUpForm_keys_nodup :
  NoDup (map signup_key (filter signup_tagged SignUpForm_fields)).
Proof. apply nodupb_NoDup; vm_compute; reflexivity. Qed.

(** The [Add] calls of a customer [Detail] field goroutine. *)
Definition customer_key (f : field) : string := trim_suffix (f_query f) ",omitempty".
Definition customer_tagged (f : field) : bool := negb (untagged (f_query f)).

Definition customer_op (fv : field * value) : list (string * string) :=
  let (f, v) := fv in
  match v with
  | VString s =>
      if customer_tagged f then
        if has_suffix (f_query f) "omitempty" && is_zero v then []
        else [(customer_key f, s)]
      else []
  | _ => []
  end.

Lemma customer_op_key fv kv : In kv (customer_op fv) -> fst kv = customer_key (fst fv).
Proof.
  destruct fv as [f v]; unfold customer_op; cbn [fst].
  destruct v; try (intros []).
  destruct (customer_tagged f); [|intros []].
  destruct (_ && _); [intros [] | intros [<-|[]]; reflexivity].
Qed.

Lemma customer_op_tagged fv : customer_op fv <> [] -> customer_tagged (fst fv) = true.
Proof.
  destruct fv as [f v]; unfold customer_op; cbn [fst].
  destruct v; try (intros H; exfalso; apply H; reflexivity).
  destruct (customer_tagged f); [reflexivity | intros H; exfalso; apply H; reflexivity].
Qed.

Lemma customer_op_step acc fv : customer_detail_field acc fv = fold_left add_op (customer_op fv) acc.
Proof.
  destruct fv as [f v]; unfold customer_detail_field, customer_op, customer_tagged, customer_key.
  destruct v; try reflexivity.
  destruct (negb _); [|reflexivity].
  destruct (_ && _); reflexivity.
Qed.

Lemma customer_op_length fv : length (customer_op fv) <= 1.
Proof.
  destruct fv as [f v]; unfold customer_op.
  destruct v; cbn; try lia.
  destruct (customer_tagged f); [|cbn; lia].
  destruct (_ && _); cbn; lia.
Qed.

Lemma customer_Detail_keys_nodup :
  NoDup (map customer_key (filter customer_tagged customer_Detail_fields)).
Proof. apply nodupb_NoDup; vm_compute; reflexivity. Qed.

(** [SignUpForm.URLValues]: a form the validator rejects gives an empty
    set and the error. Otherwise, whatever order the goroutines take the
    mutex in, each field with a query tag is sent once under its key (its
    text, or ["true"]/["false"] for a boolean), except a zero field whose
    tag ends in [omitempty]; and every key sent is the key of a tagged
    field, so [CustomerID] (no query tag) is never sent. *)
Theorem SignUpForm_URLValues_sent validate r out :
  of_struct SignUpForm_fields r ->
  SignUpForm_URLValues validate r out ->
  match validate r with
  | Some e => out = ([], Some e)
  | None =>
      snd out = None /\
      (forall f v, In (f, v) r -> f_query f <> EmptyString ->
         values_lookup (signup_key f) (fst out) =
         if has_suffix (f_query f) "omitempty" && is_zero v then None
         else option_map (fun s => [s]) (signup_sent v)) /\
      (forall K l, values_lookup K (fst out) = Some l ->
         exists f, In f SignUpForm_fields /\ f_query f <> EmptyString /\ K = signup_key f)
  end.
Proof.
  intros Hs Hout; destruct Hout as [e He | sched Hv Hp].
  - rewrite He; reflexivity.
  - rewrite Hv; cbn [fst snd]; split; [reflexivity | split].
    + intros f v Hin Hq.
      assert (Hf : signup_tagged f = true)
        by (unfold signup_tagged; apply negb_true_iff, String.eqb_neq, Hq).
      assert (Hnd : NoDup (map signup_key (filter signup_tagged (map fst r))))
        by (unfold of_struct in Hs; rewrite Hs; apply SignUpForm_keys_nodup).
      rewrite (fold_ops_lookup signup_key signup_tagged signup_op signup_op_key signup_op_tagged
                 signup_field r sched f v signup_op_step signup_op_length Hnd Hp Hin Hf).
      unfold signup_op; cbv beta iota; rewrite Hf.
      destruct (_ && _); [reflexivity|]; destruct v; reflexivity.
    + intros K l Hl.
      destruct (fold_ops_origin signup_key signup_op signup_op_key
                  signup_field r sched K l signup_op_step Hp Hl) as [[f v] [Hin [Hop HK]]].
      exists f; split; [|split; [|exact HK]].
      * unfold of_struct in Hs; rewrite <- Hs; apply (in_map fst) in Hin; exact Hin.
      * pose proof (signup_op_tagged (f, v) Hop) as Ht; cbn [fst] in Ht.
        unfold signup_tagged in Ht; apply negb_true_iff, String.eqb_neq in Ht; exact Ht.
Qed.

(** The field goroutines of the customer [Detail.URLValues], in whatever
    order they take the mutex: each string field with a query tag other
    than ["-"] is sent once under its key, an empty one included unless
    its tag ends in [omitempty]; every key sent is the key of such a
    field. *)
Theorem customer_Detail_URLValues_any_order c sched :
  of_struct customer_Detail_fields c -> Permutation sched c ->
  (forall f s, In (f, VString s) c -> untagged (f_query f) = false ->
     values_lookup (customer_key f) (fold_left customer_detail_field sched []) =
     if has_suffix (f_query f) "omitempty" && String.eqb s EmptyString then None
     else Some [s]) /\
  (forall K l, values_lookup K (fold_left customer_detail_field sched []) = Some l ->
     exists f s, In (f, VString s) c /\ untagged (f_query f) = false /\ K = customer_key f).
Proof.
  intros Hs Hp; split.
  - intros f s Hin Hq.
    assert (Hf : customer_tagged f = true) by (unfold customer_tagged; rewrite Hq; reflexivity).
    assert (Hnd : NoDup (map customer_key (filter customer_tagged (map fst c))))
      by (unfold of_struct in Hs; rewrite Hs; apply customer_Detail_keys_nodup).
    rewrite (fold_ops_lookup customer_key customer_tagged customer_op customer_op_key
               customer_op_tagged customer_detail_field c sched f (VString s)
               customer_op_step customer_op_length Hnd Hp Hin Hf).
    unfold customer_op; cbv beta iota; rewrite Hf.
    destruct (_ && _); reflexivity.
  - intros K l Hl.
    destruct (fold_ops_origin customer_key customer_op customer_op_key
                customer_detail_field c sched K l customer_op_step Hp Hl)
      as [[f v] [Hin [Hop HK]]].
    destruct v as [s| | |]; try (exfalso; apply Hop; reflexivity).
    exists f, s; split; [exact Hin | split; [|exact HK]].
    pose proof (customer_op_tagged (f, VString s) Hop) as Ht; cbn [fst] in Ht.
    unfold customer_tagged in Ht; apply negb_true_iff in Ht; exact Ht.
Qed.

(** A sign-up form with an empty optional line and the three consents. *)
Definition signup_example : record :=
  map (fun f => (f,
         if existsb (String.eqb (f_name f)) ["SmsConcent"; "EmailMarketingConcent"; "AcceptPolicy"]
         then VBool (String.eqb (f_name f) "AcceptPolicy")
         else if String.eqb (f_name f) "AddressLine2" then VString EmptyString
         else VString (f_name f)))
      SignUpForm_fields.

Lemma SignUpForm_URLValues_sent_witness :
  of_struct SignUpForm_fields signup_example /\
  SignUpForm_URLValues (fun _ => None) signup_example
    (fold_left signup_field (rev signup_example) [], None) /\
  match (fun _ : record => @None error) signup_example with
  | Some e => (fold_left signup_field (rev signup_example) [], @None error) = ([], Some e)
  | None =>
      snd (fold_left signup_field (rev signup_example) [], @None error) = None /\
      (forall f v, In (f, v) signup_example -> f_query f <> EmptyString ->
         values_lookup (signup_key f) (fst (fold_left signup_field (rev signup_example) [], @None error)) =
         if has_suffix (f_query f) "omitempty" && is_zero v then None
         else option_map (fun s => [s]) (signup_sent v)) /\
      (forall K l, values_lookup K (fst (fold_left signup_field (rev signup_example) [], @None error))
                     = Some l ->
         exists f, In f SignUpForm_fields /\ f_query f <> EmptyString /\ K = signup_key f)
  end.
Proof.
  assert (H1 : of_struct SignUpForm_fields signup_example) by (vm_compute; reflexivity).
  assert (H2 : SignUpForm_URLValues (fun _ => None) signup_example
                 (fold_left signup_field (rev signup_example) [], None)).
  { apply signup_run; [reflexivity | apply Permutation_sym, Permutation_rev]. }
  split; [exact H1 | split; [exact H2 |]].
  exact (SignUpForm_URLValues_sent (fun _ => None) signup_example _ H1 H2).
Defined.

Definition customer_Detail_named : record :=
  set_field "Name" (VString "N") customer_Detail_zero.

Lemma customer_Detail_URLValues_any_order_witness :
  of_struct customer_Detail_fields customer_Detail_named /\
  Permutation (rev customer_Detail_named) customer_Detail_named /\
  (forall f s, In (f, VString s) customer_Detail_named -> untagged (f_query f) = false ->
     values_lookup (customer_key f) (fold_left customer_detail_field (rev customer_Detail_named) []) =
     if has_suffix (f_query f) "omitempty" && String.eqb s EmptyString then None
     else Some [s]) /\
  (forall K l, values_lookup K (fold_left customer_detail_field (rev customer_Detail_named) []) = Some l ->
     exists f s, In (f, VString s) customer_Detail_named /\ untagged (f_query f) = false /\
                 K = customer_key f).
Proof.
  assert (H1 : of_struct customer_Detail_fields customer_Detail_named) by (vm_compute; reflexivity).
  assert (H2 : Permutation (rev customer_Detail_named) customer_Detail_named)
    by (apply Permutation_sym, Permutation_rev).
  split; [exact H1 | split; [exact H2 |]].
  exact (customer_Detail_URLValues_any_order customer_Detail_named _ H1 H2).
Defined.

(** ** The login URL *)

Fixpoint slashes (n : nat) : string :=
  match n with
  | 0 => EmptyString
  | S n' => String "/" (slashes n')
  end.

(** The bytes that would end or split a query value. *)
Definition url_special (c : ascii) : bool :=
  existsb (Ascii.eqb c) ["&"; "="; "#"; "?"; "/"; " "]%char.

Lemma str_app_nil_r s : s ++ EmptyString = s.
Proof. induction s as [| c s IH]; cbn; [reflexivity | rewrite IH; reflexivity]. Qed.

Lemma string_existsb_app p a b :
  string_existsb p (a ++ b) = string_existsb p a || string_existsb p b.
Proof. induction a as [| c a IH]; cbn; [reflexivity | rewrite IH, orb_assoc; reflexivity]. Qed.

Lemma query_escape_cons c s :
  query_escape (String c s) = query_escape (String c EmptyString) ++ query_escape s.
Proof. cbn [query_escape]; rewrite str_app_nil_r; reflexivity. Qed.

Lemma query_escape_char_safe c :
  string_existsb url_special (query_escape (String c EmptyString)) = false.
Proof. destruct c as [[] [] [] [] [] [] [] []]; vm_compute; reflexivity. Qed.

Lemma query_escape_safe s : string_existsb url_special (query_escape s) = false.
Proof.
  induction s as [| c s IH]; [reflexivity|].
  rewrite query_escape_cons, string_existsb_app, query_escape_char_safe, IH; reflexivity.
Qed.

Lemma trim_right_slash_spec s :
  exists n, s = trim_right_slash s ++ slashes n /\ forall p, trim_right_slash s <> p ++ "/".
Proof.
  induction s as [| c s [n [Hs Hno]]].
  - exists 0; split; [reflexivity|]; intros [| a p]; discriminate.
  - cbn [trim_right_slash].
    destruct (String.eqb_spec (trim_right_slash s) EmptyString) as [He|He];
      destruct (Ascii.eqb_spec c "/") as [->|Hc]; cbn [andb].
    1: { exists (S n); split; [rewrite Hs at 1; rewrite He; reflexivity|].
         intros [| a p]; discriminate. }
    all: exists n; split; [rewrite Hs at 1; reflexivity|].
    all: intros [| a p] E; cbn in E; injection E; intros; subst;
           first [congruence | eapply Hno; eassumption].
Qed.

(** [loginToken.LoginURL]: the base URL without its trailing slashes
    (nothing else removed, and no slash put back), then
    [servlet/AutoLoginServlet?role=customer&userLoginId=] and the escaped
    token, which holds none of [&], [=], [#], [?], [/] or a space. *)
Theorem loginToken_LoginURL_shape t :
  loginToken_LoginURL t =
    trim_right_slash (baseURL t) ++ "servlet/AutoLoginServlet?role=customer&userLoginId="
      ++ query_escape (token t) /\
  string_existsb url_special (query_escape (token t)) = false /\
  exists n, baseURL t = trim_right_slash (baseURL t) ++ slashes n /\
            forall p, trim_right_slash (baseURL t) <> p ++ "/".
Proof.
  split; [|split; [apply query_escape_safe | apply trim_right_slash_spec]].
  destruct t as [tok b]; unfold loginToken_LoginURL, loginToken_URLFullPath, loginToken_String.
  cbn [token baseURL]; f_equal; reflexivity.
Qed.

(** ** The API operations *)


Lemma fold_add_key K l d :
  fold_left (fun acc x => values_add K x acc) l d = fold_left add_op (map (fun x => (K, x)) l) d.
Proof. revert d; induction l as [| x l IH]; intros d; [reflexivity | apply IH]. Qed.

Lemma vals_for_key K K' l :
  vals_for K' (map (fun x => (K, x)) l) = if String.eqb K K' then l else [].
Proof.
  unfold vals_for; induction l as [| x l IH]; cbn [map filter fst].
  - destruct (String.eqb K K'); reflexivity.
  - destruct (String.eqb K K') eqn:E; cbn [map snd]; rewrite IH; reflexivity.
Qed.

(** The values under [K'] after adding every element of [l] under [K]. *)
Lemma values_lookup_fold_add K K' l d :
  values_lookup K' (fold_left (fun acc x => values_add K x acc) l d) =
  if String.eqb K K' then
    match l with [] => values_lookup K' d | _ => Some (values_get K' d ++ l)%list end
  else values_lookup K' d.
Proof.
  rewrite fold_add_key, values_lookup_adds_acc, vals_for_key.
  destruct (String.eqb K K'); [destruct l; reflexivity | reflexivity].
Qed.

Lemma attr_name_key_prefix i c s :
  (c <> "a")%char -> attr_name_key i <> String c s.
Proof. intros Hc E; injection E as E _; exact (Hc (eq_sym E)). Qed.

Lemma attr_value_key_prefix i c s :
  (c <> "a")%char -> attr_value_key i <> String c s.
Proof. intros Hc E; injection E as E _; exact (Hc (eq_sym E)). Qed.

(** Keys that do not begin with [a] are never attribute keys. *)
Lemma not_attr_key c s :
  (c <> "a")%char -> forall i, String c s <> attr_name_key i /\ String c s <> attr_value_key i.
Proof.
  intros Hc i; split; intros E; symmetry in E.
  - exact (attr_name_key_prefix i c s Hc E).
  - exact (attr_value_key_prefix i c s Hc E).
Qed.


Section OperationProperties.

Variable validate : record -> option error.
Variable decode_other : field -> json -> result value.
Variable iter : list (string * string) -> list (string * string).
Variable call : request -> result (Z * string).
Variable rgx_email : string -> bool.
Variable ErrRcInvalidCredential : error.

(** The operations that check an identifier against [core.RgxNumber]
    first answer an identifier it rejects with their error and send no
    request: the customer [Suspension], [Delete], [GenerateOTP],
    [VerifyOTP] (with [false]) and [GenerateLoginToken], and the contact
    [Delete], [Details], [AddExtraDetails] and [ValidateRegistrant]. *)
Theorem operations_reject_non_numeric_id id :
  rgx_number id = false ->
  (forall toggle reason,
     customer_Suspension decode_other call ErrRcInvalidCredential toggle id reason
       = (Some ErrRcInvalidCredential, [])) /\
  customer_Delete decode_other call ErrRcInvalidCredential id = (Some ErrRcInvalidCredential, []) /\
  customer_GenerateOTP decode_other call ErrRcInvalidCredential id
    = (Some ErrRcInvalidCredential, []) /\
  (forall otp authType,
     customer_VerifyOTP decode_other call ErrRcInvalidCredential id otp authType
       = ((false, Some ErrRcInvalidCredential), [])) /\
  (forall isProduction ip dashboardBaseURL,
     customer_GenerateLoginToken decode_other call isProduction id ip dashboardBaseURL
       = (Err (ErrNew "invalid format on customerid"), [])) /\
  contact_Delete decode_other call ErrRcInvalidCredential id = (Err ErrRcInvalidCredential, []) /\
  contact_Details decode_other call ErrRcInvalidCredential id = (Err ErrRcInvalidCredential, []) /\
  (forall attributes domainKeys err reqs,
     contact_AddExtraDetails decode_other call ErrRcInvalidCredential id attributes domainKeys err reqs ->
     err = Some ErrRcInvalidCredential /\ reqs = []) /\
  (forall eligibilities out,
     contact_ValidateRegistrant_request ErrRcInvalidCredential id eligibilities out ->
     out = Err ErrRcInvalidCredential).
Proof.
  intros H.
  unfold customer_Suspension, customer_Delete, customer_GenerateOTP, customer_VerifyOTP,
    customer_GenerateLoginToken, contact_Delete, contact_Details; rewrite H; cbn [negb].
  do 7 (split; [intros; reflexivity|]); split.
  - intros attributes domainKeys err reqs Hx; inversion Hx; subst; [split; reflexivity | congruence..].
  - intros eligibilities out Hx; inversion Hx; subst; [reflexivity | congruence..].
Qed.



(** [ChangePassword] and [GenerateToken] refuse, before any request, a
    password shorter than 9 or longer than 16 bytes, or without a
    lower-case letter, an upper-case letter or one of the symbols
    [~*!@$#%_+.?:,{}]. *)
Theorem password_checked_before_call customerID password username ip :
  (String.length password < 9 \/ 16 < String.length password \/
   string_existsb is_lower password = false \/ string_existsb is_upper password = false \/
   string_existsb is_password_symbol password = false) ->
  customer_ChangePassword decode_other call customerID password
    = (Some (ErrNew "invalid password format"), []) /\
  customer_GenerateToken decode_other call rgx_email username password ip
    = ((EmptyString, Some (ErrNew "invalid format on password")), []).
Proof.
  intros H.
  assert (Hm : matchPasswordWithPattern password true = false).
  { unfold matchPasswordWithPattern; cbn [andb].
    destruct (Nat.ltb_spec (String.length password) 9);
      destruct (Nat.ltb_spec 16 (String.length password)); cbn [orb]; try reflexivity.
    destruct H as [H|[H|[H|[H|H]]]]; try lia; rewrite H, ?andb_false_r; reflexivity. }
  unfold customer_ChangePassword, customer_GenerateToken; rewrite Hm; split; reflexivity.
Qed.

(** The customer [Details] looks an e-mail address up by [username] with
    [details] (even if it also matches [RgxNumber]), an identifier
    [RgxNumber] accepts by [customer-id] with [details-by-id], and sends
    nothing for anything else. *)
Theorem customer_Details_dispatch s :
  (rgx_email s = true ->
   snd (customer_Details decode_other call rgx_email ErrRcInvalidCredential s)
     = [mkRequest MethodGet "customers" "details" [("username", [s])]]) /\
  (rgx_email s = false -> rgx_number s = true ->
   snd (customer_Details decode_other call rgx_email ErrRcInvalidCredential s)
     = [mkRequest MethodGet "customers" "details-by-id" [("customer-id", [s])]]) /\
  (rgx_email s = false -> rgx_number s = false ->
   customer_Details decode_other call rgx_email ErrRcInvalidCredential s
     = (Err ErrRcInvalidCredential, [])).
Proof.
  unfold customer_Details; split; [|split].
  - intros He; rewrite He; cbn [values_add].
    destruct (call_body _ _ _); reflexivity.
  - intros He Hn; rewrite He, Hn; cbn [values_add].
    destruct (call_body _ _ _); reflexivity.
  - intros He Hn; rewrite He, Hn; reflexivity.
Qed.

(** [SetDefault] checks the list of types first: an empty one is refused,
    with no request, whatever the identifiers. With types and five
    numeric identifiers it sends each identifier once under its key and
    the types in their order under [type], and answers no error on a 200
    status whatever the body says. *)
Theorem contact_SetDefault_request customerID regContactID adminContactID techContactID
    billContactID types :
  let out := contact_SetDefault decode_other call ErrRcInvalidCredential customerID regContactID
               adminContactID techContactID billContactID types in
  (types = [] -> out = (Some (ErrNew "contact types must not empty"), [])) /\
  (types <> [] ->
   rgx_number customerID = true -> rgx_number regContactID = true ->
   rgx_number adminContactID = true -> rgx_number techContactID = true ->
   rgx_number billContactID = true ->
   exists req, snd out = [req] /\ req_func req = "modDefault" /\
     values_lookup "type" (req_data req) = Some types /\
     values_lookup "customer-id" (req_data req) = Some [customerID] /\
     values_lookup "reg-contact-id" (req_data req) = Some [regContactID] /\
     values_lookup "admin-contact-id" (req_data req) = Some [adminContactID] /\
     values_lookup "tech-contact-id" (req_data req) = Some [techContactID] /\
     values_lookup "billing-contact-id" (req_data req) = Some [billContactID] /\
     forall body, call req = Ok (StatusOK, body) -> fst out = None).
Proof.
  cbv zeta; split; [intros ->; reflexivity|].
  intros Ht H1 H2 H3 H4 H5; unfold contact_SetDefault.
  destruct types as [| t0 ts]; [congruence|].
  rewrite H1, H2, H3, H4, H5; cbn [negb orb]; cbv zeta.
  eexists; split; [destruct (call_body _ _ _); reflexivity|].
  split; [reflexivity|].
  unfold add_types; cbn [req_data]; rewrite !values_lookup_fold_add.
  split; [reflexivity|].
  do 5 (split; [reflexivity|]).
  intros body Hc; unfold call_body; rewrite Hc; reflexivity.
Qed.

(** [Default] refuses an empty list of types first, then a customer
    identifier [RgxNumber] rejects, with no request; otherwise it sends
    the identifier under [customer-id] and the types in order under
    [type]. *)
Theorem contact_Default_request customerID types :
  let out := contact_Default decode_other iter call ErrRcInvalidCredential customerID types in
  (types = [] -> out = (Err (ErrNew "contact types must not empty"), [])) /\
  (types <> [] -> rgx_number customerID = false -> out = (Err ErrRcInvalidCredential, [])) /\
  (types <> [] -> rgx_number customerID = true ->
   exists req, snd out = [req] /\ req_func req = "default" /\
     values_lookup "customer-id" (req_data req) = Some [customerID] /\
     values_lookup "type" (req_data req) = Some types).
Proof.
  cbv zeta; split; [intros ->; reflexivity|]; unfold contact_Default.
  split; intros Ht Hn; (destruct types as [| t0 ts]; [congruence|]); rewrite Hn; cbn [negb].
  - reflexivity.
  - cbv zeta; eexists; split; [destruct (call _) as [[? ?]|?]; reflexivity|].
    split; [reflexivity|].
    unfold add_types; cbn [req_data]; rewrite !values_lookup_fold_add.
    split; reflexivity.
Qed.

Lemma contact_Search_response_echo decode_other' iter' limit offset status body res :
  contact_Search_response decode_other' iter' limit offset status body = Ok res ->
  RequestedLimit res = limit /\ RequestedOffset res = offset.
Proof.
  unfold contact_Search_response; destruct (negb _); [discriminate|].
  unfold bind; destruct (unmarshal_raw_map _) as [buffer|]; [|discriminate].
  destruct (contact_search_loop _ _ _ _) as [[bufs n]|]; [|discriminate].
  intros H; injection H as <-; split; reflexivity.
Qed.

Lemma fold_add_op_other K ops acc :
  (forall op, In op ops -> fst op <> K) ->
  values_lookup K (fold_left add_op ops acc) = values_lookup K acc.
Proof.
  revert acc; induction ops as [| op ops IH]; intros acc H; [reflexivity|].
  cbn [fold_left]; rewrite IH by (intros op' Hop; apply H; right; exact Hop).
  unfold add_op; rewrite values_lookup_add.
  rewrite (proj2 (String.eqb_neq (fst op) K) (H op (or_introl eq_refl))); reflexivity.
Qed.

Lemma criteria_adds_key fv op :
  In op (criteria_adds fv) -> fst op = trim_suffix (f_query (fst fv)) ",optional".
Proof.
  unfold criteria_adds; destruct (criteria_skipped fv); [intros []|].
  destruct fv as [f v]; cbn [fst].
  destruct v as [s | b | [l|] | o]; cbn.
  - intros [<- | []]; reflexivity.
  - intros [<- | []]; reflexivity.
  - intros Hin; apply in_map_iff in Hin as [x [<- _]]; reflexivity.
  - intros [].
  - intros [].
Qed.

Lemma contact_Criteria_keys_not_paging :
  forallb (fun f => negb (String.eqb (trim_suffix (f_query f) ",optional") "no-of-records") &&
                    negb (String.eqb (trim_suffix (f_query f) ",optional") "page-no"))
          contact_Criteria_fields = true.
Proof. vm_compute; reflexivity. Qed.

Lemma contact_Criteria_named_query :
  forallb (fun f => negb (criteria_named_string f) || String.eqb (f_query f) "type,optional")
          contact_Criteria_fields = true.
Proof. vm_compute; reflexivity. Qed.

(** On a [contact.Criteria], a field goroutine panics exactly when the
    [Type] field is set. *)
Lemma contact_Criteria_panics c :
  of_struct contact_Criteria_fields c ->
  existsb criteria_panics c = true <->
  exists f s, In (f, VString s) c /\ f_name f = "Type" /\ s <> EmptyString.
Proof.
  intros Hc.
  assert (Hq : forall f v, In (f, v) c -> f_name f = "Type" -> f_query f = "type,optional").
  { intros f v Hin Hn.
    assert (Hf : In f contact_Criteria_fields)
      by (unfold of_struct in Hc; rewrite <- Hc; exact (in_map fst c (f, v) Hin)).
    pose proof contact_Criteria_named_query as Hall; rewrite forallb_forall in Hall.
    specialize (Hall f Hf); unfold criteria_named_string in Hall; rewrite Hn in Hall.
    cbn in Hall; apply String.eqb_eq in Hall; exact Hall. }
  rewrite existsb_exists; split.
  - intros [[f v] [Hin Hp]].
    unfold criteria_panics, criteria_named_string in Hp; cbn [fst snd] in Hp.
    apply andb_true_iff in Hp as [Hp Hn]; apply andb_true_iff in Hp as [Hsk Hk].
    apply String.eqb_eq in Hn.
    destruct v as [s | | |]; try discriminate Hk.
    exists f, s; split; [exact Hin | split; [exact Hn |]].
    unfold criteria_skipped in Hsk; rewrite (Hq f _ Hin Hn) in Hsk.
    intros ->; discriminate Hsk.
  - intros (f & s & Hin & Hn & Hs).
    exists (f, VString s); split; [exact Hin|].
    unfold criteria_panics, criteria_skipped, criteria_named_string; cbn [fst snd].
    rewrite (Hq f _ Hin Hn), Hn; cbn.
    destruct s; [contradiction | reflexivity].
Qed.

(** The contact [Search] refuses a zero offset or limit with no request.
    Otherwise, for a [contact.Criteria] the validator accepts, it panics
    exactly when the [Type] field is set (the assertion
    [vField.Interface().(string)] fails on a [contact.Type]); when it
    returns, it has sent one search request with the limit once under
    [no-of-records] and the offset once under [page-no] (no criteria field
    uses these keys), and a result it returns echoes the limit and the
    offset. *)
Theorem contact_Search_paging criteria offset limit out :
  contact_Search validate decode_other iter call criteria offset limit out ->
  (offset = 0 \/ limit = 0 ->
   out = Returned (Err (ErrNew "offset or limit must greater than zero"), [])) /\
  (offset <> 0 -> limit <> 0 -> of_struct contact_Criteria_fields criteria ->
   validate criteria = None ->
   (out = Panicked <->
    exists f s, In (f, VString s) criteria /\ f_name f = "Type" /\ s <> EmptyString) /\
   (forall res reqs, out = Returned (res, reqs) ->
    exists req, reqs = [req] /\ req_func req = "search" /\
      values_lookup "no-of-records" (req_data req) = Some [itoa limit] /\
      values_lookup "page-no" (req_data req) = Some [itoa offset] /\
      forall r, res = Ok r ->
        RequestedLimit r = Z.of_nat limit /\ RequestedOffset r = Z.of_nat offset)).
Proof.
  intros H; split.
  { intros Hb; destruct H as [| e Ho Hl | Ho Hl | odata e Ho Hl | data Ho Hl];
      first [reflexivity | destruct Hb; contradiction]. }
  intros Ho Hl Hs Hv.
  pose proof (contact_Criteria_panics criteria Hs) as Hpan.
  split; [split|].
  - intros ->.
    inversion H as [| | Ho' Hl' Hv' Hc | |]; subst.
    inversion Hc as [| Hv'' Hp |]; subst; apply Hpan; exact Hp.
  - intros Hex; apply Hpan in Hex.
    destruct H as [Hb | e Ho' Hl' Hv' | Ho' Hl' Hv' Hc | odata e Ho' Hl' Hv' Hc | data Ho' Hl' Hv' Hc].
    + destruct Hb; contradiction.
    + congruence.
    + reflexivity.
    + inversion Hc; congruence.
    + inversion Hc; congruence.
  - intros res reqs Hout.
    destruct H as [Hb | e Ho' Hl' Hv' | Ho' Hl' Hv' Hc | odata e Ho' Hl' Hv' Hc | data Ho' Hl' Hv' Hc];
      [destruct Hb; contradiction | congruence | discriminate | inversion Hc; congruence |].
    injection Hout as Hout; unfold contact_search_call in Hout.
    inversion Hc as [| | ops Hv'' Hp Hperm]; subst data.
    assert (Hkeys : forall K, K = "no-of-records" \/ K = "page-no" ->
              values_lookup K (fold_left add_op ops []) = None).
    { intros K HK; rewrite fold_add_op_other; [reflexivity|].
      intros op Hop E.
      apply (Permutation_in _ Hperm), in_flat_map in Hop as [fv [Hfv Hop]].
      apply criteria_adds_key in Hop; rewrite Hop in E.
      assert (Hf : In (fst fv) contact_Criteria_fields)
        by (unfold of_struct in Hs; rewrite <- Hs; apply in_map, Hfv).
      pose proof contact_Criteria_keys_not_paging as Hall.
      rewrite forallb_forall in Hall; specialize (Hall _ Hf); rewrite E in Hall.
      destruct HK as [-> | ->]; vm_compute in Hall; discriminate. }
    destruct (call _) as [[status body]|e] eqn:Ec; injection Hout as <- <-;
      (eexists; split; [reflexivity|]); (split; [reflexivity|]); cbn [req_data];
      (split; [|split]).
    + rewrite values_lookup_add; change (String.eqb "page-no" "no-of-records") with false.
      rewrite values_lookup_add, String.eqb_refl, (Hkeys "no-of-records" (or_introl eq_refl)).
      reflexivity.
    + rewrite values_lookup_add, String.eqb_refl, values_lookup_add.
      change (String.eqb "no-of-records" "page-no") with false.
      rewrite (Hkeys "page-no" (or_intror eq_refl)); reflexivity.
    + apply contact_Search_response_echo.
    + rewrite values_lookup_add; change (String.eqb "page-no" "no-of-records") with false.
      rewrite values_lookup_add, String.eqb_refl, (Hkeys "no-of-records" (or_introl eq_refl)).
      reflexivity.
    + rewrite values_lookup_add, String.eqb_refl, values_lookup_add.
      change (String.eqb "no-of-records" "page-no") with false.
      rewrite (Hkeys "page-no" (or_intror eq_refl)); reflexivity.
    + discriminate.
Qed.

(** [AddExtraDetails] refuses a nil attribute map or an empty list of
    domain keys with no request. Otherwise its one request carries the
    contact identifier once, the domain keys under [product-key] in some
    order, and one [attr-name{i}]/[attr-value{i}] pair per index from 1
    to the number of attributes, holding the key and the value of one
    attribute, every attribute under some index; its error is that of
    the boolean answer. *)
Theorem contact_AddExtraDetails_request id attributes domainKeys err reqs :
  contact_AddExtraDetails decode_other call ErrRcInvalidCredential id attributes domainKeys err reqs ->
  (rgx_number id = true -> (attributes = None \/ domainKeys = []) ->
   err = Some (ErrNew "attributes and domain keys cannot be nil or empty") /\ reqs = []) /\
  (forall attrs, attributes = Some attrs -> domainKeys <> [] -> rgx_number id = true ->
   exists req, reqs = [req] /\ err = call_bool decode_other call req /\
     req_func req = "set-details" /\
     values_lookup "contact-id" (req_data req) = Some [id] /\
     (exists keys, values_lookup "product-key" (req_data req) = Some keys /\
                   Permutation keys domainKeys) /\
     (forall i, 1 <= i <= length attrs -> exists k v, In (k, v) attrs /\
        values_lookup (attr_name_key i) (req_data req) = Some [k] /\
        values_lookup (attr_value_key i) (req_data req) = Some [v]) /\
     (forall k v, In (k, v) attrs -> exists i, 1 <= i <= length attrs /\
        values_lookup (attr_name_key i) (req_data req) = Some [k] /\
        values_lookup (attr_value_key i) (req_data req) = Some [v])).
Proof.
  intros Hx; split.
  { intros Hn Hor; destruct Hx as [H0 | H0 H1 | attrs0 data ord H0 H1 H2 Hcopy Hperm];
      [congruence | split; reflexivity | destruct Hor; congruence]. }
  intros attrs Ha Hk Hn.
  destruct Hx as [H0 | H0 H1 | attrs0 data ord H0 H1 H2 Hcopy Hperm];
    [congruence | destruct H1; congruence |].
  assert (attrs0 = attrs) by congruence; subst attrs0.
  destruct (copy_to_map _ _ _ Hcopy) as [Hframe [Hidx Hcov]].
  eexists; split; [reflexivity|]; split; [reflexivity|]; split; [reflexivity|].
  cbn [req_data].
  assert (HD : forall c s, (c <> "a")%char ->
                 values_lookup (String c s) data
                 = values_lookup (String c s) (values_add "contact-id" id [])).
  { intros c s Hc; apply Hframe, not_attr_key, Hc. }
  assert (Hg : forall i, values_get (attr_name_key i) (values_add "contact-id" id []) = [] /\
                         values_get (attr_value_key i) (values_add "contact-id" id []) = []).
  { intros i; split; reflexivity. }
  split; [|split; [|split]].
  - rewrite values_lookup_fold_add; change (String.eqb "product-key" "contact-id") with false.
    rewrite HD by discriminate; reflexivity.
  - rewrite values_lookup_fold_add, String.eqb_refl.
    destruct ord as [| o os]; [apply Permutation_nil in Hperm; congruence|].
    exists (o :: os); split; [|exact Hperm].
    unfold values_get at 1; rewrite HD by discriminate; reflexivity.
  - intros i Hi; destruct (Hidx i Hi) as [k [v [Hin [A B]]]].
    exists k, v; split; [exact Hin|].
    rewrite !values_lookup_fold_add.
    change (String.eqb "product-key" (attr_name_key i)) with false.
    change (String.eqb "product-key" (attr_value_key i)) with false.
    rewrite A, B, (proj1 (Hg i)), (proj2 (Hg i)); split; reflexivity.
  - intros k v Hin; destruct (Hcov k v Hin) as [i [Hi [A B]]].
    exists i; split; [exact Hi|].
    rewrite !values_lookup_fold_add.
    change (String.eqb "product-key" (attr_name_key i)) with false.
    change (String.eqb "product-key" (attr_value_key i)) with false.
    rewrite A, B, (proj1 (Hg i)), (proj2 (Hg i)); split; reflexivity.
Qed.

(** [ValidateRegistrant] refuses an empty list of eligibilities with no
    request; otherwise it sends the contact identifier once and the
    eligibilities, in some order, under [eligibility-criteria]. *)
Theorem contact_ValidateRegistrant_sends id eligibilities out :
  contact_ValidateRegistrant_request ErrRcInvalidCredential id eligibilities out ->
  (rgx_number id = true -> eligibilities = [] -> out = Err (ErrNew "eligibilities must not empty")) /\
  (rgx_number id = true -> eligibilities <> [] ->
   exists req, out = Ok req /\ req_method req = MethodGet /\ req_func req = "validate-registrant" /\
     values_lookup "contact-id" (req_data req) = Some [id] /\
     exists l, values_lookup "eligibility-criteria" (req_data req) = Some l /\
               Permutation l eligibilities).
Proof.
  intros Hx; split.
  - intros Hn He; destruct Hx; [congruence | reflexivity | congruence].
  - intros Hn He; destruct Hx as [H0 | H0 H1 | ord H0 H1 Hperm]; try congruence.
    eexists; split; [reflexivity|]; split; [reflexivity|]; split; [reflexivity|].
    cbn [req_data]; rewrite !values_lookup_fold_add.
    change (String.eqb "eligibility-criteria" "contact-id") with false; split; [reflexivity|].
    rewrite String.eqb_refl.
    destruct ord as [| o os]; [apply Permutation_nil in Hperm; congruence|].
    exists (o :: os); split; [reflexivity | exact Hperm].
Qed.

(** The contact [Add] refuses a nil [Detail], and returns the encoder's
    error, with no request. Otherwise its one request carries the
    encoded parameters unchanged (besides the attribute keys), plus, when
    attributes are given, one [attr-name{i}]/[attr-value{i}] pair per
    index from 1 to the number of attributes, holding the key and the
    value of one attribute, every attribute under some index. A 200
    answer sets the [ID] of the [Detail] to the raw body; a failed call or
    another status returns the error and leaves the [Detail] as it was. *)
Theorem contact_Add_request details attributes err details' reqs :
  contact_Add validate decode_other call details attributes err details' reqs ->
  (details = None -> err = Some (ErrNew "detail must not nil") /\ reqs = []) /\
  (forall d e odata, details = Some d -> contact_Detail_URLValues validate d = (odata, Some e) ->
   err = Some e /\ details' = Some d /\ reqs = []) /\
  (forall d data, details = Some d -> contact_Detail_URLValues validate d = (Some data, None) ->
   exists req, reqs = [req] /\ req_func req = "add" /\
     (forall K, (forall i, K <> attr_name_key i /\ K <> attr_value_key i) ->
        values_lookup K (req_data req) = values_lookup K data) /\
     (attributes = None -> req_data req = data) /\
     (forall attrs, attributes = Some attrs -> forall i, 1 <= i <= length attrs ->
        exists k v, In (k, v) attrs /\
        values_lookup (attr_name_key i) (req_data req)
          = Some (values_get (attr_name_key i) data ++ [k])%list /\
        values_lookup (attr_value_key i) (req_data req)
          = Some (values_get (attr_value_key i) data ++ [v])%list) /\
     (forall attrs, attributes = Some attrs -> forall k v, In (k, v) attrs ->
        exists i, 1 <= i <= length attrs /\
        values_lookup (attr_name_key i) (req_data req)
          = Some (values_get (attr_name_key i) data ++ [k])%list /\
        values_lookup (attr_value_key i) (req_data req)
          = Some (values_get (attr_value_key i) data ++ [v])%list) /\
     (forall body, call req = Ok (StatusOK, body) ->
        err = None /\ details' = Some (set_field "ID" (VString body) d)) /\
     (forall status body, call req = Ok (status, body) -> status <> StatusOK ->
        err = Some (error_envelope decode_other body) /\ details' = Some d) /\
     (forall e, call req = Err e -> err = Some e /\ details' = Some d)).
Proof.
  intros Hx; split; [|split].
  - intros Hd; destruct Hx as [H0 | d0 e0 od H0 H1 | d0 data data' H0 H1 H2];
      [split; reflexivity | congruence | congruence].
  - intros d e odata Hd Hu; destruct Hx as [H0 | d0 e0 od H0 H1 | d0 data data' H0 H1 H2].
    + congruence.
    + rewrite Hd in H0; injection H0 as <-; rewrite Hu in H1; injection H1 as _ <-; auto.
    + rewrite Hd in H0; injection H0 as <-; congruence.
  - intros d data Hd Hu; destruct Hx as [H0 | d0 e0 od H0 H1 | d0 data0 data' H0 H1 H2].
    + congruence.
    + rewrite Hd in H0; injection H0 as <-; congruence.
    + rewrite Hd in H0; injection H0 as <-; rewrite Hu in H1; injection H1 as <-.
      eexists; split; [reflexivity|]; split; [reflexivity|]; cbn [req_data].
      set (r := mkRequest MethodPost "contacts" "add" data').
      assert (Hcall :
        (forall body, call r = Ok (StatusOK, body) ->
           fst (contact_add_finish decode_other call d r) = None /\
           Some (snd (contact_add_finish decode_other call d r))
             = Some (set_field "ID" (VString body) d)) /\
        (forall status body, call r = Ok (status, body) -> status <> StatusOK ->
           fst (contact_add_finish decode_other call d r) = Some (error_envelope decode_other body) /\
           Some (snd (contact_add_finish decode_other call d r)) = Some d) /\
        (forall e, call r = Err e ->
           fst (contact_add_finish decode_other call d r) = Some e /\
           Some (snd (contact_add_finish decode_other call d r)) = Some d)).
      { unfold contact_add_finish, call_body; split; [|split].
        - intros body Hc; rewrite Hc; split; reflexivity.
        - intros status body Hc Hs; rewrite Hc.
          rewrite (proj2 (Z.eqb_neq status StatusOK) Hs); split; reflexivity.
        - intros e Hc; rewrite Hc; split; reflexivity. }
      destruct attributes as [attrs|].
      * destruct (copy_to_map _ _ _ H2) as [Hframe [Hidx Hcov]].
        split; [exact Hframe | split; [discriminate |]].
        split; [intros attrs' Ha; injection Ha as <-; exact Hidx|].
        split; [intros attrs' Ha; injection Ha as <-; exact Hcov|].
        exact Hcall.
      * subst data'.
        split; [intros; reflexivity | split; [intros; reflexivity |]].
        split; [discriminate | split; [discriminate | exact Hcall]].
Qed.

(** [SignUp] returns the encoder's error with no request and the form
    unchanged. Otherwise it sends the encoded parameters once; it answers
    no error only after a 200 answer, and then sets [CustomerID] to the
    raw body; on an error the form is unchanged. *)
Theorem customer_SignUp_outcome regForm encoded err form reqs :
  customer_SignUp decode_other call regForm encoded = ((err, form), reqs) ->
  (forall e, snd encoded = Some e -> err = Some e /\ form = regForm /\ reqs = []) /\
  (snd encoded = None ->
   reqs = [mkRequest MethodPost "customers/v2" "signup" (fst encoded)] /\
   (err = None -> exists body,
      call (mkRequest MethodPost "customers/v2" "signup" (fst encoded)) = Ok (StatusOK, body) /\
      form = set_field "CustomerID" (VString body) regForm) /\
   (err <> None -> form = regForm)).
Proof.
  destruct encoded as [vals [e0|]]; unfold customer_SignUp; cbn [fst snd].
  - intros H; injection H as <- <- <-.
    split; [intros e He; injection He as <-; auto | discriminate].
  - unfold call_body.
    destruct (call _) as [[status body]|e0] eqn:Hc.
    + destruct (Z.eqb_spec status StatusOK) as [->|Hst]; cbn [negb]; intros H;
        injection H as <- <- <-; (split; [discriminate|]); intros _.
      * split; [reflexivity | split; [intros _; exists body; split; reflexivity | congruence]].
      * split; [reflexivity | split; [discriminate | reflexivity]].
    + intros H; injection H as <- <- <-; split; [discriminate|]; intros _.
      split; [reflexivity | split; [discriminate | reflexivity]].
Qed.

(** [GenerateLoginToken] in production refuses a dashboard URL that does
    not match [^https?://.*$], with no request. A token it returns holds
    the raw body of a 200 answer and, as its base, the dashboard URL in
    production and [http://demo.myorderbox.com] otherwise; outside
    production its login URL is therefore
    [http://demo.myorderbox.comservlet/AutoLoginServlet?...], with no
    slash between the host and [servlet]. *)
Theorem customer_GenerateLoginToken_base id ip dashboardBaseURL :
  (rgx_number id = true -> rgx_http_url dashboardBaseURL = false ->
   customer_GenerateLoginToken decode_other call true id ip dashboardBaseURL
     = (Err (ErrNew "dashboard's baseurl is required in production mode"), [])) /\
  (forall isProduction t reqs,
   customer_GenerateLoginToken decode_other call isProduction id ip dashboardBaseURL = (Ok t, reqs) ->
   exists body,
     reqs = [mkRequest MethodGet "customers" "generate-login-token"
               [("customer-id", [id]); ("ip", [ip])]] /\
     call (mkRequest MethodGet "customers" "generate-login-token"
             [("customer-id", [id]); ("ip", [ip])]) = Ok (StatusOK, body) /\
     token t = body /\
     baseURL t = (if isProduction then dashboardBaseURL else "http://demo.myorderbox.com")) /\
  (forall t reqs,
   customer_GenerateLoginToken decode_other call false id ip dashboardBaseURL = (Ok t, reqs) ->
   loginToken_LoginURL t =
     "http://demo.myorderbox.comservlet/AutoLoginServlet?role=customer&userLoginId="
       ++ query_escape (token t)).
Proof.
  assert (Hok : forall isProduction t reqs,
   customer_GenerateLoginToken decode_other call isProduction id ip dashboardBaseURL = (Ok t, reqs) ->
   exists body,
     reqs = [mkRequest MethodGet "customers" "generate-login-token"
               [("customer-id", [id]); ("ip", [ip])]] /\
     call (mkRequest MethodGet "customers" "generate-login-token"
             [("customer-id", [id]); ("ip", [ip])]) = Ok (StatusOK, body) /\
     token t = body /\
     baseURL t = (if isProduction then dashboardBaseURL else "http://demo.myorderbox.com")).
  { intros isProduction t reqs; unfold customer_GenerateLoginToken.
    destruct (rgx_number id); cbn [negb]; [|discriminate].
    cbn [values_add String.eqb Ascii.eqb Bool.eqb andb app].
    destruct (if isProduction then _ else _) as [b|e] eqn:Eb; [|discriminate].
    unfold call_body; destruct (call _) as [[status body]|e] eqn:Hc; [|discriminate].
    destruct (Z.eqb_spec status StatusOK) as [->|Hst]; cbn [negb]; [|discriminate].
    intros H; injection H as <- <-.
    exists body; split; [reflexivity | split; [first [exact Hc | reflexivity] | split; [reflexivity|]]]; cbn [baseURL].
    destruct isProduction; [destruct (rgx_http_url dashboardBaseURL)|];
      first [discriminate | injection Eb as <-; reflexivity]. }
  split; [|split; [exact Hok|]].
  - intros Hn Hu; unfold customer_GenerateLoginToken; rewrite Hn, Hu; reflexivity.
  - intros t reqs H; destruct (Hok false t reqs H) as [body [_ [_ [_ Hb]]]].
    destruct t as [tok b]; cbn [baseURL] in Hb; subst b.
    unfold loginToken_LoginURL, loginToken_URLFullPath, loginToken_String; cbn [token baseURL].
    reflexivity.
Qed.

End OperationProperties.

(** [VerifyOTP] never answers [true] together with an error: on every
    error it answers [false]. It answers [true] only for a numeric
    customer identifier whose request got a 200 answer whose body
    [strconv.ParseBool] reads as true. *)
Theorem customer_VerifyOTP_true_only_on_success decode_other call ErrRcInvalidCredential
    customerID otp authType :
  let out := customer_VerifyOTP decode_other call ErrRcInvalidCredential customerID otp authType in
  (snd (fst out) <> None -> fst (fst out) = false) /\
  (fst (fst out) = true ->
   rgx_number customerID = true /\ snd (fst out) = None /\
   exists body,
     call (mkRequest MethodPost "customers/authenticate" "verify-otp"
             (values_add "type" authType
                (values_add "otp" otp (values_add "customerid" customerID []))))
       = Ok (StatusOK, body) /\
     parse_bool body = Ok true).
Proof.
  cbv zeta; unfold customer_VerifyOTP.
  destruct (rgx_number customerID); cbn [negb];
    [|split; [reflexivity | discriminate]].
  cbv zeta; unfold call_body.
  destruct (call _) as [[status body]|e] eqn:Hc;
    [|split; [reflexivity | discriminate]].
  destruct (Z.eqb_spec status StatusOK) as [->|Hst]; cbn [negb];
    [|split; [reflexivity | discriminate]].
  destruct (parse_bool body) as [b|e] eqn:Hp; [|split; [reflexivity | discriminate]].
  split; [intros H; exfalso; apply H; reflexivity|].
  cbn [fst snd]; intros ->; split; [reflexivity | split; [reflexivity|]].
  exists body; split; [reflexivity | exact Hp].
Qed.

(** ** Concrete runs of the properties above *)

(** A server that is never reached, and one that answers 200 with the
    body [42]. *)
Definition call_offline (r : request) : result (Z * string) := Err (ErrNew "connection refused").

Definition call_ok (r : request) : result (Z * string) := Ok (StatusOK, "42").

(** A record with one tagged, filled string field. *)
Definition one_filled_field : record := [
  (mkField "First" EmptyString "first" EmptyString, VString "Ann")
].

Lemma entityAttributes_Add_then_URLValues_witness :
  entityAttributes_URLValues (entityAttributes_Add "c" "3" attr_example)
    (fold_left attr_goroutine
       (rev (attr_goroutines 1 (entityAttributes_Add "c" "3" attr_example))) []) /\
  exists i,
    1 <= i <= length (entityAttributes_Add "c" "3" attr_example) /\
    values_lookup (attr_name_key i)
      (fold_left attr_goroutine
         (rev (attr_goroutines 1 (entityAttributes_Add "c" "3" attr_example))) []) = Some ["c"] /\
    values_lookup (attr_value_key i)
      (fold_left attr_goroutine
         (rev (attr_goroutines 1 (entityAttributes_Add "c" "3" attr_example))) []) = Some ["3"].
Proof.
  assert (Hrun : entityAttributes_URLValues (entityAttributes_Add "c" "3" attr_example)
    (fold_left attr_goroutine
       (rev (attr_goroutines 1 (entityAttributes_Add "c" "3" attr_example))) [])).
  { exact (attr_run _ _ _ (Permutation_refl _) (Permutation_sym (Permutation_rev _))). }
  split; [exact Hrun|].
  exact (entityAttributes_Add_then_URLValues "c" "3" attr_example _ Hrun).
Defined.

Lemma entityAttributes_Del_then_URLValues_witness :
  entityAttributes_URLValues (entityAttributes_Del "a" attr_example)
    (fold_left attr_goroutine (attr_goroutines 1 (entityAttributes_Del "a" attr_example)) []) /\
  forall i l,
    values_lookup (attr_name_key i)
      (fold_left attr_goroutine (attr_goroutines 1 (entityAttributes_Del "a" attr_example)) [])
      = Some l -> ~ In "a" l.
Proof.
  assert (Hrun : entityAttributes_URLValues (entityAttributes_Del "a" attr_example)
    (fold_left attr_goroutine (attr_goroutines 1 (entityAttributes_Del "a" attr_example)) [])).
  { exact (attr_run _ _ _ (Permutation_refl _) (Permutation_refl _)). }
  split; [exact Hrun|].
  exact (entityAttributes_Del_then_URLValues "a" attr_example _ Hrun).
Defined.

Definition copy_example_dest : values := [("x", ["y"])].

Definition copy_example_out : values :=
  fold_left attr_goroutine (rev (attr_goroutines 1 attr_example)) copy_example_dest.

Lemma entityAttributes_CopyTo_adds_witness :
  entityAttributes_CopyTo attr_example (Some (Some copy_example_dest))
    (Returned (Some (Some copy_example_out))) /\
  exists d', Returned (Some (Some copy_example_out)) = Returned (Some (Some d')) /\
    (forall K, (forall i, K <> attr_name_key i /\ K <> attr_value_key i) ->
       values_lookup K d' = values_lookup K copy_example_dest) /\
    (forall i, 1 <= i <= length attr_example -> exists k v, In (k, v) attr_example /\
       values_lookup (attr_name_key i) d'
         = Some (values_get (attr_name_key i) copy_example_dest ++ [k])%list /\
       values_lookup (attr_value_key i) d'
         = Some (values_get (attr_value_key i) copy_example_dest ++ [v])%list) /\
    (forall k v, In (k, v) attr_example -> exists i, 1 <= i <= length attr_example /\
       values_lookup (attr_name_key i) d'
         = Some (values_get (attr_name_key i) copy_example_dest ++ [k])%list /\
       values_lookup (attr_value_key i) d'
         = Some (values_get (attr_value_key i) copy_example_dest ++ [v])%list).
Proof.
  assert (Hc : entityAttributes_CopyTo attr_example (Some (Some copy_example_dest))
                 (Returned (Some (Some copy_example_out)))).
  { exact (copy_run _ _ _ _ (Permutation_refl _) (Permutation_sym (Permutation_rev _))). }
  split; [exact Hc|].
  exact (entityAttributes_CopyTo_adds attr_example _ _ Hc).
Defined.

Lemma operations_reject_non_numeric_id_witness :
  rgx_number "abc" = false /\
  customer_Delete example_decoder call_offline (ErrNew "invalid") "abc"
    = (Some (ErrNew "invalid"), []) /\
  contact_Details example_decoder call_offline (ErrNew "invalid") "abc"
    = (Err (ErrNew "invalid"), []).
Proof.
  pose proof (operations_reject_non_numeric_id example_decoder call_offline (ErrNew "invalid")
                "abc" ltac:(reflexivity)) as H.
  split; [reflexivity|].
  split; [exact (proj1 (proj2 H)) | exact (proj1 (proj2 (proj2 (proj2 (proj2 (proj2 H))))))].
Defined.

Lemma password_checked_before_call_witness :
  String.length "short" < 9 /\
  customer_ChangePassword example_decoder call_ok "12" "short"
    = (Some (ErrNew "invalid password format"), []) /\
  customer_GenerateToken example_decoder call_ok (fun _ => true) "a@b.c" "short" "1.2.3.4"
    = (EmptyString, Some (ErrNew "invalid format on password"), []).
Proof.
  split; [cbn; lia|].
  apply (password_checked_before_call example_decoder call_ok (fun _ => true) "12" "short" "a@b.c"
           "1.2.3.4").
  left; cbn; lia.
Defined.

Lemma contact_AddExtraDetails_request_witness :
  exists err reqs,
    contact_AddExtraDetails example_decoder call_offline (ErrNew "invalid") "7"
      (Some [("k", "v")]) ["dom1"; "dom2"] err reqs /\
    exists req, reqs = [req] /\ err = call_bool example_decoder call_offline req /\
      values_lookup "contact-id" (req_data req) = Some ["7"] /\
      values_lookup (attr_name_key 1) (req_data req) = Some ["k"].
Proof.
  pose proof (extra_run example_decoder call_offline (ErrNew "invalid") "7"
     (Some [("k", "v")]) ["dom1"; "dom2"] [("k", "v")] _ ["dom2"; "dom1"]
     eq_refl eq_refl ltac:(discriminate)
     (copy_run _ _ _ _ (Permutation_refl _) (Permutation_refl _))
     (perm_swap _ _ _)) as Hx.
  do 2 eexists; split; [exact Hx|].
  destruct (proj2 (contact_AddExtraDetails_request _ _ _ _ _ _ _ _ Hx) _ eq_refl
              ltac:(discriminate) eq_refl)
    as [req [Hr [He [_ [Hc [_ [Hattr _]]]]]]].
  exists req; split; [exact Hr | split; [exact He | split; [exact Hc|]]].
  destruct (Hattr 1 ltac:(cbn; lia)) as [k [v [Hin [Hn _]]]].
  destruct Hin as [E|[]]; injection E; intros; subst; exact Hn.
Defined.

Lemma contact_ValidateRegistrant_sends_witness :
  exists out,
    contact_ValidateRegistrant_request (ErrNew "invalid") "7" ["e1"; "e2"] out /\
    exists req, out = Ok req /\ values_lookup "contact-id" (req_data req) = Some ["7"] /\
      exists l, values_lookup "eligibility-criteria" (req_data req) = Some l /\
                Permutation l ["e1"; "e2"].
Proof.
  pose proof (registrant_run (ErrNew "invalid") "7" ["e1"; "e2"] ["e2"; "e1"]
                eq_refl ltac:(discriminate) (perm_swap _ _ _)) as Hx.
  eexists; split; [exact Hx|].
  destruct (proj2 (contact_ValidateRegistrant_sends _ _ _ _ Hx) eq_refl ltac:(discriminate))
    as [req [Ho [_ [_ [Hc Hl]]]]].
  exists req; split; [exact Ho | split; [exact Hc | exact Hl]].
Defined.

Lemma contact_Add_request_witness :
  exists err details' reqs,
    contact_Add (fun _ => None) example_decoder call_ok (Some one_filled_field)
      (Some [("k", "v")]) err details' reqs /\
    err = None /\ details' = Some (set_field "ID" (VString "42") one_filled_field) /\
    exists req, reqs = [req] /\ values_lookup "first" (req_data req) = Some ["Ann"].
Proof.
  pose proof (add_run (fun _ => None) example_decoder call_ok (Some one_filled_field)
                (Some [("k", "v")]) one_filled_field [("first", ["Ann"])] _ eq_refl eq_refl
                (copy_run _ _ _ _ (Permutation_refl _) (Permutation_refl _))) as Hx.
  do 3 eexists; split; [exact Hx|].
  destruct (proj2 (proj2 (contact_Add_request _ _ _ _ _ _ _ _ Hx)) one_filled_field
              [("first", ["Ann"])] eq_refl eq_refl)
    as [req [Hr [_ [Hk [_ [_ [_ [Hok _]]]]]]]].
  destruct (Hok "42" ltac:(injection Hr; intros; subst req; reflexivity)) as [He Hd].
  split; [exact He | split; [exact Hd|]].
  exists req; split; [exact Hr|].
  rewrite Hk; [reflexivity|].
  intros i; apply not_attr_key; discriminate.
Defined.

Lemma customer_SignUp_outcome_witness :
  customer_SignUp example_decoder call_ok signup_example ([("first", ["Ann"])], None)
    = ((None, set_field "CustomerID" (VString "42") signup_example),
       [mkRequest MethodPost "customers/v2" "signup" [("first", ["Ann"])]]) /\
  exists body,
    call_ok (mkRequest MethodPost "customers/v2" "signup" [("first", ["Ann"])])
      = Ok (StatusOK, body) /\
    set_field "CustomerID" (VString "42") signup_example
      = set_field "CustomerID" (VString body) signup_example.
Proof.
  assert (H : customer_SignUp example_decoder call_ok signup_example ([("first", ["Ann"])], None)
    = ((None, set_field "CustomerID" (VString "42") signup_example),
       [mkRequest MethodPost "customers/v2" "signup" [("first", ["Ann"])]])) by reflexivity.
  split; [exact H|].
  exact (proj1 (proj2 (proj2 (customer_SignUp_outcome _ _ _ _ _ _ _ H) eq_refl)) eq_refl).
Defined.

(** A [contact.Criteria] with a customer, a status and [IsIncludeInvalid]
    set. *)
Definition criteria_sample : record :=
  combine contact_Criteria_fields
    [VString "12"; VSlice None; VSlice (Some ["Active"]); VString EmptyString;
     VString EmptyString; VString EmptyString; VString EmptyString; VBool true].

Lemma contact_Search_paging_witness :
  exists out,
    contact_Search (validator_Struct go_rule_ok "Criteria") example_decoder (fun l => l) call_ok
      criteria_sample 1 10 out /\
    (1 = 0 \/ 10 = 0 ->
     out = Returned (Err (ErrNew "offset or limit must greater than zero"), [])) /\
    (1 <> 0 -> 10 <> 0 -> of_struct contact_Criteria_fields criteria_sample ->
     validator_Struct go_rule_ok "Criteria" criteria_sample = None ->
     (out = Panicked <->
      exists f s, In (f, VString s) criteria_sample /\ f_name f = "Type" /\ s <> EmptyString) /\
     (forall res reqs, out = Returned (res, reqs) ->
      exists req, reqs = [req] /\ req_func req = "search" /\
        values_lookup "no-of-records" (req_data req) = Some [itoa 10] /\
        values_lookup "page-no" (req_data req) = Some [itoa 1] /\
        forall r, res = Ok r ->
          RequestedLimit r = Z.of_nat 10 /\ RequestedOffset r = Z.of_nat 1)).
Proof.
  assert (Hrun : contact_Search (validator_Struct go_rule_ok "Criteria") example_decoder
                   (fun l => l) call_ok criteria_sample 1 10
                   (Returned (contact_search_call example_decoder (fun l => l) call_ok
                      (fold_left add_op (flat_map criteria_adds criteria_sample) []) 1 10))).
  { apply search_run; [discriminate | discriminate | vm_compute; reflexivity |].
    apply criteria_run; [vm_compute; reflexivity | vm_compute; reflexivity |].
    apply Permutation_refl. }
  eexists; split; [exact Hrun|].
  exact (contact_Search_paging _ _ _ _ _ _ _ _ Hrun).
Defined.

